(** * A from-scratch feed-forward classifier: batching, layers, training loop

    Shallow embedding of [simplest-nn-oo.py] (classes [Net], [Dense],
    [Softplus], [Softmax]) and of its procedural twin [simplest-nn.py]
    (module [Procedural]); [shuffle] and [batch_data] are the same text in
    both files.

    Modelling conventions
    - A 2-D numpy array is a [matrix]: its two shape components and its
      rows.  Numbers are real numbers (exact arithmetic).  The embedding
      stands for the float64 program up to the rounding of each
      operation and as long as no operation overflows; where a
      statement depends on one of the two, it says so.  Module [F64]
      holds float64 values themselves, for the places where rounding
      changes a result.
    - A Python exception is [None]; every raising operation is written with
      the condition under which numpy or Python raises.
    - [blas.random] and [time.time] are the ambient world: an opaque
      generator state with its [shuffle] primitive, and a clock read through
      a counter of calls.  Console output is not modelled.
    - [batch_size] and [cycles] are natural numbers.
    - numpy is the backend ([blas = np]); data loading and plotting are
      not part of the embedding. *)

From Stdlib Require Import List Arith Bool Lia Reals Lra Permutation.
From Stdlib Require Floats.
Import ListNotations.

Set Implicit Arguments.

(** ** The error monad of a raising computation *)

Definition bind_opt {A B : Type} (c : option A) (k : A -> option B) : option B :=
  match c with
  | Some a => k a
  | None => None
  end.

Declare Scope err_scope.
Delimit Scope err_scope with err.
Notation "x <- c ;; k" := (bind_opt c (fun x => k))
  (at level 61, c at next level, right associativity) : err_scope.
Notation "' p <- c ;; k" := (bind_opt c (fun x => let 'p := x in k))
  (at level 61, p pattern, c at next level, right associativity) : err_scope.

(** ** Matrices *)

Record matrix : Type := mk_matrix {
  shape0 : nat;
  shape1 : nat;
  rows : list (list R)
}.

(** Every numpy array is rectangular and agrees with its shape. *)
Definition wfb (M : matrix) : bool :=
  (length (rows M) =? shape0 M) &&
  forallb (fun r => length r =? shape1 M) (rows M).

Definition wf (M : matrix) : Prop := wfb M = true.

(** [M[i][j]] *)
Definition get (M : matrix) (i j : nat) : R := nth j (nth i (rows M) []) 0%R.

(** The [r] x [c] array whose entry [(i, j)] is [f i j]. *)
Definition tabulate (r c : nat) (f : nat -> nat -> R) : matrix :=
  {| shape0 := r;
     shape1 := c;
     rows := map (fun i => map (fun j => f i j) (seq 0 c)) (seq 0 r) |}.

(** [f 0 + f 1 + ... + f (n-1)] *)
Fixpoint big_sum (n : nat) (f : nat -> R) : R :=
  match n with
  | O => 0%R
  | S k => (big_sum k f + f k)%R
  end.

(** [A.dot(B)]: raises unless the inner dimensions agree. *)
Definition dot (A B : matrix) : option matrix :=
  if shape1 A =? shape0 B
  then Some (tabulate (shape0 A) (shape1 B)
               (fun i j => big_sum (shape1 A) (fun k => (get A i k * get B k j)%R)))
  else None.

(** [A.T] *)
Definition transpose (A : matrix) : matrix :=
  tabulate (shape1 A) (shape0 A) (fun i j => get A j i).

(** Elementwise application of a scalar function ([blas.exp(z)],
    [dW * lr], [error**2], ...). *)
Definition map_matrix (f : R -> R) (M : matrix) : matrix :=
  {| shape0 := shape0 M; shape1 := shape1 M; rows := map (map f) (rows M) |}.

(** numpy broadcasting of one dimension: equal, or one of them is 1. *)
Definition bdim (a b : nat) : option nat :=
  if a =? b then Some a
  else if a =? 1 then Some b
  else if b =? 1 then Some a
  else None.

Definition bidx (dim i : nat) : nat := if dim =? 1 then 0 else i.

(** [A op B] for an elementwise binary operator, with broadcasting. *)
Definition broadcast (op : R -> R -> R) (A B : matrix) : option matrix :=
  match bdim (shape0 A) (shape0 B), bdim (shape1 A) (shape1 B) with
  | Some r, Some c =>
      Some (tabulate r c (fun i j =>
              op (get A (bidx (shape0 A) i) (bidx (shape1 A) j))
                 (get B (bidx (shape0 B) i) (bidx (shape1 B) j))))
  | _, _ => None
  end.

(** [A -= B]: the broadcast result must have the shape of [A]. *)
Definition isub (A B : matrix) : option matrix :=
  (M <- broadcast Rminus A B ;;
   if (shape0 M =? shape0 A) && (shape1 M =? shape1 A) then Some M else None)%err.

(** [X[start:stop]] (row slice, [0 <= start], [0 <= stop]). *)
Definition slice (M : matrix) (start stop : nat) : matrix :=
  let r := firstn (stop - start) (skipn start (rows M)) in
  {| shape0 := length r; shape1 := shape1 M; rows := r |}.

(** [X[start:]] *)
Definition slice_from (M : matrix) (start : nat) : matrix :=
  let r := skipn start (rows M) in
  {| shape0 := length r; shape1 := shape1 M; rows := r |}.

(** [X[idxs]] (row gather): raises on an index out of bounds. *)
Definition take_rows (M : matrix) (idxs : list nat) : option matrix :=
  if forallb (fun i => i <? shape0 M) idxs
  then Some {| shape0 := length idxs;
               shape1 := shape1 M;
               rows := map (fun i => nth i (rows M) []) idxs |}
  else None.

(** ** Reductions along [axis=1] *)

(** Maximum of a non-empty row. *)
Fixpoint row_max (r : list R) : R :=
  match r with
  | [] => 0%R
  | x :: xs =>
      match xs with
      | [] => x
      | _ :: _ => Rmax x (row_max xs)
      end
  end.

(** [blas.max(z, axis=1)]: raises when the reduced axis is empty
    (the maximum has no identity). *)
Definition max_axis1 (z : matrix) : option (list R) :=
  if shape1 z =? 0 then None else Some (map row_max (rows z)).

Definition row_sum (r : list R) : R := fold_right Rplus 0%R r.

(** [blas.sum(z, axis=1)] *)
Definition sum_axis1 (z : matrix) : list R := map row_sum (rows z).

(** Index of the first occurrence of the maximum of [x :: r], scanning
    [r] from position [i] with the running best [(best_i, best)]. *)
Fixpoint argmax_from (best_i : nat) (best : R) (i : nat) (r : list R) : nat :=
  match r with
  | [] => best_i
  | x :: xs =>
      if Rlt_dec best x
      then argmax_from i x (S i) xs
      else argmax_from best_i best (S i) xs
  end.

Definition row_argmax (r : list R) : nat :=
  match r with
  | [] => 0
  | x :: xs => argmax_from 0 x 1 xs
  end.

(** [blas.argmax(z, axis=1)]: raises on an empty reduced axis. *)
Definition argmax_axis1 (z : matrix) : option (list nat) :=
  if shape1 z =? 0 then None else Some (map row_argmax (rows z)).

(** [v.reshape(n, 1)] of a 1-D array: raises unless [v] has [n] entries. *)
Definition reshape_col (v : list R) (n : nat) : option matrix :=
  if length v =? n
  then Some {| shape0 := n; shape1 := 1; rows := map (fun x => [x]) v |}
  else None.

(** [blas.count_nonzero(a == b)] for 1-D integer arrays: the comparison
    broadcasts a one-element array and raises on other length mismatches. *)
Definition count_eq (a b : list nat) : option nat :=
  let cnt (p q : list nat) :=
    length (filter (fun xy => fst xy =? snd xy) (combine p q)) in
  if length a =? length b then Some (cnt a b)
  else if length a =? 1 then Some (cnt (repeat (hd 0 a) (length b)) b)
  else if length b =? 1 then Some (cnt a (repeat (hd 0 b) (length a)))
  else None.

(** [blas.mean(M)]: the sum of all entries over their number. *)
Definition mean (M : matrix) : R :=
  (row_sum (map row_sum (rows M)) / INR (shape0 M * shape1 M))%R.

(** ** Layers *)

(** Each layer object carries the attributes [input] and [output]; they
    do not exist before the first [forward] ([None]: reading one raises
    [AttributeError]). *)

Module Dense.

Record t : Type := mk {
  weights : matrix;
  input : option matrix;
  output : option matrix
}.

Definition forward (self : t) (inp : matrix) : option (matrix * t) :=
  (out <- dot inp (weights self) ;;
   Some (out, {| weights := weights self; input := Some inp; output := Some out |}))%err.

Definition backward (self : t) (grad : matrix) (lr : R) : option (matrix * t) :=
  (inp <- input self ;;
   dW0 <- dot (transpose grad) inp ;;
   let dW := transpose dW0 in
   dZ <- dot grad (transpose (weights self)) ;;
   w <- isub (weights self) (map_matrix (fun x => (x * lr)%R) dW) ;;
   Some (dZ, {| weights := w; input := input self; output := output self |}))%err.

End Dense.

Module Softplus.

Record t : Type := mk {
  input : option matrix;
  output : option matrix
}.

(** [blas.log(1 + blas.exp(z))].  In float64 [exp] overflows to [inf]
    above 709.78, and the code then returns [inf] where this definition
    has [ln (1 + exp x)]: the definition stands for the code on entries
    up to 709. *)
Definition forward (self : t) (z : matrix) : option (matrix * t) :=
  let out := map_matrix (fun x => ln (1 + exp x)) z in
  Some (out, {| input := Some z; output := Some out |}).

(** [blas.exp(z) / (1 + blas.exp(z)) * grad].  Above 709.78 the code
    divides [inf] by [inf] and returns NaN; below that float64 rounds
    the factor, to exactly 1 from about 37 on and to exactly 0 for a
    very negative entry, where the real factor is strictly between the
    two.  The definition stands for the code on entries up to 709, up
    to that rounding. *)
Definition backward (self : t) (grad : matrix) (lr : R) : option (matrix * t) :=
  (z <- input self ;;
   let ez := map_matrix exp z in
   q <- broadcast Rdiv ez (map_matrix (fun e => (1 + e)%R) ez) ;;
   g <- broadcast Rmult q grad ;;
   Some (g, self))%err.

End Softplus.

Module Softmax.

Record t : Type := mk {
  input : option matrix;
  output : option matrix
}.

Definition forward (self : t) (z : matrix) : option (matrix * t) :=
  (mx <- max_axis1 z ;;
   col <- reshape_col mx (shape0 z) ;;
   z' <- broadcast Rminus z col ;;
   let ez := map_matrix exp z' in
   tot <- reshape_col (sum_axis1 ez) (shape0 z') ;;
   out <- broadcast Rdiv ez tot ;;
   Some (out, {| input := Some z; output := Some out |}))%err.

Definition backward (self : t) (grad : matrix) (lr : R) : option (matrix * t) :=
  Some (grad, self).

End Softmax.

(** The three layer classes behind the common [forward]/[backward]
    interface. *)
Inductive Layer : Type :=
| LDense (d : Dense.t)
| LSoftplus (s : Softplus.t)
| LSoftmax (s : Softmax.t).

Definition Layer_forward (l : Layer) (x : matrix) : option (matrix * Layer) :=
  match l with
  | LDense d => ('(y, d') <- Dense.forward d x ;; Some (y, LDense d'))%err
  | LSoftplus s => ('(y, s') <- Softplus.forward s x ;; Some (y, LSoftplus s'))%err
  | LSoftmax s => ('(y, s') <- Softmax.forward s x ;; Some (y, LSoftmax s'))%err
  end.

Definition Layer_backward (l : Layer) (grad : matrix) (lr : R) : option (matrix * Layer) :=
  match l with
  | LDense d => ('(g, d') <- Dense.backward d grad lr ;; Some (g, LDense d'))%err
  | LSoftplus s => ('(g, s') <- Softplus.backward s grad lr ;; Some (g, LSoftplus s'))%err
  | LSoftmax s => ('(g, s') <- Softmax.backward s grad lr ;; Some (g, LSoftmax s'))%err
  end.

(** The weight matrix of a layer, when it has one. *)
Definition Layer_weights (l : Layer) : option matrix :=
  match l with
  | LDense d => Some (Dense.weights d)
  | _ => None
  end.

(** [blas.around(x, d)]: scale by [10^d], round to the nearest integer
    (ties to the even one), scale back. *)
Definition rint (x : R) : Z :=
  let f := Int_part x in
  let fr := (x - IZR f)%R in
  if Rlt_dec fr (1 / 2) then f
  else if Rlt_dec (1 / 2) fr then (f + 1)%Z
  else if Z.even f then f else (f + 1)%Z.

Definition around (x : R) (d : nat) : R :=
  (IZR (rint (x * 10 ^ d)) / 10 ^ d)%R.

(** [x >= 100.0] *)
Definition ge100 (x : R) : bool := if Rle_dec 100 x then true else false.

(** ** The loop over the cycles

    Both [train] functions run the same loop,

    [for cycle in range(cycles):]
    [    if (cycle > 0) and (accs[-1] >= 100.0): break]
    [    <body>]

    Here [body cycle s] is the rest of the body run in state [s] (it may
    raise) and [accs s] is the accuracy history in that state.  The loop is
    entered at [cycle] with [remaining] passes left. *)

Section CyclesLoop.

Variable state : Type.
Variable accs : state -> list R.
Variable body : nat -> state -> option state.

Fixpoint cycles_loop (remaining cycle : nat) (s : state) : option state :=
  match remaining with
  | O => Some s
  | S r =>
      if (0 <? cycle) && ge100 (last (accs s) 0%R) then Some s
      else
        (s' <- body cycle s ;;
         cycles_loop r (S cycle) s')%err
  end.

End CyclesLoop.

(** ** The network object *)

(** The attributes of a [Net] after [__init__]; [print_freq] only drives
    the console output and is left out. *)
Record Net : Type := mk_Net {
  train_x : matrix;
  train_y : matrix;
  test_x : matrix;
  test_y : matrix;
  layers : list Layer;
  cycles : nat;
  lr : R;
  batch_size : nat
}.

Definition set_layers (self : Net) (ls : list Layer) : Net :=
  {| train_x := train_x self; train_y := train_y self;
     test_x := test_x self; test_y := test_y self;
     layers := ls; cycles := cycles self; lr := lr self;
     batch_size := batch_size self |}.

(** [for layer in ls: output = layer.forward(output)] *)
Fixpoint forward_layers (ls : list Layer) (x : matrix) : option (matrix * list Layer) :=
  match ls with
  | [] => Some (x, [])
  | l :: rest =>
      ('(y, l') <- Layer_forward l x ;;
       '(out, rest') <- forward_layers rest y ;;
       Some (out, l' :: rest'))%err
  end.

(** [for layer in ls: grad = layer.backward(grad, lr)] *)
Fixpoint backward_layers (ls : list Layer) (grad : matrix) (rate : R)
  : option (matrix * list Layer) :=
  match ls with
  | [] => Some (grad, [])
  | l :: rest =>
      ('(g, l') <- Layer_backward l grad rate ;;
       '(g', rest') <- backward_layers rest g rate ;;
       Some (g', l' :: rest'))%err
  end.

(** [Net.forward] *)
Definition Net_forward (self : Net) (batch : matrix) : option (matrix * Net) :=
  ('(output, ls) <- forward_layers (layers self) batch ;;
   Some (output, set_layers self ls))%err.

(** [Net.backward]: [1/batch.shape[0]] raises on a batch without rows;
    the layers are visited last to first and updated in place. *)
Definition Net_backward (self : Net) (batch error : matrix) : option Net :=
  if shape0 batch =? 0 then None
  else
    let grad := map_matrix (fun e => (1 / INR (shape0 batch) * e)%R) error in
    ('(_, ls) <- backward_layers (rev (layers self)) grad (lr self) ;;
     Some (set_layers self (rev ls)))%err.

(** [Net.test] *)
Definition Net_test (self : Net) : option ((R * matrix) * Net) :=
  let x := test_x self in
  let y := test_y self in
  ('(output, self') <- Net_forward self x ;;
   p <- argmax_axis1 output ;;
   t <- argmax_axis1 y ;;
   hits <- count_eq p t ;;
   if shape0 x =? 0 then None
   else
     let acc := around (100 * INR hits / INR (shape0 x)) 5 in
     Some ((acc, output), self'))%err.

(** The layer with its [input] and [output] attributes deleted: what is
    left is its class and, for [Dense], its weights. *)
Definition Layer_reset (l : Layer) : Layer :=
  match l with
  | LDense d =>
      LDense {| Dense.weights := Dense.weights d;
                Dense.input := None; Dense.output := None |}
  | LSoftplus _ => LSoftplus {| Softplus.input := None; Softplus.output := None |}
  | LSoftmax _ => LSoftmax {| Softmax.input := None; Softmax.output := None |}
  end.

(** ** The ambient world: random generator and wall clock *)

Section World.

Variable rng : Type.
(** [blas.random.shuffle(idxs)]: the shuffled array and the next
    generator state. *)
Variable rng_shuffle : rng -> list nat -> list nat * rng.
(** The value returned by the [n]-th call of [time.time()]. *)
Variable clock : nat -> R.

Record world : Type := mk_world {
  gen : rng;
  ticks : nat
}.

(** [time.time()] *)
Definition time_time (w : world) : R * world :=
  (clock (ticks w), {| gen := gen w; ticks := S (ticks w) |}).

(** [shuffle(X, Y)].  For a dataset without rows [idxs] is
    [blas.array([])], an array of floats, and [X[idxs]] raises
    [IndexError]: only arrays of integers index. *)
Definition shuffle (X Y : matrix) (w : world) : option ((matrix * matrix) * world) :=
  let idxs := seq 0 (shape0 X) in
  let '(idxs', g) := rng_shuffle (gen w) idxs in
  if shape0 X =? 0 then None
  else
    (sx <- take_rows X idxs' ;;
     sy <- take_rows Y idxs' ;;
     Some ((sx, sy), {| gen := g; ticks := ticks w |}))%err.

Definition batch : Type := (matrix * matrix)%type.

(** The body of one pass of the outer loop of [batch_data], after the
    call of [shuffle]: [num_batches - 1] slices of [batch_size] rows, then
    the slice from [num_batches * batch_size] to the end. *)
Definition cycle_batches (X Y : matrix) (batch_size : nat) : list batch :=
  let m := shape0 X in
  let num_batches := m / batch_size in
  let batches :=
    map (fun b =>
           let start := b * batch_size in
           let stop := (b + 1) * batch_size in
           (slice X start stop, slice Y start stop))
        (seq 0 (num_batches - 1)) in
  let last_start := num_batches * batch_size in
  batches ++ [(slice_from X last_start, slice_from Y last_start)].

(** [for e in range(cycles)] of [batch_data]; [m // batch_size] raises
    when [batch_size] is zero. *)
Fixpoint batch_data_loop (X Y : matrix) (batch_size cycles : nat)
    (train_batches : list (list batch)) (w : world)
  : option (list (list batch) * world) :=
  match cycles with
  | O => Some (train_batches, w)
  | S c =>
      ('(shuffled, w') <- shuffle X Y w ;;
       let '(shuffled_X, shuffled_Y) := shuffled in
       if batch_size =? 0 then None
       else
         batch_data_loop X Y batch_size c
           (train_batches ++ [cycle_batches X Y batch_size]) w')%err
  end.

(** [batch_data(X, Y, batch_size, cycles)] *)
Definition batch_data (X Y : matrix) (batch_size cycles : nat) (w : world)
  : option (list (list batch) * world) :=
  let '(batching_start, w1) := time_time w in
  ('(train_batches, w2) <- batch_data_loop X Y batch_size cycles [] w1 ;;
   let '(batching_end, w3) := time_time w2 in
   Some (train_batches, w3))%err.

(** ** The training loop *)

(** The variables live across the batches of one cycle. *)
Record batch_state : Type := mk_batch_state {
  bs_net : Net;
  bs_cost : R;
  bs_acc : R;
  bs_cycle_start : R;
  bs_train_start : R;
  bs_world : world
}.

(** One pass of [for b, batch in enumerate(current_batches)]. *)
Definition train_batch (cycle b : nat) (bt : batch) (s : batch_state)
  : option batch_state :=
  let '(cycle_start, train_start, w) :=
    if (cycle =? 0) && (b =? 13)
    then
      let '(c, w1) := time_time (bs_world s) in
      let '(t, w2) := time_time w1 in
      (c, t, w2)
    else (bs_cycle_start s, bs_train_start s, bs_world s) in
  ('(output, net1) <- Net_forward (bs_net s) (fst bt) ;;
   error <- broadcast Rminus output (snd bt) ;;
   net2 <- Net_backward net1 (fst bt) error ;;
   p <- argmax_axis1 output ;;
   t <- argmax_axis1 (snd bt) ;;
   hits <- count_eq p t ;;
   if shape0 (fst bt) =? 0 then None
   else
     Some {| bs_net := net2;
             bs_cost := (bs_cost s + mean (map_matrix (fun e => e ^ 2) error))%R;
             bs_acc := (bs_acc s + INR hits / INR (shape0 (fst bt)))%R;
             bs_cycle_start := cycle_start;
             bs_train_start := train_start;
             bs_world := w |})%err.

Fixpoint train_batches_from (cycle b : nat) (current_batches : list batch)
    (s : batch_state) : option batch_state :=
  match current_batches with
  | [] => Some s
  | bt :: rest =>
      (s' <- train_batch cycle b bt s ;;
       train_batches_from cycle (S b) rest s')%err
  end.

(** The variables live across the cycles of [Net.train]. *)
Record train_state : Type := mk_train_state {
  ts_net : Net;
  ts_costs : list R;
  ts_accs : list R;
  ts_times : list R;
  ts_train_start : R;
  ts_world : world
}.

(** The body of [for cycle in range(self.cycles)] below the [break]. *)
Definition train_cycle (batches : list (list batch)) (batch_count cycle : nat)
    (s : train_state) : option train_state :=
  (current_batches <- nth_error batches cycle ;;
   let '(cycle_start, w1) := time_time (ts_world s) in
   s' <- train_batches_from cycle 0 current_batches
           {| bs_net := ts_net s; bs_cost := 0; bs_acc := 0;
              bs_cycle_start := cycle_start;
              bs_train_start := ts_train_start s;
              bs_world := w1 |} ;;
   let '(cycle_end, w2) := time_time (bs_world s') in
   Some {| ts_net := bs_net s';
           ts_costs := ts_costs s ++ [(bs_cost s' / INR batch_count)%R];
           ts_accs := ts_accs s ++ [(bs_acc s' * 100 / INR batch_count)%R];
           ts_times := ts_times s ++ [(cycle_end - bs_cycle_start s')%R];
           ts_train_start := bs_train_start s';
           ts_world := w2 |})%err.

(** [for cycle in range(self.cycles)] of [Net.train]. *)
Definition train_loop (batches : list (list batch)) (batch_count : nat)
    (remaining cycle : nat) (s : train_state) : option train_state :=
  cycles_loop ts_accs (train_cycle batches batch_count) remaining cycle s.

(** What [Net.train] returns, with the network and world it leaves. *)
Record train_result : Type := mk_train_result {
  r_costs : list R;
  r_accs : list R;
  r_times : list R;
  r_train_time : R;
  r_avg_time : R;
  r_train_acc_delta : R;
  r_net : Net;
  r_world : world
}.

(** [blas.average(v)] *)
Definition average (v : list R) : R := (row_sum v / INR (length v))%R.

(** [Net.train], first part: the batches, [batch_count] and the state in
    which the loop over the cycles is entered.  [batches[0]] raises when
    [cycles] is zero. *)
Definition train_setup (self : Net) (w : world)
  : option ((list (list batch) * nat) * train_state) :=
  ('(batches, w1) <- batch_data (train_x self) (train_y self)
                       (batch_size self) (cycles self) w ;;
   first <- nth_error batches 0 ;;
   let batch_count := length first in
   _ <- nth_error first 0 ;;
   let '(train_start, w2) := time_time w1 in
   Some ((batches, batch_count),
         {| ts_net := self; ts_costs := []; ts_accs := []; ts_times := [];
            ts_train_start := train_start; ts_world := w2 |}))%err.

(** [Net.train], last part: the statistics computed once the loop is
    left in state [s]. *)
Definition train_report (s : train_state) : option train_result :=
  let '(train_end, w3) := time_time (ts_world s) in
  let train_time := around (train_end - ts_train_start s) 2 in
  let avg_time := around (average (ts_times s)) 2 in
  let times := map (fun x => around x 2) (ts_times s) in
  let accs := map (fun x => around x 5) (ts_accs s) in
  let costs := map (fun x => around x 5) (ts_costs s) in
  (a_last <- nth_error accs (length accs - 1) ;;
   a_first <- nth_error accs 0 ;;
   Some {| r_costs := costs; r_accs := accs; r_times := times;
           r_train_time := train_time; r_avg_time := avg_time;
           r_train_acc_delta := around (a_last - a_first) 2;
           r_net := ts_net s; r_world := w3 |})%err.

(** [Net.train] *)
Definition Net_train (self : Net) (w : world) : option train_result :=
  ('(setup, s0) <- train_setup self w ;;
   let '(batches, batch_count) := setup in
   s <- train_loop batches batch_count (cycles self) 0 s0 ;;
   train_report s)%err.

End World.

(** ** The procedural twin ([simplest-nn.py])

    The same network as a list of weight matrices handled by the
    functions [forward], [backward], [train] and [test]; [shuffle] and
    [batch_data] are the ones above. *)

(** [l[-1]] *)
Definition last_opt {A : Type} (l : list A) : option A :=
  nth_error l (length l - 1).

(** [l[-(i+1)]]: raises when [l] has fewer than [i+1] elements. *)
Definition neg_index {A : Type} (l : list A) (i : nat) : option nat :=
  if i + 1 <=? length l then Some (length l - (i + 1)) else None.

(** [l[n] = x] for an index in range. *)
Fixpoint set_nth {A : Type} (l : list A) (n : nat) (x : A) : list A :=
  match l, n with
  | [], _ => []
  | _ :: t, O => x :: t
  | h :: t, S n' => h :: set_nth t n' x
  end.

Module Procedural.

(** The softmax lines of [forward]. *)
Definition softmax (ZF : matrix) : option matrix :=
  (mx <- max_axis1 ZF ;;
   col <- reshape_col mx (shape0 ZF) ;;
   z <- broadcast Rminus ZF col ;;
   let ez := map_matrix exp z in
   tot <- reshape_col (sum_axis1 ez) (shape0 z) ;;
   broadcast Rdiv ez tot)%err.

(** [for i,w in enumerate(weights[:-1])] of [forward]. *)
Fixpoint forward_loop (input : matrix) (i : nat) (ws : list matrix)
    (outputs : list (matrix * matrix)) : option (list (matrix * matrix)) :=
  match ws with
  | [] => Some outputs
  | w :: rest =>
      (Z <- (if i =? 0 then dot input w
             else (l <- last_opt outputs ;; dot (snd l) w)) ;;
       let A := map_matrix (fun x => ln (1 + exp x)) Z in
       forward_loop input (S i) rest (outputs ++ [(Z, A)]))%err
  end.

(** [forward(input, weights)] *)
Definition forward (input : matrix) (weights : list matrix)
  : option (list (matrix * matrix)) :=
  (outputs <- forward_loop input 0 (removelast weights) [] ;;
   l <- last_opt outputs ;;
   wl <- last_opt weights ;;
   ZF <- dot (snd l) wl ;;
   AF <- softmax ZF ;;
   Some (outputs ++ [(ZF, AF)]))%err.

(** [for i,l in enumerate(reversed(forward_pass[:-1]))] of [backward]:
    [ls] is what is left of the reversed list. *)
Fixpoint backward_loop (ls : list (matrix * matrix)) (i : nat) (grad : matrix)
    (weights : list matrix) (rate : R) : option (matrix * list matrix) :=
  match ls with
  | [] => Some (grad, weights)
  | l :: rest =>
      (dW0 <- dot (transpose grad) (snd l) ;;
       let dW := transpose dW0 in
       n <- neg_index weights i ;;
       w <- nth_error weights n ;;
       dZ <- dot grad (transpose w) ;;
       w' <- isub w (map_matrix (fun x => (x * rate)%R) dW) ;;
       let weights' := set_nth weights n w' in
       let ez := map_matrix exp (fst l) in
       q <- broadcast Rdiv ez (map_matrix (fun e => (1 + e)%R) ez) ;;
       dA <- broadcast Rmult q dZ ;;
       backward_loop rest (S i) dA weights' rate)%err
  end.

(** [backward(batch, error, weights, forward_pass, lr)]: returns the
    list [weights] as the in-place updates leave it. *)
Definition backward (batch error : matrix) (weights : list matrix)
    (forward_pass : list (matrix * matrix)) (rate : R) : option (list matrix) :=
  if shape0 batch =? 0 then None
  else
    let grad := map_matrix (fun e => (1 / INR (shape0 batch) * e)%R) error in
    ('(grad', weights') <-
       backward_loop (rev (removelast forward_pass)) 0 grad weights rate ;;
     dWF0 <- dot (transpose grad') batch ;;
     w0 <- nth_error weights' 0 ;;
     w0' <- isub w0 (map_matrix (fun x => (x * rate)%R) (transpose dWF0)) ;;
     Some (set_nth weights' 0 w0'))%err.

(** [test(x, y, weights)] *)
Definition test (x y : matrix) (weights : list matrix) : option (R * matrix) :=
  (outputs <- forward x weights ;;
   l <- last_opt outputs ;;
   let predictions := snd l in
   p <- argmax_axis1 predictions ;;
   t <- argmax_axis1 y ;;
   hits <- count_eq p t ;;
   if shape0 x =? 0 then None
   else Some (around (100 * INR hits / INR (shape0 x)) 5, predictions))%err.

Section World.

Variable rng : Type.
Variable rng_shuffle : rng -> list nat -> list nat * rng.
(** [blas.random.randn(r, c)] *)
Variable rng_randn : rng -> nat -> nat -> matrix * rng.
Variable clock : nat -> R.

(** [for l,layer in enumerate(layers + [10])] of [init_weights]: the
    input size of a layer is [n] for the first and the width of the layer
    before it for the others; [2.0/input_size] raises on a zero size. *)
Fixpoint init_weights_loop (sizes : list nat) (input_size : nat)
    (init : list matrix) (w : world rng) : option (list matrix * world rng) :=
  match sizes with
  | [] => Some (init, w)
  | layer :: rest =>
      let '(m, g) := rng_randn (gen w) input_size layer in
      if input_size =? 0 then None
      else
        let scaled := map_matrix (fun x => (x * sqrt (2 / INR input_size))%R) m in
        init_weights_loop rest layer (init ++ [scaled])
          {| gen := g; ticks := ticks w |}
  end.

(** [init_weights(layers, n)] *)
Definition init_weights (layers : list nat) (n : nat) (w : world rng)
  : option (list matrix * world rng) :=
  init_weights_loop (layers ++ [10]) n [] w.

Record batch_state : Type := mk_batch_state {
  bs_weights : list matrix;
  bs_cost : R;
  bs_acc : R;
  bs_cycle_start : R;
  bs_train_start : R;
  bs_world : world rng
}.

(** One pass of [for b,batch in enumerate(current_batches)]. *)
Definition train_batch (rate : R) (cycle b : nat) (bt : batch) (s : batch_state)
  : option batch_state :=
  let '(cycle_start, train_start, w) :=
    if (cycle =? 0) && (b =? 13)
    then
      let '(c, w1) := time_time clock (bs_world s) in
      let '(t, w2) := time_time clock w1 in
      (c, t, w2)
    else (bs_cycle_start s, bs_train_start s, bs_world s) in
  (output <- forward (fst bt) (bs_weights s) ;;
   l <- last_opt output ;;
   error <- broadcast Rminus (snd l) (snd bt) ;;
   weights' <- backward (fst bt) error (bs_weights s) output rate ;;
   p <- argmax_axis1 (snd l) ;;
   t <- argmax_axis1 (snd bt) ;;
   hits <- count_eq p t ;;
   if shape0 (fst bt) =? 0 then None
   else
     Some {| bs_weights := weights';
             bs_cost := (bs_cost s + mean (map_matrix (fun e => e ^ 2) error))%R;
             bs_acc := (bs_acc s + INR hits / INR (shape0 (fst bt)))%R;
             bs_cycle_start := cycle_start;
             bs_train_start := train_start;
             bs_world := w |})%err.

Fixpoint train_batches_from (rate : R) (cycle b : nat) (current_batches : list batch)
    (s : batch_state) : option batch_state :=
  match current_batches with
  | [] => Some s
  | bt :: rest =>
      (s' <- train_batch rate cycle b bt s ;;
       train_batches_from rate cycle (S b) rest s')%err
  end.

Record train_state : Type := mk_train_state {
  ts_weights : list matrix;
  ts_costs : list R;
  ts_accs : list R;
  ts_times : list R;
  ts_train_start : R;
  ts_world : world rng
}.

(** The body of [for cycle in range(cycles)] below the [break]. *)
Definition train_cycle (rate : R) (batches : list (list batch)) (cycle : nat)
    (s : train_state) : option train_state :=
  (current_batches <- nth_error batches cycle ;;
   let '(cycle_start, w1) := time_time clock (ts_world s) in
   s' <- train_batches_from rate cycle 0 current_batches
           {| bs_weights := ts_weights s; bs_cost := 0; bs_acc := 0;
              bs_cycle_start := cycle_start;
              bs_train_start := ts_train_start s;
              bs_world := w1 |} ;;
   let '(cycle_end, w2) := time_time clock (bs_world s') in
   let n := length current_batches in
   Some {| ts_weights := bs_weights s';
           ts_costs := ts_costs s ++ [(bs_cost s' / INR n)%R];
           ts_accs := ts_accs s ++ [(bs_acc s' * 100 / INR n)%R];
           ts_times := ts_times s ++ [(cycle_end - bs_cycle_start s')%R];
           ts_train_start := bs_train_start s';
           ts_world := w2 |})%err.

(** [for cycle in range(cycles)] of [train]. *)
Definition train_loop (rate : R) (batches : list (list batch))
    (remaining cycle : nat) (s : train_state) : option train_state :=
  cycles_loop ts_accs (train_cycle rate batches) remaining cycle s.

Record train_result : Type := mk_train_result {
  r_costs : list R;
  r_accs : list R;
  r_times : list R;
  r_train_time : R;
  r_avg_time : R;
  r_train_acc_delta : R;
  r_weights : list matrix;
  r_world : world rng
}.

(** [train], first part: the weights, the batches and the state in which
    the loop over the cycles is entered. *)
Definition train_setup (train_x train_y : matrix) (layers : list nat)
    (cycles : nat) (w : world rng)
  : option (list (list batch) * train_state) :=
  ('(weights, w1) <- init_weights layers 784 w ;;
   '(batches, w2) <- batch_data rng_shuffle clock train_x train_y 64 cycles w1 ;;
   let '(train_start, w3) := time_time clock w2 in
   Some (batches,
         {| ts_weights := weights; ts_costs := []; ts_accs := []; ts_times := [];
            ts_train_start := train_start; ts_world := w3 |}))%err.

(** [train], last part. *)
Definition train_report (s : train_state) : option train_result :=
  let '(train_end, w3) := time_time clock (ts_world s) in
  let train_time := around (train_end - ts_train_start s) 2 in
  let avg_time := around (average (ts_times s)) 2 in
  let times := map (fun x => around x 2) (ts_times s) in
  let accs := map (fun x => around x 5) (ts_accs s) in
  let costs := map (fun x => around x 5) (ts_costs s) in
  (a_last <- nth_error accs (length accs - 1) ;;
   a_first <- nth_error accs 0 ;;
   Some {| r_costs := costs; r_accs := accs; r_times := times;
           r_train_time := train_time; r_avg_time := avg_time;
           r_train_acc_delta := around (a_last - a_first) 2;
           r_weights := ts_weights s; r_world := w3 |})%err.

(** [train(train_x, train_y, layers, cycles, lr)] *)
Definition train (train_x train_y : matrix) (layers : list nat)
    (cycles : nat) (rate : R) (w : world rng) : option train_result :=
  ('(batches, s0) <- train_setup train_x train_y layers cycles w ;;
   s <- train_loop rate batches cycles 0 s0 ;;
   train_report s)%err.

End World.

End Procedural.

(** ** Derived notions used in the statements *)

(** [blas.zeros((r, c))] *)
Definition zeros (r c : nat) : matrix := tabulate r c (fun _ _ => 0%R).

(** Closed form of the entries computed by [Softmax.forward]. *)
Definition softmax_entry (z : matrix) (i j : nat) : R :=
  let m := row_max (nth i (rows z) []) in
  (exp (get z i j - m) / big_sum (shape1 z) (fun k => exp (get z i k - m)))%R.

(** The feature rows of a batch list, in emission order. *)
Definition emitted_x (bs : list (matrix * matrix)) : list (list R) :=
  concat (map (fun bt => rows (fst bt)) bs).

(** The label rows of a batch list, in emission order. *)
Definition emitted_y (bs : list (matrix * matrix)) : list (list R) :=
  concat (map (fun bt => rows (snd bt)) bs).

(** The row counts of the batches, added up. *)
Definition total_rows (bs : list (matrix * matrix)) : nat :=
  fold_right (fun bt n => shape0 (fst bt) + n) 0 bs.

(** ** Concrete inputs used by the examples *)

(** A generator whose [shuffle] reverses the array, and a clock that
    advances by one second per reading. *)
Definition rev_shuffle (g : unit) (l : list nat) : list nat * unit := (rev l, g).

Definition tick_clock (n : nat) : R := INR n.

Definition w0 : world unit := {| gen := tt; ticks := 0 |}.

(** Four examples with one feature, labels one-hot over two classes. *)
Definition X4 : matrix :=
  {| shape0 := 4; shape1 := 1; rows := [[1]; [2]; [3]; [4]]%R |}.

Definition Y4 : matrix :=
  {| shape0 := 4; shape1 := 2; rows := [[1; 0]; [0; 1]; [1; 0]; [0; 1]]%R |}.

(** Five examples. *)
Definition X5 : matrix :=
  {| shape0 := 5; shape1 := 1; rows := [[1]; [2]; [3]; [4]; [5]]%R |}.

Definition Y5 : matrix :=
  {| shape0 := 5; shape1 := 2;
     rows := [[1; 0]; [0; 1]; [1; 0]; [0; 1]; [1; 0]]%R |}.

(** A 2 x 2 input of a softmax layer and a column of row shifts. *)
Definition Z2 : matrix :=
  {| shape0 := 2; shape1 := 2; rows := [[1; 2]; [3; 3]]%R |}.

Definition C2 : matrix :=
  {| shape0 := 2; shape1 := 1; rows := [[10]; [-4]]%R |}.

Definition fresh_softmax : Softmax.t :=
  {| Softmax.input := None; Softmax.output := None |}.

(** A dense layer from two features to one unit, one input row and one
    upstream gradient row. *)
Definition dense21 : Dense.t :=
  {| Dense.weights := {| shape0 := 2; shape1 := 1; rows := [[1]; [-1]]%R |};
     Dense.input := None; Dense.output := None |}.

Definition X12 : matrix :=
  {| shape0 := 1; shape1 := 2; rows := [[3; 5]]%R |}.

Definition G11 : matrix :=
  {| shape0 := 1; shape1 := 1; rows := [[2]]%R |}.

(** A network on one feature with one hidden unit and ten classes, all
    weights zero; its training and test sets are the same single example
    of class 0. *)
Definition X1 : matrix :=
  {| shape0 := 1; shape1 := 1; rows := [[1]]%R |}.

Definition Y1 : matrix :=
  {| shape0 := 1; shape1 := 10; rows := [[1; 0; 0; 0; 0; 0; 0; 0; 0; 0]]%R |}.

Definition net0 : Net :=
  {| train_x := X1; train_y := Y1; test_x := X1; test_y := Y1;
     layers :=
       [LDense {| Dense.weights := zeros 1 1;
                  Dense.input := None; Dense.output := None |};
        LSoftplus {| Softplus.input := None; Softplus.output := None |};
        LDense {| Dense.weights := zeros 1 10;
                  Dense.input := None; Dense.output := None |};
        LSoftmax fresh_softmax];
     cycles := 2;
     lr := (7 / 1000)%R;
     batch_size := 2 |}.

(** ** Shapes along the layers *)

(** What decides whether a layer accepts an input: its class and, for
    [Dense], the shape of its weights. *)
Inductive layer_sig : Type :=
| SigDense (r c : nat)
| SigSoftplus
| SigSoftmax.

Definition Layer_sig (l : Layer) : layer_sig :=
  match l with
  | LDense d => SigDense (shape0 (Dense.weights d)) (shape1 (Dense.weights d))
  | LSoftplus _ => SigSoftplus
  | LSoftmax _ => SigSoftmax
  end.

(** The number of columns that leaves a stack of layers fed with [n]
    columns; [None] when a [Dense] layer has another number of rows than
    the columns it receives, or a [Softmax] layer receives no column. *)
Fixpoint chain_out (sigs : list layer_sig) (n : nat) : option nat :=
  match sigs with
  | [] => Some n
  | SigDense r c :: rest => if n =? r then chain_out rest c else None
  | SigSoftplus :: rest => chain_out rest n
  | SigSoftmax :: rest => if n =? 0 then None else chain_out rest n
  end.

(** Two network objects that differ at most in the weight values and
    cached matrices of their layers. *)
Definition same_frame (a b : Net) : Prop :=
  map Layer_sig (layers a) = map Layer_sig (layers b) /\
  train_x a = train_x b /\ train_y a = train_y b /\
  test_x a = test_x b /\ test_y a = test_y b /\
  cycles a = cycles b /\ lr a = lr b /\ batch_size a = batch_size b.

(** The network object with another batch size. *)
Definition set_batch_size (self : Net) (b : nat) : Net :=
  {| train_x := train_x self; train_y := train_y self;
     test_x := test_x self; test_y := test_y self;
     layers := layers self; cycles := cycles self; lr := lr self;
     batch_size := b |}.

(** ** The data functions

    [one_hot] and [normalize] prepare the datasets in [load_data]. *)

(** [int(x)] of a float: truncation toward zero. *)
Definition py_int (x : R) : Z :=
  if Rle_dec 0 x then Int_part x else (- Int_part (- x))%Z.

(** The position that the index [k] addresses in a sequence of [n]
    elements: a negative index counts from the end, an index outside
    [[-n, n)] raises [IndexError]. *)
Definition py_index (n : nat) (k : Z) : option nat :=
  if ((0 <=? k) && (k <? Z.of_nat n))%Z then Some (Z.to_nat k)
  else if ((- Z.of_nat n <=? k) && (k <? 0))%Z then Some (Z.to_nat (k + Z.of_nat n))
  else None.

(** [M[i][j] = v] for a position in range. *)
Definition set_entry (M : matrix) (i j : nat) (v : R) : matrix :=
  {| shape0 := shape0 M; shape1 := shape1 M;
     rows := set_nth (rows M) i (set_nth (nth i (rows M) []) j v) |}.

(** [for i in range(Y.shape[0]): encoded[i][int(Y[i][0])] = 1];
    [Y[i][0]] raises when [Y] has no column. *)
Fixpoint one_hot_loop (Y : matrix) (classes : nat) (idxs : list nat)
    (encoded : matrix) : option matrix :=
  match idxs with
  | [] => Some encoded
  | i :: rest =>
      (y <- nth_error (nth i (rows Y) []) 0 ;;
       k <- py_index classes (py_int y) ;;
       one_hot_loop Y classes rest (set_entry encoded i k 1))%err
  end.

(** [one_hot(Y, classes)] *)
Definition one_hot (Y : matrix) (classes : nat) : option matrix :=
  one_hot_loop Y classes (seq 0 (shape0 Y)) (zeros (shape0 Y) classes).

(** [x.max()]: raises on an array without entries. *)
Definition matrix_max (x : matrix) : option R :=
  if shape0 x * shape1 x =? 0 then None else Some (row_max (concat (rows x))).

(** [normalize(x)]: [x / x.max()].  A zero maximum makes numpy return
    [nan] or [inf] entries, which the real numbers do not have. *)
Definition normalize (x : matrix) : option matrix :=
  (m <- matrix_max x ;;
   Some (map_matrix (fun e => (e / m)%R) x))%err.

(** ** Building the network object *)

Section Init.

Variable rng : Type.
(** [blas.random.randn(r, c)] *)
Variable rng_randn : rng -> nat -> nat -> matrix * rng.

(** [Dense([w0, w1])]: the samples are drawn, then [2.0/w0] raises when
    [w0] is zero.  The attributes [input] and [output] are not set. *)
Definition Dense_init (w0 w1 : nat) (w : world rng) : option (Dense.t * world rng) :=
  let '(m, g) := rng_randn (gen w) w0 w1 in
  if w0 =? 0 then None
  else
    Some ({| Dense.weights := map_matrix (fun x => (x * sqrt (2 / INR w0))%R) m;
             Dense.input := None; Dense.output := None |},
          {| gen := g; ticks := ticks w |}).

(** [for l in range(num_layers + 1)] of [Net.init_layers], entered at
    [l] with [remaining] passes left; [n] is [self.train_x.shape[1]]. *)
Fixpoint init_layers_loop (n : nat) (sizes : list nat) (remaining l : nat)
    (init : list Layer) (w : world rng) : option (list Layer * world rng) :=
  match remaining with
  | O => Some (init, w)
  | S r =>
      if l <? length sizes
      then
        (layer <- nth_error sizes l ;;
         input_size <- (if l =? 0 then Some n else nth_error sizes (l - 1)) ;;
         '(d, w1) <- Dense_init input_size layer w ;;
         init_layers_loop n sizes r (S l)
           (init ++ [LDense d;
                     LSoftplus {| Softplus.input := None; Softplus.output := None |}])
           w1)%err
      else
        (final <- last_opt sizes ;;
         '(d, w1) <- Dense_init final 10 w ;;
         init_layers_loop n sizes r (S l)
           (init ++ [LDense d;
                     LSoftmax {| Softmax.input := None; Softmax.output := None |}])
           w1)%err
  end.

(** [Net.init_layers(layers)] *)
Definition init_layers (n : nat) (sizes : list nat) (w : world rng)
  : option (list Layer * world rng) :=
  init_layers_loop n sizes (length sizes + 1) 0 [] w.

(** [Net(X, Y, x, y, layers, cycles, lr, batch_size)] *)
Definition Net_init (X Y x y : matrix) (sizes : list nat) (cycles : nat) (lr : R)
    (batch_size : nat) (w : world rng) : option (Net * world rng) :=
  ('(ls, w1) <- init_layers (shape1 X) sizes w ;;
   Some ({| train_x := X; train_y := Y; test_x := x; test_y := y;
            layers := ls; cycles := cycles; lr := lr; batch_size := batch_size |},
         w1))%err.

End Init.

(** The layer classes and weight shapes that [init_layers] builds from
    the input width [n] and the hidden widths [sizes]. *)
Fixpoint init_sigs (n : nat) (sizes : list nat) : list layer_sig :=
  match sizes with
  | [] => [SigDense n 10; SigSoftmax]
  | h :: rest => SigDense n h :: SigSoftplus :: init_sigs h rest
  end.

(** The network object that holds the weight matrices [ws] of the
    procedural program: a [Dense] and a [Softplus] layer for every matrix
    but the last, a [Dense] and a [Softmax] layer for the last. *)
Fixpoint layers_of_weights (ws : list matrix) : list Layer :=
  match ws with
  | [] => []
  | w :: rest =>
      let d := LDense {| Dense.weights := w; Dense.input := None;
                         Dense.output := None |} in
      match rest with
      | [] => [d; LSoftmax {| Softmax.input := None; Softmax.output := None |}]
      | _ :: _ =>
          d :: LSoftplus {| Softplus.input := None; Softplus.output := None |}
            :: layers_of_weights rest
      end
  end.

(** The function applied by [Softplus.forward]. *)
Definition softplus (x : R) : R := ln (1 + exp x).

(** A generator whose samples are all zero, and the weight matrices of
    the procedural program that correspond to [net0]. *)
Definition zero_randn (g : unit) (r c : nat) : matrix * unit := (zeros r c, g).

Definition ws0 : list matrix := [zeros 1 1; zeros 1 10].

(** Three labels in one column. *)
Definition L3 : matrix :=
  {| shape0 := 3; shape1 := 1; rows := [[2]; [0]; [1]]%R |}.

(** The shapes of the weight matrices that [init_weights] builds for the
    input width [n] and the widths [sizes]. *)
Fixpoint weight_shapes (n : nat) (sizes : list nat) : list (nat * nat) :=
  match sizes with
  | [] => []
  | h :: rest => (n, h) :: weight_shapes h rest
  end.

(** What follows the first [Dense] layer in [layers_of_weights]: a
    [Softplus] and a [Dense] layer per remaining matrix, then the
    [Softmax] layer. *)
Fixpoint tail_layers (ws : list matrix) : list Layer :=
  match ws with
  | [] => [LSoftmax {| Softmax.input := None; Softmax.output := None |}]
  | w :: rest =>
      LSoftplus {| Softplus.input := None; Softplus.output := None |}
        :: LDense {| Dense.weights := w; Dense.input := None; Dense.output := None |}
        :: tail_layers rest
  end.

(** The weight matrices held by a list of layers, in order. *)
Definition weights_of (ls : list Layer) : list matrix :=
  flat_map (fun l => match Layer_weights l with Some w => [w] | None => [] end) ls.

(** The pairs (pre-activation, activation) cached by the [Softplus]
    layers of a list of layers, in order: what [forward] of the procedural
    program stores for its hidden layers. *)
Definition pairs_of (ls : list Layer) : list (matrix * matrix) :=
  flat_map (fun l =>
              match l with
              | LSoftplus s =>
                  match Softplus.input s, Softplus.output s with
                  | Some z, Some a => [(z, a)]
                  | _, _ => []
                  end
              | _ => []
              end) ls.

(** A state of the loop over the batches in the procedural program and
    one in the object-oriented program that stand for each other: the
    [Dense] layers hold the weight matrices, and the running cost,
    accuracy, start times and world are the same. *)
Definition twin_state (rng : Type) (ps : Procedural.batch_state rng)
    (s : batch_state rng) : Prop :=
  2 <= length (Procedural.bs_weights ps) /\
  map Layer_reset (layers (bs_net s)) = layers_of_weights (Procedural.bs_weights ps) /\
  Procedural.bs_cost ps = bs_cost s /\
  Procedural.bs_acc ps = bs_acc s /\
  Procedural.bs_cycle_start ps = bs_cycle_start s /\
  Procedural.bs_train_start ps = bs_train_start s /\
  Procedural.bs_world ps = bs_world s.

(** The states in which the two programs enter the loop over the batches
    with the weights of [net0]. *)
Definition bs0 : batch_state unit :=
  {| bs_net := net0; bs_cost := 0; bs_acc := 0;
     bs_cycle_start := 0; bs_train_start := 0; bs_world := w0 |}.

Definition pbs0 : Procedural.batch_state unit :=
  {| Procedural.bs_weights := ws0; Procedural.bs_cost := 0; Procedural.bs_acc := 0;
     Procedural.bs_cycle_start := 0; Procedural.bs_train_start := 0;
     Procedural.bs_world := w0 |}.

(** ** float64 values

    The entries of every array of the program are IEEE 754 binary64
    numbers ([PrimFloat.float]), and [+] between two arrays rounds each
    sum to the nearest of them. *)

Module F64.
Import PrimFloat.

(** The real number a finite float64 stands for (0 for an infinity or a
    NaN, which stand for none). *)
Definition to_R (x : float) : R :=
  match FloatOps.Prim2SF x with
  | SpecFloat.S754_finite s m e =>
      ((if s then -1 else 1) * IZR (Z.pos m) * powerRZ 2 e)%R
  | _ => 0%R
  end.

(** A list of float64 rows as a [matrix]. *)
Definition to_matrix (l : list (list float)) : matrix :=
  {| shape0 := length l;
     shape1 := length (hd [] l);
     rows := map (map to_R) l |}.

(** [z + c] for a float64 array [z] and a column [c] with one entry for
    each row of [z]: each sum is a float64 addition. *)
Definition add_col (z : list (list float)) (c : list float) : list (list float) :=
  map (fun rc => map (fun x => add x (snd rc)) (fst rc)) (combine z c).

Definition f0 : float := 0%float.
Definition f1 : float := 1%float.
Definition f1e17 : float := 1e17%float.

(** One row of two scores, and a shift of that row. *)
Definition z01 : list (list float) := [[f0; f1]].
Definition c17 : list float := [f1e17].

End F64.

(** * Properties *)

(** ** Matrices *)

Lemma wf_length (M : matrix) : wf M -> length (rows M) = shape0 M.
Proof.
  unfold wf, wfb. intros H. apply andb_prop in H. destruct H as [H _].
  now apply Nat.eqb_eq.
Qed.

Lemma wf_row_length (M : matrix) (i : nat) :
  wf M -> i < shape0 M -> length (nth i (rows M) []) = shape1 M.
Proof.
  intros H Hi. pose proof (wf_length H) as Hl.
  unfold wf, wfb in H. apply andb_prop in H. destruct H as [_ H].
  rewrite forallb_forall in H. apply Nat.eqb_eq, H, nth_In. lia.
Qed.

Lemma wf_intro (M : matrix) :
  length (rows M) = shape0 M ->
  (forall r, In r (rows M) -> length r = shape1 M) ->
  wf M.
Proof.
  intros Hl Hr. unfold wf, wfb. apply andb_true_intro. split.
  - now apply Nat.eqb_eq.
  - apply forallb_forall. intros r Hin. apply Nat.eqb_eq. auto.
Qed.

Lemma nth_map_seq (A : Type) (f : nat -> A) (n i : nat) (d : A) :
  i < n -> nth i (map f (seq 0 n)) d = f i.
Proof.
  intros Hi. rewrite (nth_indep _ d (f 0)) by now rewrite length_map, length_seq.
  rewrite map_nth, seq_nth by assumption. reflexivity.
Qed.

Lemma get_tabulate (r c : nat) (f : nat -> nat -> R) (i j : nat) :
  i < r -> j < c -> get (tabulate r c f) i j = f i j.
Proof.
  intros Hi Hj. unfold get, tabulate. cbn [rows].
  rewrite (nth_map_seq (fun i => map (fun j => f i j) (seq 0 c)) [] Hi).
  now apply nth_map_seq.
Qed.

Lemma tabulate_ext (r c : nat) (f g : nat -> nat -> R) :
  (forall i j, i < r -> j < c -> f i j = g i j) ->
  tabulate r c f = tabulate r c g.
Proof.
  intros H. unfold tabulate. f_equal.
  apply map_ext_in. intros i Hi. apply in_seq in Hi.
  apply map_ext_in. intros j Hj. apply in_seq in Hj.
  apply H; lia.
Qed.

Lemma wf_tabulate (r c : nat) (f : nat -> nat -> R) : wf (tabulate r c f).
Proof.
  apply wf_intro; cbn [rows shape0 shape1 tabulate].
  - now rewrite length_map, length_seq.
  - intros x Hx. apply in_map_iff in Hx. destruct Hx as [i [<- _]].
    now rewrite length_map, length_seq.
Qed.

Lemma list_eq_map_seq (A : Type) (l : list A) (d : A) :
  l = map (fun i => nth i l d) (seq 0 (length l)).
Proof.
  apply nth_ext with (d := d) (d' := d).
  - now rewrite length_map, length_seq.
  - intros n Hn. now rewrite nth_map_seq.
Qed.

(** A well-formed matrix is the table of its entries. *)
Lemma tabulate_get (M : matrix) :
  wf M -> tabulate (shape0 M) (shape1 M) (get M) = M.
Proof.
  intros H. destruct M as [r c l]. unfold tabulate, get. cbn [rows shape0 shape1] in *.
  f_equal. pose proof (wf_length H) as Hl. cbn [rows shape0] in Hl. subst r.
  rewrite (list_eq_map_seq l []) at 2.
  apply map_ext_in. intros i Hi. apply in_seq in Hi.
  pose proof (@wf_row_length _ i H) as Hr. cbn [rows shape0 shape1] in Hr.
  rewrite <- Hr by lia. symmetry. apply list_eq_map_seq.
Qed.

(** ** Batching *)

Section Batching.

Variable rng : Type.
Variable rng_shuffle : rng -> list nat -> list nat * rng.
Variable clock : nat -> R.

(** [blas.random.shuffle] rearranges the array it is given. *)
Hypothesis rng_shuffle_perm :
  forall g l, Permutation l (fst (rng_shuffle g l)).

Lemma shuffle_returns (X Y : matrix) (w : world rng) :
  0 < shape0 X -> shape0 X <= shape0 Y ->
  exists sx sy w',
    shuffle rng_shuffle X Y w = Some ((sx, sy), w') /\ ticks w' = ticks w.
Proof.
  intros Hpos Hxy. unfold shuffle.
  pose proof (rng_shuffle_perm (gen w) (seq 0 (shape0 X))) as Hp.
  destruct (rng_shuffle (gen w) (seq 0 (shape0 X))) as [idxs g]. cbn [fst] in Hp.
  assert (Hin : forall i, In i idxs -> i < shape0 X).
  { intros i Hi. apply Permutation_sym in Hp.
    apply (Permutation_in _ Hp), in_seq in Hi. lia. }
  unfold take_rows.
  assert (HX : forallb (fun i => i <? shape0 X) idxs = true).
  { apply forallb_forall. intros i Hi. apply Nat.ltb_lt. auto. }
  assert (HY : forallb (fun i => i <? shape0 Y) idxs = true).
  { apply forallb_forall. intros i Hi. apply Nat.ltb_lt. apply Hin in Hi. lia. }
  destruct (Nat.eqb_spec (shape0 X) 0); [lia|].
  rewrite HX, HY. cbn. eauto.
Qed.

(** The loop appends the same batch list once per cycle: what [shuffle]
    returned is not read again. *)
Lemma batch_data_loop_returns (X Y : matrix) (b : nat) :
  0 < b -> 0 < shape0 X -> shape0 X <= shape0 Y ->
  forall n acc (w : world rng),
  exists w',
    batch_data_loop rng_shuffle X Y b n acc w
    = Some (acc ++ repeat (cycle_batches X Y b) n, w').
Proof.
  intros Hb Hpos Hxy n.
  induction n as [|c IH]; intros acc w; cbn [batch_data_loop repeat].
  - exists w. now rewrite app_nil_r.
  - destruct (@shuffle_returns X Y w Hpos Hxy) as (sx & sy & w' & -> & _).
    cbn [bind_opt].
    destruct (Nat.eqb_spec b 0) as [->|_]; [lia|].
    destruct (IH (acc ++ [cycle_batches X Y b]) w') as [w'' ->].
    exists w''. now rewrite <- app_assoc.
Qed.

Lemma batch_data_returns (X Y : matrix) (b cycles : nat) (w : world rng) :
  0 < b -> 0 < shape0 X -> shape0 X <= shape0 Y ->
  exists w',
    batch_data rng_shuffle clock X Y b cycles w
    = Some (repeat (cycle_batches X Y b) cycles, w').
Proof.
  intros Hb Hpos Hxy. unfold batch_data. cbn [time_time].
  destruct (@batch_data_loop_returns X Y b Hb Hpos Hxy cycles []
              {| gen := gen w; ticks := S (ticks w) |}) as [w' ->].
  cbn. eauto.
Qed.

(** Whatever the generator does, a call that returns has appended the
    same slices of [X] and [Y] once per cycle. *)
Lemma batch_data_loop_inv (X Y : matrix) (b : nat) :
  forall n acc (w : world rng) L w',
    batch_data_loop rng_shuffle X Y b n acc w = Some (L, w') ->
    L = acc ++ repeat (cycle_batches X Y b) n.
Proof.
  intros n. induction n as [|n IH]; intros acc w L w' H; cbn [batch_data_loop repeat] in H.
  - inversion H. now rewrite app_nil_r.
  - destruct (shuffle rng_shuffle X Y w) as [[[sx sy] w1]|]; cbn [bind_opt] in H;
      [|discriminate].
    destruct (b =? 0); [discriminate|].
    apply IH in H. rewrite H, <- app_assoc. reflexivity.
Qed.

Lemma batch_data_inv (X Y : matrix) (b n : nat) (w : world rng)
    (L : list (list batch)) (w' : world rng) :
  batch_data rng_shuffle clock X Y b n w = Some (L, w') ->
  L = repeat (cycle_batches X Y b) n.
Proof.
  unfold batch_data. cbn [time_time]. intros H.
  match type of H with
  | bind_opt ?c _ = _ => destruct c as [[L1 w1]|] eqn:E; cbn [bind_opt] in H; [|discriminate]
  end.
  inversion H; subst. now apply batch_data_loop_inv in E.
Qed.

(** C9: every call of [batch_data] on a dataset with at least one row
    (as many label rows as feature rows) and a positive batch size returns
    one batch list per cycle, and any two of them are equal, batch for
    batch: each is the list of slices of the unshuffled [X] and [Y].  (On
    a dataset without rows [shuffle] raises.) *)
Theorem batch_data_cycles_identical (X Y : matrix) (b cycles : nat) (w : world rng) :
  0 < b -> 0 < shape0 X -> shape0 X = shape0 Y ->
  exists train_batches w',
    batch_data rng_shuffle clock X Y b cycles w = Some (train_batches, w') /\
    length train_batches = cycles /\
    forall i j, i < cycles -> j < cycles ->
      nth_error train_batches i = Some (cycle_batches X Y b) /\
      nth_error train_batches j = nth_error train_batches i.
Proof.
  intros Hb Hpos Hxy.
  destruct (@batch_data_returns X Y b cycles w Hb Hpos) as [w' Hr]; [lia|].
  exists (repeat (cycle_batches X Y b) cycles), w'.
  split; [exact Hr|]. split; [apply repeat_length|].
  assert (Hnth : forall i, i < cycles ->
            nth_error (repeat (cycle_batches X Y b) cycles) i
            = Some (cycle_batches X Y b)).
  { intros i Hi. apply nth_error_repeat. exact Hi. }
  intros i j Hi Hj. now rewrite !Hnth.
Qed.

End Batching.

(** *** What one cycle's batch list contains *)

Lemma firstn_add (A : Type) (a b : nat) (l : list A) :
  firstn (a + b) l = firstn a l ++ firstn b (skipn a l).
Proof.
  revert l. induction a as [|a IH]; intros l; [reflexivity|].
  destruct l as [|x l]; cbn.
  - now rewrite firstn_nil.
  - now rewrite IH.
Qed.

(** The slices [l[i*b : (i+1)*b]] for [i < k], one after the other, are
    the first [k*b] elements of [l]. *)
Lemma concat_slices (A : Type) (l : list A) (b k : nat) :
  concat (map (fun i => firstn ((i + 1) * b - i * b) (skipn (i * b) l)) (seq 0 k))
  = firstn (k * b) l.
Proof.
  induction k as [|k IH]; [reflexivity|].
  rewrite seq_S, map_app, concat_app, IH. cbn [map concat Nat.add].
  rewrite app_nil_r.
  replace ((k + 1) * b - k * b) with b by lia.
  replace (S k * b) with (k * b + b) by lia.
  now rewrite firstn_add.
Qed.

Lemma cycle_batches_length (X Y : matrix) (b : nat) :
  length (cycle_batches X Y b) = (shape0 X / b - 1) + 1.
Proof.
  unfold cycle_batches. now rewrite length_app, length_map, length_seq.
Qed.

(** Batch [i] for [i < num_batches - 1]: rows [i*b] to [(i+1)*b], so [b]
    of them. *)
Lemma cycle_batches_regular (X Y : matrix) (b i : nat) :
  wf X -> 0 < b -> i < shape0 X / b - 1 ->
  nth_error (cycle_batches X Y b) i
  = Some (slice X (i * b) ((i + 1) * b), slice Y (i * b) ((i + 1) * b)) /\
  shape0 (slice X (i * b) ((i + 1) * b)) = b.
Proof.
  intros HX Hb Hi. split.
  - unfold cycle_batches. rewrite nth_error_app1 by now rewrite length_map, length_seq.
    rewrite nth_error_map, nth_error_nth' with (d := 0) by now rewrite length_seq.
    rewrite seq_nth by assumption. reflexivity.
  - unfold slice. cbn [shape0]. rewrite length_firstn, length_skipn, (wf_length HX).
    pose proof (Nat.div_mod_eq (shape0 X) b) as Hd.
    assert (b * (i + 2) <= b * (shape0 X / b)) by (apply Nat.mul_le_mono_l; lia).
    nia.
Qed.

(** The last batch starts at row [num_batches * b]: it holds the
    [N mod b] rows left over by the division, fewer than [b]. *)
Lemma cycle_batches_last (X Y : matrix) (b : nat) :
  wf X -> 0 < b ->
  nth_error (cycle_batches X Y b) (shape0 X / b - 1)
  = Some (slice_from X (shape0 X / b * b), slice_from Y (shape0 X / b * b)) /\
  shape0 (slice_from X (shape0 X / b * b)) = shape0 X mod b.
Proof.
  intros HX Hb. split.
  - unfold cycle_batches.
    rewrite nth_error_app2 by (rewrite length_map, length_seq; lia).
    rewrite length_map, length_seq, Nat.sub_diag. reflexivity.
  - unfold slice_from. cbn [shape0]. rewrite length_skipn, (wf_length HX).
    pose proof (Nat.div_mod_eq (shape0 X) b). lia.
Qed.

(** One cycle emits rows [0 .. (num_batches-1)*b) and rows
    [num_batches*b .. N) of [X]: the [b] rows between them are in no batch. *)
Lemma cycle_batches_emitted (X Y : matrix) (b : nat) :
  emitted_x (cycle_batches X Y b)
  = firstn ((shape0 X / b - 1) * b) (rows X) ++ skipn (shape0 X / b * b) (rows X).
Proof.
  unfold emitted_x, cycle_batches.
  rewrite map_app, concat_app, map_map. cbn [map concat fst slice slice_from rows].
  rewrite app_nil_r. f_equal. apply concat_slices.
Qed.

(** The label rows are cut at the same places, so the rows that are
    emitted keep their labels. *)
Lemma cycle_batches_emitted_y (X Y : matrix) (b : nat) :
  emitted_y (cycle_batches X Y b)
  = firstn ((shape0 X / b - 1) * b) (rows Y) ++ skipn (shape0 X / b * b) (rows Y).
Proof.
  unfold emitted_y, cycle_batches.
  rewrite map_app, concat_app, map_map. cbn [map concat snd slice slice_from rows].
  rewrite app_nil_r. f_equal. apply concat_slices.
Qed.

Lemma total_rows_emitted (bs : list (matrix * matrix)) :
  Forall (fun bt => wf (fst bt)) bs -> total_rows bs = length (emitted_x bs).
Proof.
  unfold emitted_x. induction 1 as [|bt bs Hw _ IH]; [reflexivity|].
  cbn [total_rows fold_right map concat]. rewrite length_app, (wf_length Hw).
  f_equal. exact IH.
Qed.

(** With at least [b] rows in the dataset, one cycle's batches hold
    [N - b] rows in all. *)
Lemma cycle_batches_total (X Y : matrix) (b : nat) :
  wf X -> 0 < b -> b <= shape0 X ->
  length (emitted_x (cycle_batches X Y b)) = shape0 X - b.
Proof.
  intros HX Hb Hle. rewrite cycle_batches_emitted, length_app, length_firstn, length_skipn.
  rewrite (wf_length HX).
  pose proof (Nat.div_mod_eq (shape0 X) b) as Hd.
  pose proof (Nat.mod_upper_bound (shape0 X) b) as Hm.
  assert (1 <= shape0 X / b) by (apply Nat.div_str_pos; lia).
  nia.
Qed.

(** ** Sums and row maxima *)

Lemma big_sum_ext (n : nat) (f g : nat -> R) :
  (forall k, k < n -> f k = g k) -> big_sum n f = big_sum n g.
Proof.
  induction n as [|n IH]; intros H; cbn; [reflexivity|].
  rewrite IH, H by auto. reflexivity.
Qed.

Lemma big_sum_zero (n : nat) (f : nat -> R) :
  (forall k, k < n -> f k = 0%R) -> big_sum n f = 0%R.
Proof.
  induction n as [|n IH]; intros H; cbn; [reflexivity|].
  rewrite IH, H by auto. lra.
Qed.

Lemma big_sum_div (n : nat) (f : nat -> R) (s : R) :
  big_sum n (fun k => (f k / s)%R) = (big_sum n f / s)%R.
Proof.
  induction n as [|n IH]; cbn; [unfold Rdiv; now rewrite Rmult_0_l|].
  rewrite IH. unfold Rdiv. now rewrite Rmult_plus_distr_r.
Qed.

Lemma big_sum_nonneg (n : nat) (f : nat -> R) :
  (forall k, k < n -> (0 <= f k)%R) -> (0 <= big_sum n f)%R.
Proof.
  induction n as [|n IH]; intros H; cbn; [lra|].
  specialize (IH (fun k Hk => H k (Nat.lt_lt_succ_r _ _ Hk))).
  specialize (H n (Nat.lt_succ_diag_r n)). lra.
Qed.

Lemma big_sum_term_le (n : nat) (f : nat -> R) (j : nat) :
  (forall k, k < n -> (0 <= f k)%R) -> j < n -> (f j <= big_sum n f)%R.
Proof.
  induction n as [|n IH]; intros H Hj; [lia|]. cbn.
  assert (Hn : (0 <= f n)%R) by (apply H; lia).
  assert (Hs : (0 <= big_sum n f)%R) by (apply big_sum_nonneg; intros; apply H; lia).
  destruct (Nat.eq_dec j n) as [->|Hne]; [lra|].
  assert (f j <= big_sum n f)%R by (apply IH; [intros; apply H|]; lia).
  lra.
Qed.

Lemma big_sum_pos (n : nat) (f : nat -> R) :
  0 < n -> (forall k, k < n -> (0 < f k)%R) -> (0 < big_sum n f)%R.
Proof.
  intros Hn H.
  assert (f 0%nat <= big_sum n f)%R.
  { apply big_sum_term_le; [|exact Hn]. intros k Hk. apply Rlt_le. auto. }
  specialize (H 0 Hn). lra.
Qed.

Lemma row_sum_app (l : list R) (x : R) : row_sum (l ++ [x]) = (row_sum l + x)%R.
Proof.
  unfold row_sum. induction l as [|y l IH]; cbn; [lra|]. rewrite IH. lra.
Qed.

Lemma row_sum_map_seq (f : nat -> R) (n : nat) :
  row_sum (map f (seq 0 n)) = big_sum n f.
Proof.
  induction n as [|n IH]; [reflexivity|].
  rewrite seq_S, map_app. cbn [map]. rewrite row_sum_app, IH. reflexivity.
Qed.

Lemma row_max_ge (r : list R) (x : R) : In x r -> (x <= row_max r)%R.
Proof.
  induction r as [|y r IH]; intros Hin; [contradiction|].
  destruct r as [|y' r].
  - destruct Hin as [->|[]]. cbn. lra.
  - change (row_max (y :: y' :: r)) with (Rmax y (row_max (y' :: r))).
    destruct Hin as [->|Hin].
    + apply Rmax_l.
    + eapply Rle_trans; [apply IH, Hin|apply Rmax_r].
Qed.

Lemma row_max_in (r : list R) : r <> [] -> In (row_max r) r.
Proof.
  induction r as [|y r IH]; intros Hne; [congruence|].
  destruct r as [|y' r]; [now left|].
  change (row_max (y :: y' :: r)) with (Rmax y (row_max (y' :: r))).
  destruct (Rmax_case y (row_max (y' :: r)) (fun m => m = y \/ m = row_max (y' :: r)))
    as [E|E]; auto.
  - left. auto.
  - right. rewrite E. apply IH. discriminate.
Qed.

Lemma row_max_shift (r : list R) (d : R) :
  r <> [] -> row_max (map (fun x => (x + d)%R) r) = (row_max r + d)%R.
Proof.
  induction r as [|y r IH]; intros Hne; [congruence|].
  destruct r as [|y' r]; [reflexivity|].
  change (row_max (map (fun x => x + d) (y :: y' :: r))%R)
    with (Rmax (y + d) (row_max (map (fun x => x + d)%R (y' :: r)))).
  rewrite IH by discriminate.
  change (row_max (y :: y' :: r)) with (Rmax y (row_max (y' :: r))).
  unfold Rmax.
  destruct (Rle_dec (y + d) (row_max (y' :: r) + d));
    destruct (Rle_dec y (row_max (y' :: r))); lra.
Qed.

(** ** Broadcasting against a column *)

Lemma bidx_lt (d i : nat) : i < d -> bidx d i = i.
Proof.
  unfold bidx. intros Hi. destruct (Nat.eqb_spec d 1); lia.
Qed.

Lemma bdim_same (a : nat) : bdim a a = Some a.
Proof. unfold bdim. now rewrite Nat.eqb_refl. Qed.

Lemma bdim_one (a : nat) : bdim a 1 = Some a.
Proof.
  unfold bdim. destruct (Nat.eqb_spec a 1) as [->|_]; reflexivity.
Qed.

Lemma broadcast_col (op : R -> R -> R) (A B : matrix) :
  shape0 B = shape0 A -> shape1 B = 1 ->
  broadcast op A B
  = Some (tabulate (shape0 A) (shape1 A) (fun i j => op (get A i j) (get B i 0))).
Proof.
  intros H0 H1. unfold broadcast. rewrite H0, H1, bdim_same, bdim_one.
  f_equal. apply tabulate_ext. intros i j Hi Hj.
  now rewrite !bidx_lt by assumption.
Qed.

Lemma broadcast_same (op : R -> R -> R) (A B : matrix) :
  shape0 B = shape0 A -> shape1 B = shape1 A ->
  broadcast op A B
  = Some (tabulate (shape0 A) (shape1 A) (fun i j => op (get A i j) (get B i j))).
Proof.
  intros H0 H1. unfold broadcast. rewrite H0, H1, !bdim_same.
  f_equal. apply tabulate_ext. intros i j Hi Hj.
  now rewrite !bidx_lt by assumption.
Qed.

Lemma map_matrix_tabulate (g : R -> R) (r c : nat) (f : nat -> nat -> R) :
  map_matrix g (tabulate r c f) = tabulate r c (fun i j => g (f i j)).
Proof.
  unfold map_matrix, tabulate. cbn [shape0 shape1 rows]. f_equal.
  rewrite map_map. apply map_ext. intros i. now rewrite map_map.
Qed.

Lemma sum_axis1_tabulate (r c : nat) (f : nat -> nat -> R) :
  sum_axis1 (tabulate r c f) = map (fun i => big_sum c (f i)) (seq 0 r).
Proof.
  unfold sum_axis1, tabulate. cbn [rows]. rewrite map_map.
  apply map_ext. intros i. apply row_sum_map_seq.
Qed.

Lemma get_col (v : list R) (n i : nat) :
  i < length v ->
  get {| shape0 := n; shape1 := 1; rows := map (fun x => [x]) v |} i 0 = nth i v 0%R.
Proof.
  intros Hi. unfold get. cbn [rows].
  rewrite (nth_indep _ [] [0%R]) by now rewrite length_map.
  now rewrite (map_nth (fun x => [x])).
Qed.

Lemma row_tabulate (r c : nat) (f : nat -> nat -> R) (i : nat) :
  i < r -> nth i (rows (tabulate r c f)) [] = map (f i) (seq 0 c).
Proof.
  intros Hi. unfold tabulate. cbn [rows].
  now rewrite (nth_map_seq (fun i => map (fun j => f i j) (seq 0 c)) [] Hi).
Qed.

Lemma row_as_table (M : matrix) (i : nat) :
  wf M -> i < shape0 M -> nth i (rows M) [] = map (get M i) (seq 0 (shape1 M)).
Proof.
  intros H Hi. rewrite <- (tabulate_get H) at 1. now apply row_tabulate.
Qed.

(** ** Softmax *)

Lemma Softmax_forward_eq (self : Softmax.t) (z : matrix) :
  wf z -> 0 < shape1 z ->
  let out := tabulate (shape0 z) (shape1 z) (softmax_entry z) in
  Softmax.forward self z
  = Some (out, {| Softmax.input := Some z; Softmax.output := Some out |}).
Proof.
  intros Hz Hc out. unfold Softmax.forward, max_axis1.
  destruct (Nat.eqb_spec (shape1 z) 0) as [E|_]; [lia|]. cbn [bind_opt].
  unfold reshape_col at 1. rewrite length_map, (wf_length Hz), Nat.eqb_refl. cbn [bind_opt].
  rewrite broadcast_col by reflexivity. cbn [bind_opt].
  rewrite map_matrix_tabulate, sum_axis1_tabulate.
  unfold reshape_col. cbn [shape0 tabulate]. rewrite length_map, length_seq, Nat.eqb_refl.
  cbn [bind_opt]. rewrite broadcast_col by reflexivity. cbn [bind_opt shape0 shape1].
  match goal with
  | |- Some (?t, _) = _ => assert (E : t = out)
  end.
  { apply tabulate_ext. intros i j Hi Hj. unfold softmax_entry.
    assert (Hm : forall i0, i0 < shape0 z ->
              get {| shape0 := shape0 z; shape1 := 1;
                     rows := map (fun x : R => [x]) (map row_max (rows z)) |} i0 0
              = row_max (nth i0 (rows z) [])).
    { intros i0 Hi0. rewrite get_col by now rewrite length_map, (wf_length Hz).
      rewrite (nth_indep _ 0%R (row_max [])) by now rewrite length_map, (wf_length Hz).
      apply map_nth. }
    rewrite get_tabulate, Hm by assumption.
    rewrite get_col by now rewrite length_map, length_seq.
    rewrite nth_map_seq by assumption.
    f_equal. apply big_sum_ext. intros k _. now rewrite Hm. }
  rewrite E. reflexivity.
Qed.

Lemma softmax_entry_sum_pos (z : matrix) (i : nat) (m : R) :
  0 < shape1 z ->
  (0 < big_sum (shape1 z) (fun k => exp (get z i k - m)))%R.
Proof.
  intros Hc. apply big_sum_pos; [exact Hc|]. intros k _. apply exp_pos.
Qed.

(** A softmax entry is a share of a positive total. *)
Lemma softmax_entry_bounds (z : matrix) (i j : nat) :
  j < shape1 z -> (0 <= softmax_entry z i j <= 1)%R.
Proof.
  intros Hj. unfold softmax_entry.
  set (m := row_max (nth i (rows z) [])).
  assert (Hs : (0 < big_sum (shape1 z) (fun k => exp (get z i k - m)))%R)
    by (apply softmax_entry_sum_pos; lia).
  pose proof (exp_pos (get z i j - m)) as He.
  assert (Hle : (exp (get z i j - m)
                 <= big_sum (shape1 z) (fun k => exp (get z i k - m)))%R).
  { apply (big_sum_term_le (fun k => exp (get z i k - m))); [|exact Hj].
    intros k _. apply Rlt_le, exp_pos. }
  split.
  - apply Rlt_le, Rdiv_lt_0_compat; assumption.
  - apply Rmult_le_reg_r with (r := big_sum (shape1 z) (fun k => exp (get z i k - m)));
      [exact Hs|].
    unfold Rdiv. rewrite Rmult_assoc, Rinv_l, Rmult_1_r, Rmult_1_l by lra.
    exact Hle.
Qed.

(** The softmax entries of a row add up to 1. *)
Lemma softmax_entry_row_sum (z : matrix) (i : nat) :
  0 < shape1 z -> big_sum (shape1 z) (softmax_entry z i) = 1%R.
Proof.
  intros Hc. unfold softmax_entry.
  set (m := row_max (nth i (rows z) [])).
  pose proof (@softmax_entry_sum_pos z i m Hc) as Hs.
  rewrite (big_sum_div (shape1 z) (fun k => exp (get z i k - m))
             (big_sum (shape1 z) (fun k => exp (get z i k - m)))).
  unfold Rdiv. apply Rinv_r. lra.
Qed.

(** C5: on a matrix with at least one column, [Softmax.forward] returns a
    matrix of the same shape, whose entry [(i, j)] is
    [exp (z[i][j] - m_i)] over the sum of [exp (z[i][k] - m_i)] along row
    [i], where [m_i] is the maximum of row [i] of [z]; every entry lies in
    [[0, 1]] and every row sums to 1. *)
Theorem Softmax_forward_row_stochastic (self : Softmax.t) (z : matrix) :
  wf z -> 0 < shape1 z ->
  exists out self',
    Softmax.forward self z = Some (out, self') /\
    Softmax.output self' = Some out /\
    wf out /\ shape0 out = shape0 z /\ shape1 out = shape1 z /\
    forall i, i < shape0 z ->
      (exists m,
          In m (nth i (rows z) []) /\
          (forall j, j < shape1 z -> (get z i j <= m)%R) /\
          (forall j, j < shape1 z ->
             get out i j
             = (exp (get z i j - m)
                / big_sum (shape1 z) (fun k => exp (get z i k - m)))%R)) /\
      (forall j, j < shape1 z -> (0 <= get out i j <= 1)%R) /\
      row_sum (nth i (rows out) []) = 1%R.
Proof.
  intros Hz Hc. pose proof (Softmax_forward_eq self Hz Hc) as Hf. cbv zeta in Hf.
  eexists _, _. split; [exact Hf|]. cbn [Softmax.output].
  split; [reflexivity|]. split; [apply wf_tabulate|].
  split; [reflexivity|]. split; [reflexivity|].
  intros i Hi.
  pose proof (wf_row_length Hz Hi) as Hlen.
  set (m := row_max (nth i (rows z) [])).
  split; [|split].
  - exists m. split; [|split].
    + apply row_max_in. intros E. rewrite E in Hlen. cbn in Hlen. lia.
    + intros j Hj. apply row_max_ge. unfold get. apply nth_In. lia.
    + intros j Hj. now rewrite get_tabulate.
  - intros j Hj. rewrite get_tabulate by assumption. now apply softmax_entry_bounds.
  - rewrite row_tabulate by assumption. rewrite row_sum_map_seq.
    now apply softmax_entry_row_sum.
Qed.

(** [z + c] for a column [c]: every entry of row [i] moves by [c[i][0]]. *)
Lemma add_col_rows (z c : matrix) (i : nat) :
  wf z -> shape0 c = shape0 z -> shape1 c = 1 -> i < shape0 z ->
  nth i (rows (tabulate (shape0 z) (shape1 z)
                         (fun i j => (get z i j + get c i 0)%R))) []
  = map (fun x => (x + get c i 0)%R) (nth i (rows z) []).
Proof.
  intros Hz H0 H1 Hi. rewrite row_tabulate by assumption.
  rewrite (row_as_table Hz Hi), map_map. reflexivity.
Qed.

(** C10: when every entry of the shifted matrix is the exact sum
    [z[i][j] + c[i]] (a column vector [c] of one constant for each row,
    broadcast along the rows, and no sum rounded), [Softmax.forward]
    returns for it what it returns for [z].  With exact sums the
    differences [z - max] that the code exponentiates are the same
    numbers in both runs, so that float64 computes the same output too.
    [Softmax_forward_shift_rounded] below shows a rounded sum changing
    the output. *)
Theorem Softmax_forward_shift_invariant (s1 s2 : Softmax.t) (z c : matrix) :
  wf z -> wf c -> shape0 c = shape0 z -> shape1 c = 1 ->
  exists zc,
    broadcast Rplus z c = Some zc /\
    option_map fst (Softmax.forward s1 zc) = option_map fst (Softmax.forward s2 z).
Proof.
  intros Hz Hcw H0 H1. rewrite (broadcast_col Rplus z c H0 H1).
  eexists. split; [reflexivity|].
  set (zc := tabulate (shape0 z) (shape1 z) (fun i j => (get z i j + get c i 0)%R)).
  destruct (Nat.eq_dec (shape1 z) 0) as [E|Hne].
  - unfold Softmax.forward, max_axis1. cbn [shape1 zc tabulate]. rewrite E. reflexivity.
  - assert (Hc : 0 < shape1 z) by lia.
    rewrite (Softmax_forward_eq s2 Hz Hc).
    rewrite (@Softmax_forward_eq s1 zc (wf_tabulate _ _ _) Hc). cbn [option_map fst].
    f_equal. cbn [shape0 shape1 zc tabulate]. apply tabulate_ext. intros i j Hi Hj.
    unfold softmax_entry. cbn [shape1 zc tabulate].
    fold zc. unfold zc at 2 4. rewrite (@add_col_rows z c i Hz H0 H1 Hi).
    rewrite row_max_shift.
    2:{ intros E. pose proof (wf_row_length Hz Hi) as Hl. rewrite E in Hl. cbn in Hl. lia. }
    unfold zc. rewrite get_tabulate by assumption.
    f_equal; [f_equal; lra|].
    apply big_sum_ext. intros k Hk. rewrite get_tabulate by assumption. f_equal. lra.
Qed.

(** *** A shift that float64 rounds away *)

Lemma softmax_entry_pair (a b : R) :
  softmax_entry {| shape0 := 1; shape1 := 2; rows := [[a; b]] |} 0 0
  = (exp (a - Rmax a b) / (exp (a - Rmax a b) + exp (b - Rmax a b)))%R.
Proof.
  unfold softmax_entry, get. cbn [shape1 rows nth row_max big_sum]. f_equal. ring.
Qed.

Lemma softmax_pair_tie (a : R) :
  softmax_entry {| shape0 := 1; shape1 := 2; rows := [[a; a]] |} 0 0 = (1 / 2)%R.
Proof.
  rewrite softmax_entry_pair. unfold Rmax. destruct (Rle_dec a a); [|lra].
  replace (a - a)%R with 0%R by ring. rewrite exp_0. lra.
Qed.

Lemma softmax_pair_lower (a b : R) :
  (a < b)%R ->
  (softmax_entry {| shape0 := 1; shape1 := 2; rows := [[a; b]] |} 0 0 < 1 / 2)%R.
Proof.
  intros Hab. rewrite softmax_entry_pair. rewrite Rmax_right by lra.
  replace (b - b)%R with 0%R by ring. rewrite exp_0.
  assert (H1 : (exp (a - b) < 1)%R).
  { rewrite <- exp_0. apply exp_increasing. lra. }
  pose proof (exp_pos (a - b)) as H0.
  apply Rmult_lt_reg_r with (exp (a - b) + 1)%R; [lra|].
  unfold Rdiv. rewrite Rmult_assoc, Rinv_l by lra. lra.
Qed.

Lemma F64_to_R_f0 : F64.to_R F64.f0 = 0%R.
Proof.
  unfold F64.to_R.
  replace (FloatOps.Prim2SF F64.f0) with (SpecFloat.S754_zero false)
    by (vm_compute; reflexivity).
  reflexivity.
Qed.

Lemma F64_to_R_f1_pos : (0 < F64.to_R F64.f1)%R.
Proof.
  unfold F64.to_R.
  replace (FloatOps.Prim2SF F64.f1)
    with (SpecFloat.S754_finite false 4503599627370496 (-52))
    by (vm_compute; reflexivity).
  rewrite Rmult_1_l. apply Rmult_lt_0_compat.
  - apply IZR_lt. reflexivity.
  - apply powerRZ_lt. lra.
Qed.

(** In float64 [0 + 1e17] and [1 + 1e17] are the same number. *)
Lemma F64_shift_absorbs : F64.add_col F64.z01 F64.c17 = [[F64.f1e17; F64.f1e17]].
Proof. vm_compute. reflexivity. Qed.

(** C10, as stated for every [z] and every [c], fails on the program:
    for the float64 row [z = [[0, 1]]] and the shift [c = [[1e17]]] the
    array [z + c] is [[1e17, 1e17]], and [Softmax.forward] gives its two
    columns the probability 1/2 each, while it gives the first column of
    [z] less than 1/2. *)
Example Softmax_forward_shift_rounded :
  F64.add_col F64.z01 F64.c17 = [[F64.f1e17; F64.f1e17]] /\
  exists out out' s s',
    Softmax.forward fresh_softmax (F64.to_matrix F64.z01) = Some (out, s) /\
    Softmax.forward fresh_softmax (F64.to_matrix (F64.add_col F64.z01 F64.c17))
    = Some (out', s') /\
    (get out 0 0 < 1 / 2)%R /\ get out' 0 0 = (1 / 2)%R /\ out' <> out.
Proof.
  split; [exact F64_shift_absorbs|].
  rewrite F64_shift_absorbs.
  change (F64.to_matrix F64.z01)
    with {| shape0 := 1; shape1 := 2; rows := [[F64.to_R F64.f0; F64.to_R F64.f1]] |}.
  change (F64.to_matrix [[F64.f1e17; F64.f1e17]])
    with {| shape0 := 1; shape1 := 2;
            rows := [[F64.to_R F64.f1e17; F64.to_R F64.f1e17]] |}.
  set (a := F64.to_R F64.f0). set (b := F64.to_R F64.f1). set (t := F64.to_R F64.f1e17).
  assert (Hab : (a < b)%R).
  { unfold a, b. rewrite F64_to_R_f0. exact F64_to_R_f1_pos. }
  clearbody a b t.
  rewrite (@Softmax_forward_eq fresh_softmax
             {| shape0 := 1; shape1 := 2; rows := [[a; b]] |})
    by (first [reflexivity|cbn; lia]).
  rewrite (@Softmax_forward_eq fresh_softmax
             {| shape0 := 1; shape1 := 2; rows := [[t; t]] |})
    by (first [reflexivity|cbn; lia]).
  cbn [shape0 shape1].
  eexists _, _, _, _. split; [reflexivity|]. split; [reflexivity|].
  rewrite !get_tabulate by lia.
  pose proof (softmax_pair_lower Hab) as Hlo. pose proof (softmax_pair_tie t) as Htie.
  split; [exact Hlo|]. split; [exact Htie|].
  intros E.
  assert (E0 : get (tabulate 1 2 (softmax_entry
                      {| shape0 := 1; shape1 := 2; rows := [[t; t]] |})) 0 0
               = get (tabulate 1 2 (softmax_entry
                      {| shape0 := 1; shape1 := 2; rows := [[a; b]] |})) 0 0)
    by now rewrite E.
  rewrite !get_tabulate in E0 by lia. lra.
Qed.

(** ** Dense *)

Lemma get_transpose (A : matrix) (i j : nat) :
  i < shape1 A -> j < shape0 A -> get (transpose A) i j = get A j i.
Proof. intros Hi Hj. unfold transpose. now rewrite get_tabulate. Qed.

Lemma transpose_tabulate (r c : nat) (f : nat -> nat -> R) :
  transpose (tabulate r c f) = tabulate c r (fun i j => f j i).
Proof.
  unfold transpose. cbn [shape0 shape1 tabulate].
  apply tabulate_ext. intros i j Hi Hj. now apply get_tabulate.
Qed.

Lemma dot_eq (A B : matrix) :
  shape1 A = shape0 B ->
  dot A B
  = Some (tabulate (shape0 A) (shape1 B)
            (fun i j => big_sum (shape1 A) (fun k => (get A i k * get B k j)%R))).
Proof. intros H. unfold dot. now rewrite H, Nat.eqb_refl. Qed.

Lemma Dense_forward_inv (self : Dense.t) (x y : matrix) (self1 : Dense.t) :
  Dense.forward self x = Some (y, self1) ->
  shape1 x = shape0 (Dense.weights self) /\
  self1 = {| Dense.weights := Dense.weights self;
             Dense.input := Some x; Dense.output := Some y |}.
Proof.
  unfold Dense.forward, dot. intros H.
  destruct (Nat.eqb_spec (shape1 x) (shape0 (Dense.weights self))) as [E|_];
    cbn [bind_opt] in H; [|discriminate].
  inversion H; subst. auto.
Qed.

(** Entry by entry, what [Dense.backward] returns and stores after a
    [forward] on [x], for a gradient with one row per row of [x] and one
    column per column of the weights. *)
Lemma Dense_backward_eq (self : Dense.t) (x y : matrix) (self1 : Dense.t)
    (grad : matrix) (rate : R) :
  Dense.forward self x = Some (y, self1) ->
  shape0 grad = shape0 x -> shape1 grad = shape1 (Dense.weights self) ->
  let W := Dense.weights self in
  Dense.backward self1 grad rate
  = Some (tabulate (shape0 grad) (shape0 W)
            (fun r i => big_sum (shape1 grad) (fun j => (get grad r j * get W i j)%R)),
          {| Dense.weights :=
               tabulate (shape0 W) (shape1 W)
                 (fun i j =>
                    (get W i j
                     - big_sum (shape0 grad) (fun r => (get grad r j * get x r i)%R)
                       * rate)%R);
             Dense.input := Some x;
             Dense.output := Some y |}).
Proof.
  intros Hf H0 H1 W. apply Dense_forward_inv in Hf. destruct Hf as [Hx ->].
  fold W in Hx, H1. unfold Dense.backward. cbn [Dense.input Dense.weights Dense.output bind_opt].
  fold W. rewrite (dot_eq (transpose grad) x) by exact H0. cbn [bind_opt].
  rewrite (dot_eq grad (transpose W)) by exact H1. cbn [bind_opt].
  change (shape0 (transpose grad)) with (shape1 grad).
  change (shape1 (transpose grad)) with (shape0 grad).
  change (shape1 (transpose W)) with (shape0 W).
  unfold isub. rewrite transpose_tabulate, map_matrix_tabulate.
  rewrite broadcast_same by (cbn [shape0 shape1 tabulate]; congruence).
  cbn [bind_opt shape0 shape1 tabulate]. rewrite !Nat.eqb_refl. cbn [andb bind_opt].
  f_equal. f_equal.
  - apply tabulate_ext. intros r i Hr Hi.
    apply big_sum_ext. intros j Hj.
    rewrite get_transpose by lia. reflexivity.
  - f_equal. apply tabulate_ext. intros i j Hi Hj.
    rewrite get_tabulate by lia.
    f_equal. f_equal. apply big_sum_ext. intros r Hr.
    rewrite get_transpose by lia. reflexivity.
Qed.

(** C6: after [Dense.forward] has cached [x], [Dense.backward grad lr]
    returns [grad . W^T] for the weights [W] it found, and leaves the layer
    with weights [W - ((grad^T . x)^T) * lr] and its other attributes as
    they were.  Entry by entry: the new weight [(i, j)] is
    [W[i][j] - (sum_r grad[r][j] * x[r][i]) * lr], and entry [(r, i)] of the
    returned gradient is [sum_j grad[r][j] * W[i][j]]. *)
Theorem Dense_backward_update (self : Dense.t) (x y : matrix) (self1 : Dense.t)
    (grad : matrix) (rate : R) :
  Dense.forward self x = Some (y, self1) ->
  shape0 grad = shape0 x -> shape1 grad = shape1 (Dense.weights self) ->
  let W := Dense.weights self in
  exists dW0 dZ self2,
    dot (transpose grad) x = Some dW0 /\
    dot grad (transpose W) = Some dZ /\
    Dense.backward self1 grad rate = Some (dZ, self2) /\
    Dense.weights self2
    = tabulate (shape0 W) (shape1 W)
        (fun i j => (get W i j - get (transpose dW0) i j * rate)%R) /\
    Dense.input self2 = Dense.input self1 /\
    Dense.output self2 = Dense.output self1 /\
    (forall i j, i < shape0 W -> j < shape1 W ->
       get (Dense.weights self2) i j
       = (get W i j
          - big_sum (shape0 x) (fun r => (get grad r j * get x r i)%R) * rate)%R) /\
    (forall r i, r < shape0 x -> i < shape0 W ->
       get dZ r i = big_sum (shape1 W) (fun j => (get grad r j * get W i j)%R)).
Proof.
  intros Hf H0 H1 W. pose proof (@Dense_backward_eq self x y self1 grad rate Hf H0 H1) as Hb. cbv zeta in Hb.
  fold W in Hb, H1.
  destruct (@Dense_forward_inv self x y self1 Hf) as [Hx Hs]. fold W in Hx.
  eexists _, _, _.
  split; [apply dot_eq; exact H0|].
  split; [apply dot_eq; exact H1|].
  split.
  { rewrite Hb. f_equal. f_equal.
    apply tabulate_ext. intros r i Hr Hi. apply big_sum_ext. intros j Hj.
    change (shape1 (transpose W)) with (shape0 W) in Hi.
    rewrite get_transpose by lia. reflexivity. }
  cbn [Dense.weights Dense.input Dense.output].
  assert (Hd : forall i j, i < shape0 W -> j < shape1 W ->
             get (transpose
                    (tabulate (shape0 (transpose grad)) (shape1 x)
                       (fun i0 j0 => big_sum (shape1 (transpose grad))
                          (fun k => (get (transpose grad) i0 k * get x k j0)%R)))) i j
             = big_sum (shape0 grad) (fun r => (get grad r j * get x r i)%R)).
  { intros i j Hi Hj. rewrite transpose_tabulate.
    change (shape0 (transpose grad)) with (shape1 grad).
    change (shape1 (transpose grad)) with (shape0 grad).
    rewrite get_tabulate by lia. apply big_sum_ext. intros r Hr.
    rewrite get_transpose by lia. reflexivity. }
  split.
  { apply tabulate_ext. intros i j Hi Hj. now rewrite Hd. }
  subst self1. cbn [Dense.input Dense.output].
  split; [reflexivity|]. split; [reflexivity|]. split.
  - intros i j Hi Hj. rewrite get_tabulate by assumption. now rewrite H0.
  - intros r i Hr Hi. change (shape1 (transpose W)) with (shape0 W).
    rewrite get_tabulate by lia. rewrite H1.
    apply big_sum_ext. intros j Hj. rewrite get_transpose by lia. reflexivity.
Qed.

(** C7: [Dense.forward] on any input the layer accepts, followed by
    [Dense.backward] with the all-zero gradient of the shape of the output,
    leaves the weight matrix equal to what it was, whatever the learning
    rate. *)
Theorem Dense_zero_gradient_keeps_weights (self : Dense.t) (x : matrix) (rate : R) :
  wf (Dense.weights self) ->
  shape1 x = shape0 (Dense.weights self) ->
  exists y self1 dZ self2,
    Dense.forward self x = Some (y, self1) /\
    shape0 y = shape0 x /\ shape1 y = shape1 (Dense.weights self) /\
    Dense.backward self1 (zeros (shape0 y) (shape1 y)) rate = Some (dZ, self2) /\
    Dense.weights self2 = Dense.weights self.
Proof.
  intros HW Hx.
  assert (Hf : Dense.forward self x
               = Some (tabulate (shape0 x) (shape1 (Dense.weights self))
                         (fun i j => big_sum (shape1 x)
                            (fun k => (get x i k * get (Dense.weights self) k j)%R)),
                       {| Dense.weights := Dense.weights self;
                          Dense.input := Some x;
                          Dense.output :=
                            Some (tabulate (shape0 x) (shape1 (Dense.weights self))
                                    (fun i j => big_sum (shape1 x)
                                       (fun k => (get x i k
                                                  * get (Dense.weights self) k j)%R))) |})).
  { unfold Dense.forward. now rewrite dot_eq. }
  eexists _, _, _, _. split; [exact Hf|].
  split; [reflexivity|]. split; [reflexivity|].
  cbn [shape0 shape1 tabulate].
  split.
  - apply (@Dense_backward_eq self x _ _ _ rate Hf); reflexivity.
  - cbn [Dense.weights]. etransitivity; [|exact (tabulate_get HW)].
    apply tabulate_ext. intros i j Hi Hj.
    rewrite big_sum_zero; [lra|].
    intros r Hr. unfold zeros. cbn [shape0 tabulate] in Hr.
    rewrite get_tabulate by assumption. lra.
Qed.

(** ** Evaluation *)

Lemma Layer_forward_reset (l : Layer) (x : matrix) :
  Layer_forward (Layer_reset l) x = Layer_forward l x.
Proof. destruct l as [d|s|s]; reflexivity. Qed.

Lemma Layer_forward_keeps (l l' : Layer) (x y : matrix) :
  Layer_forward l x = Some (y, l') ->
  Layer_reset l' = Layer_reset l /\ Layer_weights l' = Layer_weights l.
Proof.
  destruct l as [d|s|s]; cbn [Layer_forward].
  - unfold Dense.forward. destruct (dot x (Dense.weights d)); cbn; [|discriminate].
    intros H. inversion H; subst. split; reflexivity.
  - unfold Softplus.forward. cbn. intros H. inversion H; subst. split; reflexivity.
  - destruct (Softmax.forward s x) as [[o s']|]; cbn; [|discriminate].
    intros H. inversion H; subst. split; reflexivity.
Qed.

Lemma forward_layers_reset (ls : list Layer) (x : matrix) :
  forward_layers (map Layer_reset ls) x = forward_layers ls x.
Proof.
  revert x. induction ls as [|l ls IH]; intros x; [reflexivity|].
  cbn [forward_layers map]. rewrite Layer_forward_reset.
  destruct (Layer_forward l x) as [[y l']|]; cbn [bind_opt]; [|reflexivity].
  now rewrite IH.
Qed.

Lemma forward_layers_keeps (ls ls' : list Layer) (x out : matrix) :
  forward_layers ls x = Some (out, ls') ->
  map Layer_reset ls' = map Layer_reset ls /\
  map Layer_weights ls' = map Layer_weights ls.
Proof.
  revert x ls'. induction ls as [|l ls IH]; intros x ls' H; cbn [forward_layers] in H.
  - inversion H; subst. split; reflexivity.
  - destruct (Layer_forward l x) as [[y l']|] eqn:El; cbn [bind_opt] in H; [|discriminate].
    destruct (forward_layers ls y) as [[o rest']|] eqn:Er; cbn [bind_opt] in H; [|discriminate].
    inversion H; subst. apply Layer_forward_keeps in El. apply IH in Er.
    destruct El as [E1 E2], Er as [E3 E4]. cbn [map]. split; congruence.
Qed.

(** A second forward pass reads the weights only: it returns what the
    first returned and leaves the layers as the first left them. *)
Lemma forward_layers_again (ls ls' : list Layer) (x out : matrix) :
  forward_layers ls x = Some (out, ls') ->
  forward_layers ls' x = Some (out, ls').
Proof.
  intros H. destruct (forward_layers_keeps _ _ H) as [E _].
  now rewrite <- forward_layers_reset, E, forward_layers_reset.
Qed.

(** C8: when [Net.test] returns an accuracy and a prediction matrix, the
    weight matrix of every layer is what it was before the call, and a
    second call on the network as the first left it returns the same
    accuracy and the same prediction matrix, again without a change to any
    weight matrix. *)
Theorem Net_test_repeatable (self self1 : Net) (acc : R) (output : matrix) :
  Net_test self = Some ((acc, output), self1) ->
  map Layer_weights (layers self1) = map Layer_weights (layers self) /\
  test_x self1 = test_x self /\ test_y self1 = test_y self /\
  exists self2,
    Net_test self1 = Some ((acc, output), self2) /\
    map Layer_weights (layers self2) = map Layer_weights (layers self).
Proof.
  unfold Net_test, Net_forward. intros H.
  destruct (forward_layers (layers self) (test_x self)) as [[o ls]|] eqn:Ef;
    cbn [bind_opt] in H; [|discriminate].
  destruct (argmax_axis1 o) as [p|] eqn:Ep; cbn [bind_opt] in H; [|discriminate].
  destruct (argmax_axis1 (test_y self)) as [t|] eqn:Et; cbn [bind_opt] in H; [|discriminate].
  destruct (count_eq p t) as [hits|] eqn:Eh; cbn [bind_opt] in H; [|discriminate].
  destruct (shape0 (test_x self) =? 0) eqn:E0; [discriminate|].
  inversion H; subst. clear H. cbn [layers set_layers test_x test_y].
  destruct (forward_layers_keeps _ _ Ef) as [_ Ew].
  split; [exact Ew|]. split; [reflexivity|]. split; [reflexivity|].
  exists (set_layers self ls). rewrite (forward_layers_again _ _ Ef). cbn [bind_opt].
  rewrite Ep, Et. cbn [bind_opt]. rewrite Eh. cbn [bind_opt]. rewrite E0.
  split; [reflexivity|exact Ew].
Qed.

(** ** Row-wise argmax *)

Lemma argmax_from_keeps (a : R) (r : list R) :
  (forall x, In x r -> (x <= a)%R) ->
  forall best_i i, argmax_from best_i a i r = best_i.
Proof.
  induction r as [|x r IH]; intros Hle best_i i; [reflexivity|].
  cbn [argmax_from]. destruct (Rlt_dec a x) as [Hlt|_].
  - exfalso. specialize (Hle x (or_introl eq_refl)). lra.
  - apply IH. intros y Hy. apply Hle. now right.
Qed.

(** Ties go to the first position: a row whose first entry is not
    exceeded has argmax 0. *)
Lemma row_argmax_head (a : R) (r : list R) :
  (forall x, In x r -> (x <= a)%R) -> row_argmax (a :: r) = 0.
Proof. intros H. now apply argmax_from_keeps. Qed.

Lemma row_argmax_tabulate (r c : nat) (f : nat -> nat -> R) (i : nat) :
  i < r -> 0 < c -> (forall j, j < c -> (f i j <= f i 0%nat)%R) ->
  row_argmax (nth i (rows (tabulate r c f)) []) = 0.
Proof.
  intros Hi Hc Hle. rewrite row_tabulate by assumption.
  destruct c as [|c]; [lia|]. cbn [seq map].
  apply row_argmax_head. intros x Hx. apply in_map_iff in Hx.
  destruct Hx as [j [<- Hj]]. apply in_seq in Hj. apply Hle. lia.
Qed.

(** ** The training loop *)

Lemma ge100_true (x : R) : ge100 x = true <-> (100 <= x)%R.
Proof.
  unfold ge100. destruct (Rle_dec 100 x); split; intros H;
    try reflexivity; try assumption; try discriminate; contradiction.
Qed.

Lemma ge100_false (x : R) : ge100 x = false <-> (x < 100)%R.
Proof.
  unfold ge100. destruct (Rle_dec 100 x); split; intros H;
    try reflexivity; try discriminate; lra.
Qed.

Section CyclesLoopFacts.

Variable state : Type.
Variable accs : state -> list R.
Variable body : nat -> state -> option state.

(** A completed pass appends one accuracy to the history. *)
Hypothesis body_appends :
  forall c s s', body c s = Some s' -> exists a, accs s' = accs s ++ [a].

(** The loop entered at cycle [c] with [n] passes left runs some number
    [j <= n] of them: the accuracy history grows by [j] entries, every
    accuracy recorded before the last one is below 100, anything a pass
    increments has grown by [j], and the loop with exactly [j] passes left
    ends in the same state. *)
Lemma cycles_loop_run (n : nat) :
  forall (c : nat) (s s' : state),
    cycles_loop accs body n c s = Some s' ->
    exists j ext,
      j <= n /\ length ext = j /\
      accs s' = accs s ++ ext /\
      (0 < j -> c = 0 \/ (last (accs s) 0 < 100)%R) /\
      (forall i, i + 1 < j -> (nth i ext 0 < 100)%R) /\
      (forall m : state -> nat,
         (forall c1 s1 s2, body c1 s1 = Some s2 -> m s2 = S (m s1)) ->
         m s' = m s + j) /\
      cycles_loop accs body j c s = Some s'.
Proof.
  induction n as [|n IH]; intros c s s' H; cbn [cycles_loop] in H.
  - inversion H; subst. exists 0, []. rewrite app_nil_r.
    repeat split; intros; try lia; reflexivity.
  - destruct ((0 <? c) && ge100 (last (accs s) 0%R)) eqn:Eb.
    + inversion H; subst. exists 0, []. rewrite app_nil_r.
      repeat split; intros; try lia; reflexivity.
    + destruct (body c s) as [s1|] eqn:Ec; cbn [bind_opt] in H; [|discriminate].
      destruct (@body_appends _ _ _ Ec) as (a & Ha).
      destruct (IH _ _ _ H) as (j & ext & Hj & Hl & Hacc & Hentry & Hlow & Hm & Hrun).
      exists (S j), (a :: ext).
      split; [lia|]. split; [cbn; lia|].
      split; [rewrite Hacc, Ha, <- app_assoc; reflexivity|].
      split.
      { intros _. apply andb_false_iff in Eb. destruct Eb as [Eb|Eb].
        - left. apply Nat.ltb_ge in Eb. lia.
        - right. now apply ge100_false. }
      split.
      { intros i Hi. destruct i as [|i].
        - cbn [nth]. assert (Hj0 : 0 < j) by lia.
          destruct (Hentry Hj0) as [E|E]; [lia|].
          rewrite Ha, last_last in E. exact E.
        - cbn [nth]. apply Hlow. lia. }
      split.
      { intros m Hstep. rewrite (Hm m Hstep), (Hstep _ _ _ Ec). lia. }
      cbn [cycles_loop]. rewrite Eb, Ec. cbn [bind_opt]. exact Hrun.
Qed.

(** When [j] passes have all run, a longer loop continues from where
    they ended. *)
Lemma cycles_loop_resume (j : nat) :
  forall (c : nat) (s s' : state),
    cycles_loop accs body j c s = Some s' ->
    length (accs s') = length (accs s) + j ->
    forall m, cycles_loop accs body (j + m) c s = cycles_loop accs body m (c + j) s'.
Proof.
  induction j as [|j IH]; intros c s s' H Hl m; cbn [cycles_loop] in H.
  - inversion H; subst. now rewrite Nat.add_0_r.
  - cbn [Nat.add cycles_loop].
    destruct ((0 <? c) && ge100 (last (accs s) 0%R)).
    + inversion H; subst. lia.
    + destruct (body c s) as [s1|] eqn:Ec; cbn [bind_opt] in *; [|discriminate].
      destruct (@body_appends _ _ _ Ec) as (a & Ha).
      rewrite (IH _ _ _ H).
      * f_equal. lia.
      * rewrite Hl, Ha, length_app. cbn. lia.
Qed.

End CyclesLoopFacts.

Section Training.

Variable rng : Type.
Variable rng_shuffle : rng -> list nat -> list nat * rng.
Variable clock : nat -> R.

Variable batches : list (list batch).
Variable batch_count : nat.

(** One batch, step by step: when every call in the body returns, so
    does the body, and the accuracy grows by the share of rows whose
    predicted class is the labelled one. *)
Lemma train_batch_returns (cycle b : nat) (bt : batch) (s : batch_state rng)
    (output : matrix) (net1 net2 : Net) (error : matrix) (p t : list nat) (hits : nat) :
  Net_forward (bs_net s) (fst bt) = Some (output, net1) ->
  broadcast Rminus output (snd bt) = Some error ->
  Net_backward net1 (fst bt) error = Some net2 ->
  argmax_axis1 output = Some p ->
  argmax_axis1 (snd bt) = Some t ->
  count_eq p t = Some hits ->
  shape0 (fst bt) <> 0 ->
  exists s',
    train_batch clock cycle b bt s = Some s' /\
    bs_net s' = net2 /\
    bs_acc s' = (bs_acc s + INR hits / INR (shape0 (fst bt)))%R.
Proof.
  intros Hf He Hb Hp Ht Hh Hn. unfold train_batch.
  rewrite Hf. cbn [bind_opt]. rewrite He. cbn [bind_opt]. rewrite Hb. cbn [bind_opt].
  rewrite Hp. cbn [bind_opt]. rewrite Ht. cbn [bind_opt]. rewrite Hh. cbn [bind_opt].
  destruct (Nat.eqb_spec (shape0 (fst bt)) 0) as [E|_]; [contradiction|].
  destruct ((cycle =? 0) && (b =? 13)); cbn [time_time];
    eexists; (split; [reflexivity|]); cbn [bs_net bs_acc]; split; reflexivity.
Qed.

(** A cycle over a single batch. *)
Lemma train_cycle_one_batch (cycle : nat) (bt : batch) (s : train_state rng)
    (s1 : batch_state rng) :
  nth_error batches cycle = Some [bt] ->
  train_batch clock cycle 0 bt
    {| bs_net := ts_net s; bs_cost := 0; bs_acc := 0;
       bs_cycle_start := clock (ticks (ts_world s));
       bs_train_start := ts_train_start s;
       bs_world := {| gen := gen (ts_world s); ticks := S (ticks (ts_world s)) |} |}
  = Some s1 ->
  exists s',
    train_cycle clock batches batch_count cycle s = Some s' /\
    ts_net s' = bs_net s1 /\
    ts_accs s' = ts_accs s ++ [(bs_acc s1 * 100 / INR batch_count)%R].
Proof.
  intros Hn Hb. unfold train_cycle. rewrite Hn. cbn [bind_opt time_time train_batches_from].
  rewrite Hb. cbn [bind_opt]. eexists. split; [reflexivity|]. split; reflexivity.
Qed.

(** A completed cycle appends one entry to each of the three histories. *)
Lemma train_cycle_appends (cycle : nat) (s s' : train_state rng) :
  train_cycle clock batches batch_count cycle s = Some s' ->
  exists c a t,
    ts_costs s' = ts_costs s ++ [c] /\
    ts_accs s' = ts_accs s ++ [a] /\
    ts_times s' = ts_times s ++ [t].
Proof.
  unfold train_cycle. intros H.
  destruct (nth_error batches cycle) as [cur|]; cbn [bind_opt] in H; [|discriminate].
  cbn [time_time] in H.
  match type of H with
  | bind_opt ?c _ = _ => destruct c as [bs|]; cbn [bind_opt] in H; [|discriminate]
  end.
  inversion H; subst. cbn [ts_costs ts_accs ts_times].
  eexists _, _, _. repeat split; reflexivity.
Qed.

(** The loop of [Net.train] is the early-stopping loop; its body appends
    one entry to each history. *)
Lemma train_loop_run (n c : nat) (s s' : train_state rng) :
  train_loop clock batches batch_count n c s = Some s' ->
  exists j ext,
    j <= n /\ length ext = j /\
    ts_accs s' = ts_accs s ++ ext /\
    length (ts_costs s') = length (ts_costs s) + j /\
    length (ts_times s') = length (ts_times s) + j /\
    (forall i, i + 1 < j -> (nth i ext 0 < 100)%R) /\
    train_loop clock batches batch_count j c s = Some s'.
Proof.
  unfold train_loop. intros H.
  apply cycles_loop_run in H.
  - destruct H as (j & ext & Hj & Hl & Hacc & _ & Hlow & Hm & Hrun).
    exists j, ext. repeat split; try assumption.
    + apply (Hm (fun s => length (ts_costs s))). intros cy s1 s2 Hc.
      destruct (train_cycle_appends _ _ Hc) as (c0 & a & t & Hc0 & _ & _).
      rewrite Hc0, length_app. cbn. lia.
    + apply (Hm (fun s => length (ts_times s))). intros cy s1 s2 Hc.
      destruct (train_cycle_appends _ _ Hc) as (c0 & a & t & _ & _ & Ht).
      rewrite Ht, length_app. cbn. lia.
  - intros cy s1 s2 Hc.
    destruct (train_cycle_appends _ _ Hc) as (c0 & a & t & _ & Ha & _). eauto.
Qed.

Lemma train_report_returns (s : train_state rng) :
  ts_accs s <> [] ->
  exists res,
    train_report clock s = Some res /\
    r_net res = ts_net s /\
    length (r_costs res) = length (ts_costs s) /\
    length (r_accs res) = length (ts_accs s) /\
    length (r_times res) = length (ts_times s).
Proof.
  intros Hne. unfold train_report. cbn [time_time].
  set (accs := map (fun x => around x 5) (ts_accs s)).
  assert (Hlen : length accs = length (ts_accs s)) by apply length_map.
  assert (Hpos : 0 < length accs).
  { rewrite Hlen. destruct (ts_accs s); [congruence|cbn; lia]. }
  destruct (nth_error accs (length accs - 1)) as [al|] eqn:El.
  2:{ apply nth_error_None in El. lia. }
  destruct (nth_error accs 0) as [af|] eqn:Ef.
  2:{ apply nth_error_None in Ef. lia. }
  cbn [bind_opt]. eexists. split; [reflexivity|]. cbn.
  rewrite !length_map. auto.
Qed.

(** *** A batch without rows *)

Lemma Net_backward_empty_batch (self : Net) (bt error : matrix) :
  shape0 bt = 0 -> Net_backward self bt error = None.
Proof. intros E. unfold Net_backward. now rewrite E. Qed.

(** [Net.backward] divides by the number of rows of the batch: a batch
    without rows stops the run. *)
Lemma train_batch_empty_raises (cycle b : nat) (bt : batch) (s : batch_state rng) :
  shape0 (fst bt) = 0 -> train_batch clock cycle b bt s = None.
Proof.
  intros E. unfold train_batch.
  destruct ((cycle =? 0) && (b =? 13)); cbn [time_time];
    (destruct (Net_forward (bs_net s) (fst bt)) as [[o n1]|]; cbn [bind_opt];
       [|reflexivity]);
    (destruct (broadcast Rminus o (snd bt)) as [e|]; cbn [bind_opt]; [|reflexivity]);
    now rewrite Net_backward_empty_batch.
Qed.

Lemma train_batches_from_empty_raises (cycle : nat) (bt : batch) :
  shape0 (fst bt) = 0 ->
  forall (l : list batch) (b : nat) (s : batch_state rng),
    train_batches_from clock cycle b (l ++ [bt]) s = None.
Proof.
  intros E l. induction l as [|x l IH]; intros b s; cbn [app train_batches_from].
  - now rewrite train_batch_empty_raises.
  - destruct (train_batch clock cycle b x s) as [s'|]; cbn [bind_opt]; [|reflexivity].
    apply IH.
Qed.

(** What [Net.train] has set up when it enters the loop. *)
Lemma train_setup_inv (self : Net) (w : world rng) (B : list (list batch))
    (bc : nat) (s0 : train_state rng) :
  train_setup rng_shuffle clock self w = Some ((B, bc), s0) ->
  B = repeat (cycle_batches (train_x self) (train_y self) (batch_size self))
        (cycles self) /\
  0 < cycles self /\
  bc = length (cycle_batches (train_x self) (train_y self) (batch_size self)) /\
  ts_net s0 = self /\
  ts_costs s0 = [] /\ ts_accs s0 = [] /\ ts_times s0 = [].
Proof.
  unfold train_setup. intros H.
  destruct (batch_data rng_shuffle clock (train_x self) (train_y self)
              (batch_size self) (cycles self) w) as [[L w1]|] eqn:Eb;
    cbn [bind_opt] in H; [|discriminate].
  apply batch_data_inv in Eb. subst L.
  destruct (cycles self) as [|n]; [discriminate|].
  cbn [repeat] in H.
  change (nth_error (?a :: ?l) 0) with (Some a) in H. cbn [bind_opt] in H.
  destruct (nth_error (cycle_batches (train_x self) (train_y self) (batch_size self)) 0);
    cbn [bind_opt time_time] in H; [|discriminate].
  inversion H; subst. cbn. repeat split; lia.
Qed.

(** When the batch size divides the number of rows (and is not larger),
    the last batch of every cycle is empty, so [Net.train] raises in its
    first cycle. *)
Lemma Net_train_raises_on_multiple (self : Net) (w : world rng) :
  wf (train_x self) ->
  0 < batch_size self ->
  batch_size self <= shape0 (train_x self) ->
  shape0 (train_x self) mod batch_size self = 0 ->
  Net_train rng_shuffle clock self w = None.
Proof.
  intros HX Hb Hle Hmod. unfold Net_train.
  destruct (train_setup rng_shuffle clock self w) as [[[B bc] s0]|] eqn:Es;
    cbn [bind_opt]; [|reflexivity].
  destruct (train_setup_inv _ _ Es) as (HB & Hc & _).
  destruct (cycles self) as [|n]; [lia|]. subst B.
  unfold train_loop. cbn [cycles_loop Nat.ltb Nat.leb andb].
  unfold train_cycle. cbn [repeat].
  change (nth_error (?a :: ?l) 0) with (Some a). cbn [bind_opt time_time].
  unfold cycle_batches at 1.
  rewrite train_batches_from_empty_raises; [reflexivity|].
  cbn [fst]. destruct (@cycle_batches_last (train_x self) (train_y self)
                         (batch_size self) HX Hb) as [_ Hl].
  now rewrite Hl.
Qed.

(** Read from the end of the run: if the loop was left in state [s] and
    the accuracy it recorded for cycle [k] is at least 100, with
    [k + 1 < cycles], then [s] is the state reached by the first [k + 1]
    passes alone and the returned histories have [k + 1] entries. *)
Lemma Net_train_stopped_at (self : Net) (w : world rng)
    (s0 s : train_state rng) (k : nat) :
  train_setup rng_shuffle clock self w = Some ((batches, batch_count), s0) ->
  train_loop clock batches batch_count (cycles self) 0 s0 = Some s ->
  k + 1 < cycles self ->
  k < length (ts_accs s) ->
  (100 <= nth k (ts_accs s) 0)%R ->
  train_loop clock batches batch_count (k + 1) 0 s0 = Some s /\
  exists res,
    Net_train rng_shuffle clock self w = Some res /\
    r_net res = ts_net s /\
    length (r_costs res) = k + 1 /\
    length (r_accs res) = k + 1 /\
    length (r_times res) = k + 1.
Proof.
  intros Hsetup Hloop Hk Hlen Hacc.
  destruct (train_setup_inv _ _ Hsetup) as (_ & _ & _ & _ & Hc0 & Ha0 & Ht0).
  destruct (@train_loop_run (cycles self) 0 s0 s Hloop)
    as (j & ext & Hj & Hl & Hext & Hcost & Htime & Hlow & Hrun).
  rewrite Ha0 in Hext. cbn [app] in Hext.
  rewrite Hc0 in Hcost. rewrite Ht0 in Htime. cbn [length Nat.add] in Hcost, Htime.
  assert (Hjk : j = k + 1).
  { rewrite Hext, Hl in Hlen.
    destruct (Nat.lt_ge_cases (k + 1) j) as [Hlt|Hge]; [|lia].
    specialize (Hlow k Hlt). rewrite Hext in Hacc. lra. }
  rewrite Hjk in Hrun, Hcost, Htime, Hl. split; [exact Hrun|].
  assert (Hne : ts_accs s <> []).
  { rewrite Hext. intros E. rewrite E in Hl. cbn in Hl. lia. }
  destruct (@train_report_returns s Hne) as (res & Hres & Hnet & Hlc & Hla & Hlt).
  exists res. unfold Net_train. rewrite Hsetup. cbn [bind_opt]. rewrite Hloop. cbn [bind_opt].
  split; [exact Hres|]. split; [exact Hnet|].
  rewrite Hlc, Hla, Hlt, Hcost, Htime, Hext, Hl. auto.
Qed.

Lemma nth_last_length (l : list R) (k : nat) :
  length l = k + 1 -> nth k l 0%R = last l 0%R.
Proof.
  intros Hl. destruct (exists_last (l := l)) as (l' & a & ->).
  { intros E. rewrite E in Hl. cbn in Hl. lia. }
  rewrite length_app in Hl. cbn in Hl.
  rewrite last_last, app_nth2 by lia.
  replace (k - length l') with 0 by lia. reflexivity.
Qed.

(** C4: if the first [k + 1] cycles of [Net.train] complete and the
    accuracy recorded for cycle [k] is at least 100, with
    [k + 1 < cycles], then the whole loop ends in the state cycle [k] left
    (no later cycle runs, so no weight is updated again), [Net.train]
    returns, and the cost, accuracy and duration histories it returns have
    [k + 1] entries each. *)
Theorem Net_train_early_stop (self : Net) (w : world rng)
    (s0 sk : train_state rng) (k : nat) :
  train_setup rng_shuffle clock self w = Some ((batches, batch_count), s0) ->
  train_loop clock batches batch_count (k + 1) 0 s0 = Some sk ->
  length (ts_accs sk) = k + 1 ->
  (100 <= last (ts_accs sk) 0)%R ->
  k + 1 < cycles self ->
  train_loop clock batches batch_count (cycles self) 0 s0 = Some sk /\
  exists res,
    Net_train rng_shuffle clock self w = Some res /\
    r_net res = ts_net sk /\
    length (r_costs res) = k + 1 /\
    length (r_accs res) = k + 1 /\
    length (r_times res) = k + 1.
Proof.
  intros Hsetup Hk Hlen Hacc Hlt.
  destruct (train_setup_inv _ _ Hsetup) as (_ & _ & _ & _ & _ & Ha0 & _).
  assert (Hfull : train_loop clock batches batch_count (cycles self) 0 s0 = Some sk).
  { unfold train_loop in *.
    replace (cycles self) with ((k + 1) + S (cycles self - (k + 1) - 1)) by lia.
    rewrite (cycles_loop_resume (@ts_accs rng) (train_cycle clock batches batch_count))
      with (s' := sk).
    - cbn [cycles_loop Nat.add].
      replace (0 <? k + 1) with true by (symmetry; apply Nat.ltb_lt; lia).
      cbn [andb]. now rewrite (proj2 (ge100_true _) Hacc).
    - intros cy s1 s2 Hc.
      destruct (train_cycle_appends _ _ Hc) as (c0 & a & t & _ & Ha & _). eauto.
    - exact Hk.
    - rewrite Ha0, Hlen. reflexivity. }
  split; [exact Hfull|].
  destruct (@Net_train_stopped_at self w s0 sk k Hsetup Hfull Hlt) as [_ Hres].
  - lia.
  - now rewrite nth_last_length.
  - exact Hres.
Qed.

End Training.

(** ** The procedural twin *)

Lemma last_opt_app (A : Type) (l : list A) (x : A) : last_opt (l ++ [x]) = Some x.
Proof.
  unfold last_opt. rewrite length_app. cbn [length].
  replace (length l + 1 - 1) with (length l) by lia.
  rewrite nth_error_app2 by lia. now rewrite Nat.sub_diag.
Qed.

Lemma dot_wf (A B C : matrix) : dot A B = Some C -> wf C.
Proof.
  unfold dot. destruct (shape1 A =? shape0 B); [|discriminate].
  intros H. inversion H. apply wf_tabulate.
Qed.

(** The softmax lines of [forward] compute what [Softmax.forward] returns. *)
Lemma Procedural_softmax_eq (self : Softmax.t) (z : matrix) :
  Procedural.softmax z = option_map fst (Softmax.forward self z).
Proof.
  unfold Procedural.softmax, Softmax.forward.
  destruct (max_axis1 z) as [mx|]; cbn [bind_opt option_map]; [|reflexivity].
  destruct (reshape_col mx (shape0 z)) as [col|]; cbn [bind_opt option_map]; [|reflexivity].
  destruct (broadcast Rminus z col) as [z'|]; cbn [bind_opt option_map]; [|reflexivity].
  destruct (reshape_col (sum_axis1 (map_matrix exp z')) (shape0 z')) as [tot|];
    cbn [bind_opt option_map]; [|reflexivity].
  destruct (broadcast Rdiv (map_matrix exp z') tot); reflexivity.
Qed.

(** Twin of C5 for [simplest-nn.py]: the last pair [(ZF, AF)] returned by
    [forward] holds a row-stochastic [AF]. *)
Lemma Procedural_forward_row_stochastic (x : matrix) (weights : list matrix)
    (outputs : list (matrix * matrix)) :
  Procedural.forward x weights = Some outputs ->
  exists ZF AF,
    last_opt outputs = Some (ZF, AF) /\
    shape0 AF = shape0 ZF /\ shape1 AF = shape1 ZF /\
    forall i, i < shape0 AF ->
      (forall j, j < shape1 AF -> (0 <= get AF i j <= 1)%R) /\
      row_sum (nth i (rows AF) []) = 1%R.
Proof.
  unfold Procedural.forward. intros H.
  destruct (Procedural.forward_loop x 0 (removelast weights) []) as [outs|];
    cbn [bind_opt] in H; [|discriminate].
  destruct (last_opt outs) as [l|]; cbn [bind_opt] in H; [|discriminate].
  destruct (last_opt weights) as [wl|]; cbn [bind_opt] in H; [|discriminate].
  destruct (dot (snd l) wl) as [ZF|] eqn:Ed; cbn [bind_opt] in H; [|discriminate].
  destruct (Procedural.softmax ZF) as [AF|] eqn:Es; cbn [bind_opt] in H; [|discriminate].
  inversion H; subst. clear H. exists ZF, AF. split; [apply last_opt_app|].
  pose proof (dot_wf _ _ Ed) as Hwf.
  assert (Hc : 0 < shape1 ZF).
  { destruct (Nat.eq_dec (shape1 ZF) 0) as [E|]; [|lia].
    unfold Procedural.softmax, max_axis1 in Es. rewrite E in Es. discriminate. }
  rewrite (Procedural_softmax_eq fresh_softmax),
    (Softmax_forward_eq fresh_softmax Hwf Hc) in Es.
  cbn [option_map fst] in Es. inversion Es. cbn [shape0 shape1 tabulate].
  split; [reflexivity|]. split; [reflexivity|]. intros i Hi. split.
  - intros j Hj. rewrite get_tabulate by assumption. now apply softmax_entry_bounds.
  - rewrite row_tabulate by assumption. rewrite row_sum_map_seq.
    now apply softmax_entry_row_sum.
Qed.

Section ProceduralTraining.

Variable rng : Type.
Variable rng_shuffle : rng -> list nat -> list nat * rng.
Variable rng_randn : rng -> nat -> nat -> matrix * rng.
Variable clock : nat -> R.

Lemma Procedural_train_cycle_appends (rate : R) (batches : list (list batch))
    (cycle : nat) (s s' : Procedural.train_state rng) :
  Procedural.train_cycle clock rate batches cycle s = Some s' ->
  exists c a t,
    Procedural.ts_costs s' = Procedural.ts_costs s ++ [c] /\
    Procedural.ts_accs s' = Procedural.ts_accs s ++ [a] /\
    Procedural.ts_times s' = Procedural.ts_times s ++ [t].
Proof.
  unfold Procedural.train_cycle. intros H.
  destruct (nth_error batches cycle) as [cur|]; cbn [bind_opt] in H; [|discriminate].
  cbn [time_time] in H.
  match type of H with
  | bind_opt ?c _ = _ => destruct c as [bs|]; cbn [bind_opt] in H; [|discriminate]
  end.
  inversion H; subst.
  cbn [Procedural.ts_costs Procedural.ts_accs Procedural.ts_times].
  eexists _, _, _. repeat split; reflexivity.
Qed.

(** The loop of [train] read from the end of the run: an accuracy of at
    least 100 recorded for cycle [k], with [k + 1 < cycles], means that the
    loop ended there; the weights are those left by cycle [k] and the
    returned histories have [k + 1] entries. *)
Lemma Procedural_train_stopped_at (train_x train_y : matrix) (layers : list nat)
    (n : nat) (rate : R) (w : world rng) (batches : list (list batch))
    (s0 s : Procedural.train_state rng) (k : nat) :
  Procedural.train_setup rng_shuffle rng_randn clock train_x train_y layers n w
  = Some (batches, s0) ->
  Procedural.train_loop clock rate batches n 0 s0 = Some s ->
  k + 1 < n ->
  k < length (Procedural.ts_accs s) ->
  (100 <= nth k (Procedural.ts_accs s) 0)%R ->
  Procedural.train_loop clock rate batches (k + 1) 0 s0 = Some s /\
  exists res,
    Procedural.train rng_shuffle rng_randn clock train_x train_y layers n rate w
    = Some res /\
    Procedural.r_weights res = Procedural.ts_weights s /\
    length (Procedural.r_costs res) = k + 1 /\
    length (Procedural.r_accs res) = k + 1 /\
    length (Procedural.r_times res) = k + 1.
Proof.
  intros Hsetup Hloop Hk Hlen Hacc.
  assert (Hinit : Procedural.ts_costs s0 = [] /\ Procedural.ts_accs s0 = []
                  /\ Procedural.ts_times s0 = []).
  { unfold Procedural.train_setup in Hsetup.
    destruct (Procedural.init_weights rng_randn layers 784 w) as [[ws w1]|];
      cbn [bind_opt] in Hsetup; [|discriminate].
    destruct (batch_data rng_shuffle clock train_x train_y 64 n w1) as [[bs w2]|];
      cbn [bind_opt time_time] in Hsetup; [|discriminate].
    inversion Hsetup; subst. auto. }
  destruct Hinit as (Hc0 & Ha0 & Ht0).
  pose proof Hloop as Hrun0. unfold Procedural.train_loop in Hrun0.
  apply cycles_loop_run in Hrun0.
  2:{ intros cy s1 s2 Hc.
      destruct (Procedural_train_cycle_appends _ _ _ _ Hc) as (c0 & a & t & _ & Ha & _).
      eauto. }
  destruct Hrun0 as (j & ext & Hj & Hl & Hext & _ & Hlow & Hm & Hrun).
  rewrite Ha0 in Hext. cbn [app] in Hext.
  assert (Hjk : j = k + 1).
  { rewrite Hext, Hl in Hlen.
    destruct (Nat.lt_ge_cases (k + 1) j) as [Hlt|Hge]; [|lia].
    specialize (Hlow k Hlt). rewrite Hext in Hacc. lra. }
  assert (Hcost : length (Procedural.ts_costs s) = k + 1).
  { rewrite (Hm (fun s => length (Procedural.ts_costs s))), Hc0, Hjk; [reflexivity|].
    intros cy s1 s2 Hc.
    destruct (Procedural_train_cycle_appends _ _ _ _ Hc) as (c0 & a & t & Hc1 & _ & _).
    rewrite Hc1, length_app. cbn. lia. }
  assert (Htime : length (Procedural.ts_times s) = k + 1).
  { rewrite (Hm (fun s => length (Procedural.ts_times s))), Ht0, Hjk; [reflexivity|].
    intros cy s1 s2 Hc.
    destruct (Procedural_train_cycle_appends _ _ _ _ Hc) as (c0 & a & t & _ & _ & Ht1).
    rewrite Ht1, length_app. cbn. lia. }
  rewrite Hjk in Hrun, Hl. split; [exact Hrun|].
  unfold Procedural.train. rewrite Hsetup. cbn [bind_opt]. rewrite Hloop. cbn [bind_opt].
  unfold Procedural.train_report. cbn [time_time].
  set (accs := map (fun x => around x 5) (Procedural.ts_accs s)).
  assert (Hla : length accs = k + 1) by (unfold accs; now rewrite length_map, Hext, Hl).
  destruct (nth_error accs (length accs - 1)) as [al|] eqn:El.
  2:{ apply nth_error_None in El. lia. }
  destruct (nth_error accs 0) as [af|] eqn:Ef.
  2:{ apply nth_error_None in Ef. lia. }
  cbn [bind_opt]. eexists. split; [reflexivity|].
  cbn [Procedural.r_weights Procedural.r_costs Procedural.r_accs Procedural.r_times].
  rewrite !length_map. auto.
Qed.

(** Twin of C4 for [simplest-nn.py]: if the first [k + 1] cycles of
    [train] complete and the accuracy recorded for cycle [k] is at least
    100, with [k + 1 < cycles], the loop ends in the state cycle [k] left,
    [train] returns, and the returned histories have [k + 1] entries. *)
Lemma Procedural_train_early_stop (train_x train_y : matrix) (layers : list nat)
    (n : nat) (rate : R) (w : world rng) (batches : list (list batch))
    (s0 sk : Procedural.train_state rng) (k : nat) :
  Procedural.train_setup rng_shuffle rng_randn clock train_x train_y layers n w
  = Some (batches, s0) ->
  Procedural.train_loop clock rate batches (k + 1) 0 s0 = Some sk ->
  length (Procedural.ts_accs sk) = k + 1 ->
  (100 <= last (Procedural.ts_accs sk) 0)%R ->
  k + 1 < n ->
  Procedural.train_loop clock rate batches n 0 s0 = Some sk /\
  exists res,
    Procedural.train rng_shuffle rng_randn clock train_x train_y layers n rate w
    = Some res /\
    Procedural.r_weights res = Procedural.ts_weights sk /\
    length (Procedural.r_costs res) = k + 1 /\
    length (Procedural.r_accs res) = k + 1 /\
    length (Procedural.r_times res) = k + 1.
Proof.
  intros Hsetup Hk Hlen Hacc Hlt.
  assert (Ha0 : Procedural.ts_accs s0 = []).
  { unfold Procedural.train_setup in Hsetup.
    destruct (Procedural.init_weights rng_randn layers 784 w) as [[ws w1]|];
      cbn [bind_opt] in Hsetup; [|discriminate].
    destruct (batch_data rng_shuffle clock train_x train_y 64 n w1) as [[bs w2]|];
      cbn [bind_opt time_time] in Hsetup; [|discriminate].
    inversion Hsetup; subst. reflexivity. }
  assert (Hfull : Procedural.train_loop clock rate batches n 0 s0 = Some sk).
  { unfold Procedural.train_loop in *.
    replace n with ((k + 1) + S (n - (k + 1) - 1)) by lia.
    rewrite (cycles_loop_resume (@Procedural.ts_accs rng)
               (Procedural.train_cycle clock rate batches)) with (s' := sk).
    - cbn [cycles_loop Nat.add].
      replace (0 <? k + 1) with true by (symmetry; apply Nat.ltb_lt; lia).
      cbn [andb]. now rewrite (proj2 (ge100_true _) Hacc).
    - intros cy s1 s2 Hc.
      destruct (Procedural_train_cycle_appends _ _ _ _ Hc) as (c0 & a & t & _ & Ha & _).
      eauto.
    - exact Hk.
    - rewrite Ha0, Hlen. reflexivity. }
  split; [exact Hfull|].
  destruct (@Procedural_train_stopped_at train_x train_y layers n rate w batches
              s0 sk k Hsetup Hfull Hlt) as [_ Hres].
  - lia.
  - now rewrite nth_last_length.
  - exact Hres.
Qed.

End ProceduralTraining.

(** ** The operations on concrete inputs *)

(** Row slices clamp at the end of the array, as Python slices do. *)
Example slice_examples :
  rows (slice X5 2 4) = [[3]; [4]]%R /\
  rows (slice X5 4 9) = [[5]]%R /\
  rows (slice X5 7 9) = [] /\
  rows (slice_from X5 4) = [[5]]%R /\
  shape0 (slice X5 4 9) = 1.
Proof. repeat split; reflexivity. Qed.

Example transpose_example : rows (transpose X12) = [[3]; [5]]%R.
Proof. reflexivity. Qed.

Example dot_example :
  exists M, dot X12 (Dense.weights dense21) = Some M /\
            shape0 M = 1 /\ shape1 M = 1 /\ get M 0 0 = (-2)%R.
Proof.
  eexists. split; [reflexivity|]. split; [reflexivity|]. split; [reflexivity|].
  cbn. lra.
Qed.

(** [argmax] returns the first position of the maximum. *)
Example row_argmax_first_of_ties : row_argmax [1; 3; 3; 2]%R = 1.
Proof.
  unfold row_argmax. cbn [argmax_from].
  repeat match goal with
         | |- context [Rlt_dec ?a ?b] => destruct (Rlt_dec a b); try (exfalso; lra)
         end.
  reflexivity.
Qed.

(** Equal lengths compare position by position, a single element is
    broadcast, other lengths raise. *)
Example count_eq_example :
  count_eq [1; 2; 3] [1; 0; 3] = Some 2 /\
  count_eq [2] [1; 2; 2] = Some 2 /\
  count_eq [1; 2] [1; 2; 3] = None.
Proof. repeat split; reflexivity. Qed.

(** Weights [[1], [-1]], input [[3, 5]], upstream gradient [[2]] and
    learning rate 1/2: the output is [[-2]], the returned gradient
    [[2, -2]] and the new weights [[-2], [-6]]. *)
Example Dense_backward_example :
  exists y self1 dZ self2,
    Dense.forward dense21 X12 = Some (y, self1) /\
    Dense.backward self1 G11 (1 / 2) = Some (dZ, self2) /\
    get y 0 0 = (-2)%R /\
    get dZ 0 0 = 2%R /\ get dZ 0 1 = (-2)%R /\
    get (Dense.weights self2) 0 0 = (-2)%R /\
    get (Dense.weights self2) 1 0 = (-6)%R.
Proof.
  eexists _, _, _, _. split; [reflexivity|]. split; [reflexivity|].
  cbn. repeat split; lra.
Qed.

(** A row of equal scores is mapped to equal shares. *)
Example softmax_example :
  exists out self',
    Softmax.forward fresh_softmax Z2 = Some (out, self') /\
    get out 1 0 = (1 / 2)%R /\ get out 1 1 = (1 / 2)%R.
Proof.
  eexists _, _. split; [reflexivity|].
  cbn.
  replace (Rmax 3 3) with 3%R by (unfold Rmax; destruct (Rle_dec 3 3); lra).
  replace (3 - 3)%R with 0%R by lra. rewrite exp_0. split; lra.
Qed.

(** ** The batching defect on concrete datasets *)

(** C1 (fails on the code): four rows in batches of two.  The one cycle
    emits the batch of rows 0 and 1 and then an empty last batch: two rows
    in all, not four, and rows 2 and 3 are in no batch. *)
Example batch_data_drops_rows :
  exists bs w',
    batch_data rev_shuffle tick_clock X4 Y4 2 1 w0 = Some ([bs], w') /\
    shape0 X4 = 4 /\
    map (fun bt => shape0 (fst bt)) bs = [2; 0] /\
    total_rows bs = 2 /\
    emitted_x bs = [[1]; [2]]%R /\
    ~ Permutation (emitted_x bs) (rows X4).
Proof.
  eexists _, _. split; [reflexivity|].
  split; [reflexivity|]. split; [reflexivity|]. split; [reflexivity|].
  split; [reflexivity|].
  intros HP. apply Permutation_length in HP. cbn in HP. discriminate.
Qed.

(** C3 (fails on the code): five rows in batches of two, so [N >= 2b].
    The cycle holds [floor(5/2) - 1 = 1] batch of two rows, and its last
    batch has one row: fewer than [b], not between [b] and [2b - 1].  With
    four rows, where [b] divides [N], the last batch has no row at all. *)
Example batch_data_last_batch_short :
  (exists bs w',
     batch_data rev_shuffle tick_clock X5 Y5 2 1 w0 = Some ([bs], w') /\
     2 * 2 <= shape0 X5 /\
     map (fun bt => shape0 (fst bt)) bs = [2; 1]) /\
  (exists bs w',
     batch_data rev_shuffle tick_clock X4 Y4 2 1 w0 = Some ([bs], w') /\
     2 * 2 <= shape0 X4 /\ shape0 X4 mod 2 = 0 /\
     map (fun bt => shape0 (fst bt)) bs = [2; 0]).
Proof.
  split; eexists _, _.
  - split; [reflexivity|]. split; [cbn; lia|reflexivity].
  - split; [reflexivity|]. split; [cbn; lia|]. split; reflexivity.
Qed.

(** C2 (fails on the code): with a generator that reverses, [shuffle]
    returns the rows in the order 5, 4, 3, 2, 1, yet the batches of the
    cycle are cut from the unshuffled [X5] and [Y5]: rows 1, 2 and row 5. *)
Example batch_data_slices_unshuffled :
  exists sx sy w1 bs w',
    shuffle rev_shuffle X5 Y5 w0 = Some ((sx, sy), w1) /\
    rows sx = [[5]; [4]; [3]; [2]; [1]]%R /\
    batch_data rev_shuffle tick_clock X5 Y5 2 1 w0 = Some ([bs], w') /\
    bs = [(slice X5 0 2, slice Y5 0 2); (slice_from X5 4, slice_from Y5 4)] /\
    emitted_x bs = [[1]; [2]; [5]]%R /\
    bs <> [(slice sx 0 2, slice sy 0 2); (slice_from sx 4, slice_from sy 4)].
Proof.
  eexists _, _, _, _, _. split; [reflexivity|].
  split; [reflexivity|]. split; [reflexivity|]. split; [reflexivity|].
  split; [reflexivity|].
  intros E. apply (f_equal emitted_x) in E. cbn in E.
  inversion E as [H]. lra.
Qed.

(** ** The theorems at concrete inputs *)

Lemma rev_shuffle_perm (g : unit) (l : list nat) :
  Permutation l (fst (rev_shuffle g l)).
Proof. apply Permutation_rev. Defined.

Lemma batch_data_cycles_identical_witness :
  0 < 2 /\ 0 < shape0 X5 /\ shape0 X5 = shape0 Y5 /\
  exists train_batches w',
    batch_data rev_shuffle tick_clock X5 Y5 2 3 w0 = Some (train_batches, w') /\
    length train_batches = 3 /\
    forall i j, i < 3 -> j < 3 ->
      nth_error train_batches i = Some (cycle_batches X5 Y5 2) /\
      nth_error train_batches j = nth_error train_batches i.
Proof.
  split; [lia|]. split; [cbn; lia|]. split; [reflexivity|].
  apply (@batch_data_cycles_identical unit rev_shuffle tick_clock rev_shuffle_perm
           X5 Y5 2 3 w0); [lia|cbn; lia|reflexivity].
Defined.

Lemma Softmax_forward_row_stochastic_witness :
  wf Z2 /\ 0 < shape1 Z2 /\
  exists out self',
    Softmax.forward fresh_softmax Z2 = Some (out, self') /\
    Softmax.output self' = Some out /\
    wf out /\ shape0 out = shape0 Z2 /\ shape1 out = shape1 Z2 /\
    forall i, i < shape0 Z2 ->
      (exists m,
          In m (nth i (rows Z2) []) /\
          (forall j, j < shape1 Z2 -> (get Z2 i j <= m)%R) /\
          (forall j, j < shape1 Z2 ->
             get out i j
             = (exp (get Z2 i j - m)
                / big_sum (shape1 Z2) (fun k => exp (get Z2 i k - m)))%R)) /\
      (forall j, j < shape1 Z2 -> (0 <= get out i j <= 1)%R) /\
      row_sum (nth i (rows out) []) = 1%R.
Proof.
  split; [reflexivity|]. split; [cbn; lia|].
  apply (@Softmax_forward_row_stochastic fresh_softmax Z2); [reflexivity|cbn; lia].
Defined.

Lemma Softmax_forward_shift_invariant_witness :
  wf Z2 /\ wf C2 /\ shape0 C2 = shape0 Z2 /\ shape1 C2 = 1 /\
  exists zc,
    broadcast Rplus Z2 C2 = Some zc /\
    option_map fst (Softmax.forward fresh_softmax zc)
    = option_map fst (Softmax.forward fresh_softmax Z2).
Proof.
  split; [reflexivity|]. split; [reflexivity|]. split; [reflexivity|].
  split; [reflexivity|].
  apply (@Softmax_forward_shift_invariant fresh_softmax fresh_softmax Z2 C2);
    reflexivity.
Defined.

Lemma Dense_backward_update_witness :
  exists y self1,
    Dense.forward dense21 X12 = Some (y, self1) /\
    shape0 G11 = shape0 X12 /\ shape1 G11 = shape1 (Dense.weights dense21) /\
    let W := Dense.weights dense21 in
    exists dW0 dZ self2,
      dot (transpose G11) X12 = Some dW0 /\
      dot G11 (transpose W) = Some dZ /\
      Dense.backward self1 G11 (1 / 2) = Some (dZ, self2) /\
      Dense.weights self2
      = tabulate (shape0 W) (shape1 W)
          (fun i j => (get W i j - get (transpose dW0) i j * (1 / 2))%R) /\
      Dense.input self2 = Dense.input self1 /\
      Dense.output self2 = Dense.output self1 /\
      (forall i j, i < shape0 W -> j < shape1 W ->
         get (Dense.weights self2) i j
         = (get W i j
            - big_sum (shape0 X12) (fun r => (get G11 r j * get X12 r i)%R)
              * (1 / 2))%R) /\
      (forall r i, r < shape0 X12 -> i < shape0 W ->
         get dZ r i = big_sum (shape1 W) (fun j => (get G11 r j * get W i j)%R)).
Proof.
  eexists _, _. split; [reflexivity|]. split; [reflexivity|]. split; [reflexivity|].
  refine (@Dense_backward_update dense21 X12 _ _ G11 (1 / 2) _ _ _); reflexivity.
Defined.

Lemma Dense_zero_gradient_keeps_weights_witness :
  wf (Dense.weights dense21) /\
  shape1 X12 = shape0 (Dense.weights dense21) /\
  exists y self1 dZ self2,
    Dense.forward dense21 X12 = Some (y, self1) /\
    shape0 y = shape0 X12 /\ shape1 y = shape1 (Dense.weights dense21) /\
    Dense.backward self1 (zeros (shape0 y) (shape1 y)) (1 / 2) = Some (dZ, self2) /\
    Dense.weights self2 = Dense.weights dense21.
Proof.
  split; [reflexivity|]. split; [reflexivity|].
  apply (@Dense_zero_gradient_keeps_weights dense21 X12 (1 / 2)); reflexivity.
Defined.

Lemma Net_test_repeatable_witness :
  exists acc output self1,
    Net_test net0 = Some ((acc, output), self1) /\
    map Layer_weights (layers self1) = map Layer_weights (layers net0) /\
    test_x self1 = test_x net0 /\ test_y self1 = test_y net0 /\
    exists self2,
      Net_test self1 = Some ((acc, output), self2) /\
      map Layer_weights (layers self2) = map Layer_weights (layers net0).
Proof.
  eexists _, _, _. split; [reflexivity|].
  refine (@Net_test_repeatable net0 _ _ _ _). reflexivity.
Defined.

(** *** A run of [Net.train] that stops after its first cycle *)

Lemma softmax_entry_same (z : matrix) (i j j' : nat) :
  get z i j = get z i j' -> softmax_entry z i j = softmax_entry z i j'.
Proof. unfold softmax_entry. intros E. now rewrite E. Qed.

(** The single training example is labelled with class 0. *)
Lemma Y1_argmax : argmax_axis1 Y1 = Some [0].
Proof.
  unfold argmax_axis1. cbn [shape1 Y1 Nat.eqb rows map]. do 2 f_equal.
  apply row_argmax_head. intros x Hx. cbn [In] in Hx.
  repeat (destruct Hx as [<-|Hx]; [lra|]). contradiction.
Qed.

(** With all weights zero the ten class scores are equal, the prediction
    is class 0, and the one row of the batch is counted as a hit. *)
Lemma net0_first_batch (s : batch_state unit) :
  bs_net s = net0 ->
  exists s',
    train_batch tick_clock 0 0 (X1, Y1) s = Some s' /\
    bs_acc s' = (bs_acc s + 1)%R.
Proof.
  intros Hs.
  edestruct (@train_batch_returns unit tick_clock 0 0 (X1, Y1) s)
    with (p := [0]) (t := [0]) (hits := 1) as (s' & Hr & _ & Ha).
  - rewrite Hs. cbn [fst]. unfold Net_forward.
    cbn [layers net0 forward_layers Layer_forward].
    unfold Dense.forward at 1. rewrite dot_eq by reflexivity.
    cbn [bind_opt Dense.weights]. unfold Softplus.forward. cbn [bind_opt].
    unfold Dense.forward. rewrite dot_eq by reflexivity. cbn [bind_opt Dense.weights].
    rewrite Softmax_forward_eq
      by (try apply wf_tabulate; unfold zeros; cbn [shape1 tabulate]; lia).
    cbn [bind_opt]. cbv zeta. reflexivity.
  - cbn [snd]. reflexivity.
  - cbn [fst]. reflexivity.
  - unfold argmax_axis1. cbn [shape1 tabulate zeros Nat.eqb]. f_equal.
    match goal with
    | |- map row_argmax (rows ?T) = _ => change (rows T) with [nth 0 (rows T) []]
    end.
    cbn [map]. f_equal. apply row_argmax_tabulate; [cbn; lia|lia|].
    intros j Hj. apply Req_le, softmax_entry_same.
    rewrite !get_tabulate by (cbn; lia).
    apply big_sum_ext. intros k Hk. change (k < 1) in Hk.
    unfold zeros. rewrite !get_tabulate by lia. reflexivity.
  - cbn [snd]. exact Y1_argmax.
  - reflexivity.
  - cbn. lia.
  - exists s'. split; [exact Hr|]. rewrite Ha. cbn [fst shape0 X1 INR]. lra.
Qed.

(** The first cycle records an accuracy of 100. *)
Lemma net0_first_cycle :
  exists batches s0 s1,
    train_setup rev_shuffle tick_clock net0 w0 = Some ((batches, 1), s0) /\
    train_cycle tick_clock batches 1 0 s0 = Some s1 /\
    ts_accs s0 = [] /\
    ts_accs s1 = [((0 + 1) * 100 / 1)%R].
Proof.
  pose (s0 := {| ts_net := net0; ts_costs := []; ts_accs := []; ts_times := [];
                 ts_train_start := tick_clock 2;
                 ts_world := {| gen := tt; ticks := 3 |} |}).
  assert (Hsetup : train_setup rev_shuffle tick_clock net0 w0
                   = Some ((repeat (cycle_batches X1 Y1 2) 2, 1), s0)) by reflexivity.
  destruct (@net0_first_batch
              {| bs_net := net0; bs_cost := 0; bs_acc := 0;
                 bs_cycle_start := tick_clock 3; bs_train_start := tick_clock 2;
                 bs_world := {| gen := tt; ticks := 4 |} |} eq_refl) as (b1 & Hb & Hacc).
  destruct (@train_cycle_one_batch unit tick_clock (repeat (cycle_batches X1 Y1 2) 2) 1 0
              (X1, Y1) s0 b1 eq_refl Hb) as (s1 & Hc & _ & Ha).
  exists (repeat (cycle_batches X1 Y1 2) 2), s0, s1.
  split; [exact Hsetup|]. split; [exact Hc|]. split; [reflexivity|].
  rewrite Ha, Hacc. cbn [ts_accs app bs_acc INR s0]. reflexivity.
Qed.

Lemma Net_train_early_stop_witness :
  exists batches s0 s1,
    train_setup rev_shuffle tick_clock net0 w0 = Some ((batches, 1), s0) /\
    train_loop tick_clock batches 1 (0 + 1) 0 s0 = Some s1 /\
    length (ts_accs s1) = 0 + 1 /\
    (100 <= last (ts_accs s1) 0)%R /\
    0 + 1 < cycles net0 /\
    train_loop tick_clock batches 1 (cycles net0) 0 s0 = Some s1 /\
    exists res,
      Net_train rev_shuffle tick_clock net0 w0 = Some res /\
      r_net res = ts_net s1 /\
      length (r_costs res) = 0 + 1 /\
      length (r_accs res) = 0 + 1 /\
      length (r_times res) = 0 + 1.
Proof.
  destruct net0_first_cycle as (batches & s0 & s1 & Hsetup & Hcycle & Ha0 & Ha1).
  assert (Hloop : train_loop tick_clock batches 1 (0 + 1) 0 s0 = Some s1).
  { unfold train_loop. cbn [cycles_loop Nat.add Nat.ltb Nat.leb andb].
    rewrite Hcycle. reflexivity. }
  assert (Hlen : length (ts_accs s1) = 0 + 1) by (rewrite Ha1; reflexivity).
  assert (Hacc : (100 <= last (ts_accs s1) 0)%R) by (rewrite Ha1; cbn [last]; lra).
  assert (Hlt : 0 + 1 < cycles net0) by (cbn; lia).
  exists batches, s0, s1.
  split; [exact Hsetup|]. split; [exact Hloop|]. split; [exact Hlen|].
  split; [exact Hacc|]. split; [exact Hlt|].
  exact (@Net_train_early_stop unit rev_shuffle tick_clock batches 1 net0 w0 s0 s1 0
           Hsetup Hloop Hlen Hacc Hlt).
Defined.

(** * Further properties of the code *)

(** ** Shuffling and batching *)

Lemma combine_as_table (A B : Type) (l1 : list A) (l2 : list B) (d1 : A) (d2 : B) :
  length l1 = length l2 ->
  combine l1 l2 = map (fun i => (nth i l1 d1, nth i l2 d2)) (seq 0 (length l1)).
Proof.
  intros Hl. rewrite (list_eq_map_seq (combine l1 l2) (d1, d2)) at 1.
  rewrite length_combine, <- Hl, Nat.min_id.
  apply map_ext. intros i. now apply combine_nth.
Qed.

Lemma combine_map_same (A B C : Type) (f : C -> A) (g : C -> B) (l : list C) :
  combine (map f l) (map g l) = map (fun i => (f i, g i)) l.
Proof. induction l as [|x l IH]; cbn; [reflexivity|]. now rewrite IH. Qed.

Lemma slice_from_0 (M : matrix) : wf M -> slice_from M 0 = M.
Proof.
  intros H. destruct M as [r c l]. unfold slice_from. cbn [rows shape1 skipn].
  pose proof (wf_length H) as Hl. cbn in Hl. now rewrite Hl.
Qed.

Lemma In_firstn (A : Type) (n : nat) (l : list A) (x : A) :
  In x (firstn n l) -> In x l.
Proof.
  intros H. rewrite <- (firstn_skipn n l). apply in_or_app. now left.
Qed.

Lemma In_skipn (A : Type) (n : nat) (l : list A) (x : A) :
  In x (skipn n l) -> In x l.
Proof.
  intros H. rewrite <- (firstn_skipn n l). apply in_or_app. now right.
Qed.

Lemma wf_slice (M : matrix) (s e : nat) : wf M -> wf (slice M s e).
Proof.
  intros HM. apply wf_intro; cbn [slice rows shape0 shape1]; [reflexivity|].
  intros r Hr. apply In_firstn, In_skipn in Hr.
  apply In_nth with (d := []) in Hr. destruct Hr as (i & Hi & <-).
  apply wf_row_length; [assumption|]. now rewrite <- (wf_length HM).
Qed.

Lemma wf_slice_from (M : matrix) (s : nat) : wf M -> wf (slice_from M s).
Proof.
  intros HM. apply wf_intro; cbn [slice_from rows shape0 shape1]; [reflexivity|].
  intros r Hr. apply In_skipn in Hr.
  apply In_nth with (d := []) in Hr. destruct Hr as (i & Hi & <-).
  apply wf_row_length; [assumption|]. now rewrite <- (wf_length HM).
Qed.

(** Every batch of a cycle pairs as many label rows as feature rows. *)
Lemma cycle_batches_valid (X Y : matrix) (b : nat) :
  wf X -> wf Y -> shape0 X = shape0 Y ->
  Forall (fun bt => wf (fst bt) /\ wf (snd bt) /\
                    shape0 (snd bt) = shape0 (fst bt) /\
                    shape1 (fst bt) = shape1 X /\ shape1 (snd bt) = shape1 Y)
         (cycle_batches X Y b).
Proof.
  intros HX HY Hxy. unfold cycle_batches. apply Forall_app. split.
  - apply Forall_forall. intros bt Hbt. apply in_map_iff in Hbt.
    destruct Hbt as (i & <- & Hi). cbn [fst snd].
    split; [now apply wf_slice|]. split; [now apply wf_slice|].
    cbn [slice shape0 shape1]. split; [|split; reflexivity].
    now rewrite !length_firstn, !length_skipn, (wf_length HX), (wf_length HY), Hxy.
  - constructor; [|constructor]. cbn [fst snd].
    split; [now apply wf_slice_from|]. split; [now apply wf_slice_from|].
    cbn [slice_from shape0 shape1]. split; [|split; reflexivity].
    now rewrite !length_skipn, (wf_length HX), (wf_length HY), Hxy.
Qed.

Section BatchingMore.

Variable rng : Type.
Variable rng_shuffle : rng -> list nat -> list nat * rng.
Variable clock : nat -> R.

Hypothesis rng_shuffle_perm :
  forall g l, Permutation l (fst (rng_shuffle g l)).

(** X1: on a dataset with at least one row, [shuffle(X, Y)] returns the
    rows of [X] and the rows of [Y] rearranged by one and the same
    permutation: the (feature row, label row) pairs of the result are a
    permutation of the pairs of the input, and both shapes are kept. *)
Theorem shuffle_permutes_pairs (X Y : matrix) (w : world rng) :
  wf X -> wf Y -> 0 < shape0 X -> shape0 X = shape0 Y ->
  exists sx sy w',
    shuffle rng_shuffle X Y w = Some ((sx, sy), w') /\
    wf sx /\ wf sy /\
    shape0 sx = shape0 X /\ shape1 sx = shape1 X /\
    shape0 sy = shape0 Y /\ shape1 sy = shape1 Y /\
    Permutation (combine (rows X) (rows Y)) (combine (rows sx) (rows sy)).
Proof.
  intros HX HY Hpos Hxy. unfold shuffle.
  pose proof (rng_shuffle_perm (gen w) (seq 0 (shape0 X))) as Hp.
  destruct (rng_shuffle (gen w) (seq 0 (shape0 X))) as [idxs g]. cbn [fst] in Hp.
  destruct (Nat.eqb_spec (shape0 X) 0) as [|_]; [lia|].
  assert (Hin : forall i, In i idxs -> i < shape0 X).
  { intros i Hi. apply Permutation_sym in Hp.
    apply (Permutation_in _ Hp), in_seq in Hi. lia. }
  assert (Hlen : length idxs = shape0 X).
  { apply Permutation_length in Hp. now rewrite length_seq in Hp. }
  unfold take_rows.
  assert (HbX : forallb (fun i => i <? shape0 X) idxs = true).
  { apply forallb_forall. intros i Hi. apply Nat.ltb_lt. auto. }
  assert (HbY : forallb (fun i => i <? shape0 Y) idxs = true).
  { apply forallb_forall. intros i Hi. apply Nat.ltb_lt. apply Hin in Hi. lia. }
  rewrite HbX, HbY. cbn [bind_opt]. eexists _, _, _. split; [reflexivity|].
  cbn [shape0 shape1 rows].
  split.
  { apply wf_intro; cbn [rows shape0 shape1]; [now rewrite length_map|].
    intros r Hr. apply in_map_iff in Hr. destruct Hr as [i [<- Hi]].
    apply wf_row_length; auto. }
  split.
  { apply wf_intro; cbn [rows shape0 shape1]; [now rewrite length_map|].
    intros r Hr. apply in_map_iff in Hr. destruct Hr as [i [<- Hi]].
    apply wf_row_length; [assumption|]. apply Hin in Hi. lia. }
  repeat (split; [congruence|]).
  rewrite combine_map_same.
  rewrite (combine_as_table (rows X) (rows Y) [] [])
    by now rewrite (wf_length HX), (wf_length HY).
  rewrite (wf_length HX). now apply Permutation_map.
Qed.

(** X2: when the dataset has rows, but fewer than the batch size, every
    cycle of [batch_data] is the single batch [(X, Y)]. *)
Theorem batch_data_small_dataset (X Y : matrix) (b n : nat) (w : world rng) :
  wf X -> wf Y -> shape0 X = shape0 Y -> 0 < shape0 X -> shape0 X < b ->
  exists w',
    batch_data rng_shuffle clock X Y b n w = Some (repeat [(X, Y)] n, w').
Proof.
  intros HX HY Hxy Hpos Hb.
  destruct (@batch_data_returns rng rng_shuffle clock rng_shuffle_perm X Y b n w)
    as [w' Hr]; [lia|lia|lia|].
  exists w'. rewrite Hr. do 3 f_equal.
  unfold cycle_batches. rewrite Nat.div_small by assumption.
  cbn [Nat.sub seq map app Nat.mul]. now rewrite !slice_from_0.
Qed.

(** X3: on a dataset with at least one row and with a positive batch
    size, every cycle returned by [batch_data] holds, in this order, the
    first [(num_batches - 1) * b] rows and the rows from
    [num_batches * b] on, cut at the same places in [X] and in [Y]; that
    is all [N] rows when [N < b] and [N - b] rows otherwise. *)
Theorem batch_data_row_accounting (X Y : matrix) (b n : nat) (w : world rng) :
  wf X -> wf Y -> shape0 X = shape0 Y -> 0 < shape0 X -> 0 < b ->
  exists L w',
    batch_data rng_shuffle clock X Y b n w = Some (L, w') /\
    length L = n /\
    forall bs, In bs L ->
      emitted_x bs
      = firstn ((shape0 X / b - 1) * b) (rows X) ++ skipn (shape0 X / b * b) (rows X) /\
      emitted_y bs
      = firstn ((shape0 X / b - 1) * b) (rows Y) ++ skipn (shape0 X / b * b) (rows Y) /\
      length (emitted_x bs) = (if shape0 X <? b then shape0 X else shape0 X - b) /\
      length (emitted_y bs) = length (emitted_x bs).
Proof.
  intros HX HY Hxy Hpos Hb.
  destruct (@batch_data_returns rng rng_shuffle clock rng_shuffle_perm X Y b n w)
    as [w' Hr]; [lia|lia|lia|].
  exists (repeat (cycle_batches X Y b) n), w'. split; [exact Hr|].
  split; [apply repeat_length|].
  intros bs Hin. apply repeat_spec in Hin. subst bs.
  rewrite cycle_batches_emitted, cycle_batches_emitted_y.
  split; [reflexivity|]. split; [reflexivity|].
  rewrite !length_app, !length_firstn, !length_skipn, (wf_length HX), (wf_length HY).
  rewrite <- Hxy.
  pose proof (Nat.div_mod_eq (shape0 X) b) as Hd.
  pose proof (Nat.mod_upper_bound (shape0 X) b) as Hm.
  destruct (Nat.ltb_spec (shape0 X) b) as [Hlt|Hge].
  - rewrite Nat.div_small in * by assumption. split; lia.
  - assert (1 <= shape0 X / b) by (apply Nat.div_str_pos; lia). split; nia.
Qed.

(** X4: on a dataset with at least one row, the batch sizes of a cycle
    of [batch_data] are [num_batches - 1] times [b] and then [N mod b]
    (so the last batch is empty when [b] divides [N]), and in every batch
    the feature slice and the label slice have the same number of
    rows. *)
Theorem batch_data_batch_sizes (X Y : matrix) (b n : nat) (w : world rng) :
  wf X -> wf Y -> shape0 X = shape0 Y -> 0 < shape0 X -> 0 < b ->
  exists L w',
    batch_data rng_shuffle clock X Y b n w = Some (L, w') /\
    forall bs, In bs L ->
      map (fun bt => shape0 (fst bt)) bs
      = repeat b (shape0 X / b - 1) ++ [shape0 X mod b] /\
      Forall (fun bt => wf (fst bt) /\ wf (snd bt) /\
                        shape0 (snd bt) = shape0 (fst bt) /\
                        shape1 (fst bt) = shape1 X /\ shape1 (snd bt) = shape1 Y) bs.
Proof.
  intros HX HY Hxy Hpos Hb.
  destruct (@batch_data_returns rng rng_shuffle clock rng_shuffle_perm X Y b n w)
    as [w' Hr]; [lia|lia|lia|].
  exists (repeat (cycle_batches X Y b) n), w'. split; [exact Hr|].
  intros bs Hin. apply repeat_spec in Hin. subst bs.
  pose proof (Nat.div_mod_eq (shape0 X) b) as Hd.
  pose proof (Nat.mod_upper_bound (shape0 X) b) as Hm.
  split.
  - unfold cycle_batches. rewrite map_app, map_map. cbn [map fst]. f_equal.
    + apply nth_ext with (d := 0) (d' := 0).
      * now rewrite length_map, length_seq, repeat_length.
      * intros i Hi. rewrite length_map, length_seq in Hi.
        rewrite nth_repeat_lt by assumption.
        rewrite (nth_map_seq (fun x => shape0 (slice X (x * b) ((x + 1) * b))) 0 Hi).
        now apply (@cycle_batches_regular X Y b i HX Hb Hi).
    + f_equal. now apply (@cycle_batches_last X Y b HX Hb).
  - now apply cycle_batches_valid.
Qed.

End BatchingMore.

Lemma shuffle_permutes_pairs_witness :
  wf X5 /\ wf Y5 /\ 0 < shape0 X5 /\ shape0 X5 = shape0 Y5 /\
  exists sx sy w',
    shuffle rev_shuffle X5 Y5 w0 = Some ((sx, sy), w') /\
    wf sx /\ wf sy /\
    shape0 sx = shape0 X5 /\ shape1 sx = shape1 X5 /\
    shape0 sy = shape0 Y5 /\ shape1 sy = shape1 Y5 /\
    Permutation (combine (rows X5) (rows Y5)) (combine (rows sx) (rows sy)).
Proof.
  split; [reflexivity|]. split; [reflexivity|]. split; [cbn; lia|].
  split; [reflexivity|].
  apply (@shuffle_permutes_pairs unit rev_shuffle rev_shuffle_perm X5 Y5 w0);
    first [reflexivity|cbn; lia].
Defined.

Lemma batch_data_small_dataset_witness :
  wf X4 /\ wf Y4 /\ shape0 X4 = shape0 Y4 /\ 0 < shape0 X4 /\ shape0 X4 < 7 /\
  exists w',
    batch_data rev_shuffle tick_clock X4 Y4 7 2 w0 = Some (repeat [(X4, Y4)] 2, w').
Proof.
  split; [reflexivity|]. split; [reflexivity|]. split; [reflexivity|].
  split; [cbn; lia|]. split; [cbn; lia|].
  apply (@batch_data_small_dataset unit rev_shuffle tick_clock rev_shuffle_perm
           X4 Y4 7 2 w0); first [reflexivity|cbn; lia].
Defined.

Lemma batch_data_row_accounting_witness :
  wf X5 /\ wf Y5 /\ shape0 X5 = shape0 Y5 /\ 0 < shape0 X5 /\ 0 < 2 /\
  exists L w',
    batch_data rev_shuffle tick_clock X5 Y5 2 3 w0 = Some (L, w') /\
    length L = 3 /\
    forall bs, In bs L ->
      emitted_x bs
      = firstn ((shape0 X5 / 2 - 1) * 2) (rows X5) ++ skipn (shape0 X5 / 2 * 2) (rows X5) /\
      emitted_y bs
      = firstn ((shape0 X5 / 2 - 1) * 2) (rows Y5) ++ skipn (shape0 X5 / 2 * 2) (rows Y5) /\
      length (emitted_x bs) = (if shape0 X5 <? 2 then shape0 X5 else shape0 X5 - 2) /\
      length (emitted_y bs) = length (emitted_x bs).
Proof.
  split; [reflexivity|]. split; [reflexivity|]. split; [reflexivity|].
  split; [cbn; lia|]. split; [lia|].
  apply (@batch_data_row_accounting unit rev_shuffle tick_clock rev_shuffle_perm
           X5 Y5 2 3 w0); first [reflexivity|cbn; lia].
Defined.

Lemma batch_data_batch_sizes_witness :
  wf X5 /\ wf Y5 /\ shape0 X5 = shape0 Y5 /\ 0 < shape0 X5 /\ 0 < 2 /\
  exists L w',
    batch_data rev_shuffle tick_clock X5 Y5 2 3 w0 = Some (L, w') /\
    forall bs, In bs L ->
      map (fun bt => shape0 (fst bt)) bs
      = repeat 2 (shape0 X5 / 2 - 1) ++ [shape0 X5 mod 2] /\
      Forall (fun bt => wf (fst bt) /\ wf (snd bt) /\
                        shape0 (snd bt) = shape0 (fst bt) /\
                        shape1 (fst bt) = shape1 X5 /\ shape1 (snd bt) = shape1 Y5) bs.
Proof.
  split; [reflexivity|]. split; [reflexivity|]. split; [reflexivity|].
  split; [cbn; lia|]. split; [lia|].
  apply (@batch_data_batch_sizes unit rev_shuffle tick_clock rev_shuffle_perm
           X5 Y5 2 3 w0); first [reflexivity|cbn; lia].
Defined.

(** ** The forward pass through a stack of layers *)

Lemma wf_map_matrix (f : R -> R) (M : matrix) : wf M -> wf (map_matrix f M).
Proof.
  intros H. apply wf_intro; cbn [map_matrix rows shape0 shape1].
  - rewrite length_map. now apply wf_length.
  - intros r Hr. apply in_map_iff in Hr. destruct Hr as (r0 & <- & Hr0).
    rewrite length_map. apply In_nth with (d := []) in Hr0.
    destruct Hr0 as (i & Hi & <-). apply wf_row_length; [assumption|].
    now rewrite <- (wf_length H).
Qed.

(** One layer: it returns exactly when [chain_out] says so, with the
    shape [chain_out] gives, and its class and weights are kept. *)
Lemma Layer_forward_shape (l : Layer) (x : matrix) :
  wf x ->
  match chain_out [Layer_sig l] (shape1 x) with
  | Some c =>
      exists y l',
        Layer_forward l x = Some (y, l') /\
        wf y /\ shape0 y = shape0 x /\ shape1 y = c /\
        Layer_sig l' = Layer_sig l
  | None => Layer_forward l x = None
  end.
Proof.
  intros Hx. destruct l as [d|s|s]; cbn [chain_out Layer_sig Layer_forward].
  - unfold Dense.forward, dot.
    destruct (shape1 x =? shape0 (Dense.weights d)); cbn [bind_opt]; [|reflexivity].
    eexists _, _. split; [reflexivity|]. split; [apply wf_tabulate|].
    repeat split; reflexivity.
  - unfold Softplus.forward. cbn [bind_opt]. eexists _, _. split; [reflexivity|].
    split; [now apply wf_map_matrix|]. repeat split; reflexivity.
  - destruct (Nat.eqb_spec (shape1 x) 0) as [E|Hne].
    + unfold Softmax.forward, max_axis1. rewrite E. reflexivity.
    + assert (Hc : 0 < shape1 x) by lia.
      rewrite (Softmax_forward_eq s Hx Hc). cbn [bind_opt].
      eexists _, _. split; [reflexivity|]. split; [apply wf_tabulate|].
      repeat split; reflexivity.
Qed.

Lemma forward_layers_shape (ls : list Layer) :
  forall x, wf x ->
  match chain_out (map Layer_sig ls) (shape1 x) with
  | Some c =>
      exists out ls',
        forward_layers ls x = Some (out, ls') /\
        wf out /\ shape0 out = shape0 x /\ shape1 out = c /\
        map Layer_sig ls' = map Layer_sig ls
  | None => forward_layers ls x = None
  end.
Proof.
  induction ls as [|l ls IH]; intros x Hx; cbn [map chain_out forward_layers].
  - eexists _, _. split; [reflexivity|]. repeat split; auto.
  - pose proof (Layer_forward_shape l Hx) as Hl. cbn [chain_out] in Hl.
    assert (Hstep : forall c,
               (exists y l', Layer_forward l x = Some (y, l') /\ wf y /\
                             shape0 y = shape0 x /\ shape1 y = c /\
                             Layer_sig l' = Layer_sig l) ->
               match chain_out (map Layer_sig ls) c with
               | Some c' =>
                   exists out ls',
                     ('(y, l') <- Layer_forward l x ;;
                      '(out, rest') <- forward_layers ls y ;;
                      Some (out, l' :: rest'))%err = Some (out, ls') /\
                     wf out /\ shape0 out = shape0 x /\ shape1 out = c' /\
                     map Layer_sig ls' = Layer_sig l :: map Layer_sig ls
               | None =>
                   ('(y, l') <- Layer_forward l x ;;
                    '(out, rest') <- forward_layers ls y ;;
                    Some (out, l' :: rest'))%err = None
               end).
    { intros c (y & l' & Hf & Hy & H0 & H1 & Hs). rewrite Hf. cbn [bind_opt].
      specialize (IH y Hy). rewrite H1 in IH.
      destruct (chain_out (map Layer_sig ls) c) as [c'|].
      - destruct IH as (out & rest' & Hr & Ho & Ho0 & Ho1 & Hsr). rewrite Hr.
        cbn [bind_opt]. eexists _, _. split; [reflexivity|].
        cbn [map]. repeat split; congruence.
      - now rewrite IH. }
    destruct (Layer_sig l) as [r c| |]; cbn [chain_out] in *.
    + destruct (shape1 x =? r); [now apply Hstep|]. now rewrite Hl.
    + now apply Hstep.
    + destruct (shape1 x =? 0); [now rewrite Hl|]. now apply Hstep.
Qed.

(** X5: [Net.forward] on a batch raises exactly when, going through the
    layers, a [Dense] layer has another number of weight rows than the
    columns that reach it, or a [Softmax] layer is reached with no column.
    Otherwise it returns a matrix with one row per row of the batch and the
    number of columns the last layer produces, and leaves the classes and
    weight shapes of the layers as they were. *)
Theorem Net_forward_returns_exactly (self : Net) (batch : matrix) :
  wf batch ->
  match chain_out (map Layer_sig (layers self)) (shape1 batch) with
  | Some c =>
      exists out self',
        Net_forward self batch = Some (out, self') /\
        wf out /\ shape0 out = shape0 batch /\ shape1 out = c /\
        map Layer_sig (layers self') = map Layer_sig (layers self) /\
        map Layer_weights (layers self') = map Layer_weights (layers self)
  | None => Net_forward self batch = None
  end.
Proof.
  intros Hx. pose proof (forward_layers_shape (layers self) Hx) as H.
  unfold Net_forward.
  destruct (chain_out (map Layer_sig (layers self)) (shape1 batch)) as [c|].
  - destruct H as (out & ls' & Hf & Ho & H0 & H1 & Hs). rewrite Hf. cbn [bind_opt].
    eexists _, _. split; [reflexivity|]. cbn [layers set_layers].
    destruct (forward_layers_keeps _ _ Hf) as [_ Hw]. repeat split; assumption.
  - now rewrite H.
Qed.

Lemma forward_layers_app (l1 l2 : list Layer) :
  forall x,
    forward_layers (l1 ++ l2) x
    = ('(y, l1') <- forward_layers l1 x ;;
       '(out, l2') <- forward_layers l2 y ;;
       Some (out, l1' ++ l2'))%err.
Proof.
  induction l1 as [|l l1 IH]; intros x; cbn [app forward_layers bind_opt].
  - destruct (forward_layers l2 x) as [[out l2']|]; reflexivity.
  - destruct (Layer_forward l x) as [[y l']|]; cbn [bind_opt]; [|reflexivity].
    rewrite IH. destruct (forward_layers l1 y) as [[y1 l1']|]; cbn [bind_opt];
      [|reflexivity].
    destruct (forward_layers l2 y1) as [[out l2']|]; reflexivity.
Qed.

Lemma forward_layers_wf (ls : list Layer) (x out : matrix) (ls' : list Layer) :
  wf x -> forward_layers ls x = Some (out, ls') ->
  wf out /\ shape0 out = shape0 x.
Proof.
  intros Hx Hf. pose proof (forward_layers_shape ls Hx) as H.
  destruct (chain_out (map Layer_sig ls) (shape1 x)); [|congruence].
  destruct H as (o & l & Hf' & Ho & H0 & _). rewrite Hf in Hf'.
  inversion Hf'; subst. auto.
Qed.

(** ** What a training step keeps *)

Lemma same_frame_refl (a : Net) : same_frame a a.
Proof. unfold same_frame. repeat split; reflexivity. Qed.

Lemma same_frame_trans (a b c : Net) :
  same_frame a b -> same_frame b c -> same_frame a c.
Proof.
  unfold same_frame. intros (H1 & H2 & H3 & H4 & H5 & H6 & H7 & H8)
    (G1 & G2 & G3 & G4 & G5 & G6 & G7 & G8).
  repeat split; congruence.
Qed.

Lemma same_frame_set_layers (self : Net) (ls : list Layer) :
  map Layer_sig ls = map Layer_sig (layers self) ->
  same_frame (set_layers self ls) self.
Proof. intros H. unfold same_frame. cbn. repeat split; auto. Qed.

Lemma isub_shape (A B M : matrix) :
  isub A B = Some M -> shape0 M = shape0 A /\ shape1 M = shape1 A.
Proof.
  unfold isub. destruct (broadcast Rminus A B) as [M0|]; cbn [bind_opt]; [|discriminate].
  destruct (Nat.eqb_spec (shape0 M0) (shape0 A)); cbn [andb]; [|discriminate].
  destruct (Nat.eqb_spec (shape1 M0) (shape1 A)); [|discriminate].
  intros H. inversion H; subst. auto.
Qed.

(** [backward] never changes the class of a layer nor the shape of its
    weights: the in-place [-=] cannot resize an array. *)
Lemma Layer_backward_sig (l l' : Layer) (g g' : matrix) (rate : R) :
  Layer_backward l g rate = Some (g', l') -> Layer_sig l' = Layer_sig l.
Proof.
  destruct l as [d|s|s]; cbn [Layer_backward].
  - unfold Dense.backward.
    destruct (Dense.input d) as [inp|]; cbn [bind_opt]; [|discriminate].
    destruct (dot (transpose g) inp) as [dW0|]; cbn [bind_opt]; [|discriminate].
    destruct (dot g (transpose (Dense.weights d))) as [dZ|]; cbn [bind_opt];
      [|discriminate].
    destruct (isub (Dense.weights d) _) as [w|] eqn:Ei; cbn [bind_opt]; [|discriminate].
    intros H. inversion H; subst. cbn [Layer_sig Dense.weights].
    destruct (isub_shape _ _ Ei) as [-> ->]. reflexivity.
  - destruct (Softplus.backward s g rate) as [[g0 s0]|]; cbn [bind_opt]; [|discriminate].
    intros H. inversion H. reflexivity.
  - cbn. intros H. inversion H. reflexivity.
Qed.

Lemma backward_layers_sig (ls : list Layer) :
  forall g g' ls' rate,
    backward_layers ls g rate = Some (g', ls') ->
    map Layer_sig ls' = map Layer_sig ls.
Proof.
  induction ls as [|l ls IH]; intros g g' ls' rate H; cbn [backward_layers] in H.
  - inversion H. reflexivity.
  - destruct (Layer_backward l g rate) as [[g1 l1]|] eqn:El; cbn [bind_opt] in H;
      [|discriminate].
    destruct (backward_layers ls g1 rate) as [[g2 ls2]|] eqn:Er; cbn [bind_opt] in H;
      [|discriminate].
    inversion H; subst. cbn [map]. f_equal.
    + eapply Layer_backward_sig. exact El.
    + eapply IH. exact Er.
Qed.

Lemma Net_forward_frame (self self' : Net) (batch out : matrix) :
  Net_forward self batch = Some (out, self') -> same_frame self' self.
Proof.
  unfold Net_forward. destruct (forward_layers (layers self) batch) as [[o ls]|] eqn:E;
    cbn [bind_opt]; [|discriminate].
  intros H. inversion H; subst. apply same_frame_set_layers.
  destruct (forward_layers_keeps _ _ E) as [Hr _].
  assert (Hs : forall l, Layer_sig (Layer_reset l) = Layer_sig l)
    by (intros [d|s|s]; reflexivity).
  rewrite <- (map_ext _ _ Hs ls), <- (map_ext _ _ Hs (layers self)).
  rewrite <- !map_map with (f := Layer_reset) (g := Layer_sig). now rewrite Hr.
Qed.

Lemma Net_backward_frame (self self' : Net) (batch error : matrix) :
  Net_backward self batch error = Some self' -> same_frame self' self.
Proof.
  unfold Net_backward. destruct (shape0 batch =? 0); [discriminate|].
  destruct (backward_layers (rev (layers self)) _ (lr self)) as [[g ls]|] eqn:E;
    cbn [bind_opt]; [|discriminate].
  intros H. inversion H; subst. apply same_frame_set_layers.
  apply backward_layers_sig in E. rewrite !map_rev in *.
  rewrite E. apply rev_involutive.
Qed.

Section CyclesLoopInvariant.

Variable state : Type.
Variable accs : state -> list R.
Variable body : nat -> state -> option state.
Variable P : state -> Prop.

Hypothesis body_keeps : forall c s s', body c s = Some s' -> P s -> P s'.

(** What every pass keeps, the loop keeps. *)
Lemma cycles_loop_invariant (n : nat) :
  forall c s s', cycles_loop accs body n c s = Some s' -> P s -> P s'.
Proof.
  induction n as [|n IH]; intros c s s' H Hs; cbn [cycles_loop] in H.
  - inversion H; subst. exact Hs.
  - destruct ((0 <? c) && ge100 (last (accs s) 0%R)).
    + inversion H; subst. exact Hs.
    + destruct (body c s) as [s1|] eqn:Eb; cbn [bind_opt] in H; [|discriminate].
      eapply IH; [exact H|]. eapply body_keeps; eassumption.
Qed.

End CyclesLoopInvariant.

Section TrainingKeeps.

Variable rng : Type.
Variable rng_shuffle : rng -> list nat -> list nat * rng.
Variable clock : nat -> R.

Lemma train_batch_frame (cycle b : nat) (bt : batch) (s s' : batch_state rng) :
  train_batch clock cycle b bt s = Some s' -> same_frame (bs_net s') (bs_net s).
Proof.
  unfold train_batch. intros H.
  destruct (Net_forward (bs_net s) (fst bt)) as [[o n1]|] eqn:Ef.
  2:{ destruct ((cycle =? 0) && (b =? 13)); cbn [time_time bind_opt] in H; discriminate. }
  destruct (broadcast Rminus o (snd bt)) as [e|] eqn:Ee.
  2:{ destruct ((cycle =? 0) && (b =? 13)); cbn [time_time bind_opt] in H;
        rewrite ?Ee in H; discriminate. }
  destruct (Net_backward n1 (fst bt) e) as [n2|] eqn:Eb.
  2:{ destruct ((cycle =? 0) && (b =? 13)); cbn [time_time bind_opt] in H;
        rewrite ?Ee in H; cbn [bind_opt] in H; rewrite ?Eb in H; discriminate. }
  assert (Hn : bs_net s' = n2).
  { destruct ((cycle =? 0) && (b =? 13)); cbn [time_time bind_opt] in H;
      rewrite Ee in H; cbn [bind_opt] in H; rewrite Eb in H; cbn [bind_opt] in H;
      (destruct (argmax_axis1 o); cbn [bind_opt] in H; [|discriminate]);
      (destruct (argmax_axis1 (snd bt)); cbn [bind_opt] in H; [|discriminate]);
      (destruct (count_eq _ _); cbn [bind_opt] in H; [|discriminate]);
      (destruct (shape0 (fst bt) =? 0); [discriminate|]);
      inversion H; reflexivity. }
  rewrite Hn. eapply same_frame_trans.
  - eapply Net_backward_frame. exact Eb.
  - eapply Net_forward_frame. exact Ef.
Qed.

Lemma train_batches_from_frame (cycle : nat) (l : list batch) :
  forall b (s s' : batch_state rng),
    train_batches_from clock cycle b l s = Some s' ->
    same_frame (bs_net s') (bs_net s).
Proof.
  induction l as [|bt l IH]; intros b s s' H; cbn [train_batches_from] in H.
  - inversion H. apply same_frame_refl.
  - destruct (train_batch clock cycle b bt s) as [s1|] eqn:E; cbn [bind_opt] in H;
      [|discriminate].
    eapply same_frame_trans; [eapply IH; exact H|eapply train_batch_frame; exact E].
Qed.

Lemma train_cycle_frame (batches : list (list batch)) (bc cycle : nat)
    (s s' : train_state rng) :
  train_cycle clock batches bc cycle s = Some s' ->
  same_frame (ts_net s') (ts_net s).
Proof.
  unfold train_cycle. intros H.
  destruct (nth_error batches cycle) as [cur|]; cbn [bind_opt time_time] in H;
    [|discriminate].
  match type of H with
  | bind_opt ?c _ = _ => destruct c as [bs|] eqn:E; cbn [bind_opt] in H; [|discriminate]
  end.
  inversion H; subst. cbn [ts_net].
  apply train_batches_from_frame in E. exact E.
Qed.

(** X7: training changes weight values only.  When [Net.train] returns,
    the network has the same layers of the same classes with weight
    matrices of the same shapes as before, and its datasets and
    hyper-parameters are untouched. *)
Theorem Net_train_keeps_architecture (self : Net) (w : world rng)
    (res : train_result rng) :
  Net_train rng_shuffle clock self w = Some res ->
  same_frame (r_net res) self.
Proof.
  unfold Net_train. intros H.
  destruct (train_setup rng_shuffle clock self w) as [[[B bc] s0]|] eqn:Es;
    cbn [bind_opt] in H; [|discriminate].
  destruct (train_loop clock B bc (cycles self) 0 s0) as [s|] eqn:El;
    cbn [bind_opt] in H; [|discriminate].
  destruct (@train_setup_inv rng rng_shuffle clock self w B bc s0 Es)
    as (_ & _ & _ & Hn & _).
  assert (Hs : same_frame (ts_net s) self).
  { unfold train_loop in El.
    refine (@cycles_loop_invariant (train_state rng) (@ts_accs rng)
              (train_cycle clock B bc) (fun st => same_frame (ts_net st) self)
              _ (cycles self) 0 s0 s El _).
    - intros c s1 s2 Hc Hs1. eapply same_frame_trans; [|exact Hs1].
      eapply train_cycle_frame. exact Hc.
    - rewrite Hn. apply same_frame_refl. }
  unfold train_report in H. cbn [time_time] in H.
  destruct (nth_error _ _) in H; cbn [bind_opt] in H; [|discriminate].
  destruct (nth_error _ _) in H; cbn [bind_opt] in H; [|discriminate].
  inversion H; subst. exact Hs.
Qed.

End TrainingKeeps.

(** ** The backward pass after a forward pass *)

Lemma backward_layers_app (l1 l2 : list Layer) (rate : R) :
  forall g,
    backward_layers (l1 ++ l2) g rate
    = ('(g1, l1') <- backward_layers l1 g rate ;;
       '(g2, l2') <- backward_layers l2 g1 rate ;;
       Some (g2, l1' ++ l2'))%err.
Proof.
  induction l1 as [|l l1 IH]; intros g; cbn [app backward_layers bind_opt].
  - destruct (backward_layers l2 g rate) as [[g2 l2']|]; reflexivity.
  - destruct (Layer_backward l g rate) as [[g0 l']|]; cbn [bind_opt]; [|reflexivity].
    rewrite IH. destruct (backward_layers l1 g0 rate) as [[g1 l1']|]; cbn [bind_opt];
      [|reflexivity].
    destruct (backward_layers l2 g1 rate) as [[g2 l2']|]; reflexivity.
Qed.

(** A layer that has just run [forward] on [x] accepts any upstream
    gradient with the shape of its output, and hands down a gradient with
    the shape of [x]. *)
Lemma Layer_backward_after_forward (l l' : Layer) (x y g : matrix) (rate : R) :
  wf x ->
  Layer_forward l x = Some (y, l') ->
  shape0 g = shape0 y -> shape1 g = shape1 y ->
  exists g0 l'',
    Layer_backward l' g rate = Some (g0, l'') /\
    shape0 g0 = shape0 x /\ shape1 g0 = shape1 x.
Proof.
  intros Hx Hf H0 H1. destruct l as [d|s|s]; cbn [Layer_forward] in Hf.
  - destruct (Dense.forward d x) as [[y0 d']|] eqn:Ed; cbn [bind_opt] in Hf;
      [|discriminate].
    inversion Hf; subst y0 l'. clear Hf.
    destruct (@Dense_forward_inv d x y d' Ed) as [Hsx Hd'].
    assert (Hy : shape0 y = shape0 x /\ shape1 y = shape1 (Dense.weights d)).
    { unfold Dense.forward in Ed. rewrite dot_eq in Ed by assumption.
      cbn [bind_opt] in Ed. inversion Ed. split; reflexivity. }
    destruct Hy as [Hy0 Hy1].
    cbn [Layer_backward].
    rewrite (@Dense_backward_eq d x y d' g rate Ed) by congruence.
    cbn [bind_opt]. eexists _, _. split; [reflexivity|].
    cbn [shape0 shape1 tabulate]. split; congruence.
  - unfold Softplus.forward in Hf. cbn [bind_opt] in Hf. inversion Hf; subst. clear Hf.
    cbn [map_matrix shape0 shape1] in H0, H1.
    cbn [Layer_backward]. unfold Softplus.backward. cbn [Softplus.input bind_opt].
    rewrite broadcast_same by reflexivity. cbn [bind_opt].
    rewrite broadcast_same by (cbn [shape0 shape1 tabulate map_matrix]; assumption).
    cbn [bind_opt]. eexists _, _. split; [reflexivity|].
    cbn [shape0 shape1 tabulate map_matrix]. split; reflexivity.
  - destruct (Nat.eq_dec (shape1 x) 0) as [E0|Hne].
    { unfold Softmax.forward, max_axis1 in Hf. rewrite E0 in Hf. discriminate. }
    assert (Hc : 0 < shape1 x) by lia.
    rewrite (Softmax_forward_eq s Hx Hc) in Hf. cbn [bind_opt] in Hf.
    inversion Hf; subst. cbn [shape0 shape1 tabulate] in H0, H1.
    cbn. eexists _, _. split; [reflexivity|]. split; assumption.
Qed.

Lemma Layer_forward_wf (l l' : Layer) (x y : matrix) :
  wf x -> Layer_forward l x = Some (y, l') -> wf y.
Proof.
  intros Hx Hf. pose proof (Layer_forward_shape l Hx) as H.
  destruct (chain_out [Layer_sig l] (shape1 x)); [|congruence].
  destruct H as (y0 & l0 & Hf0 & Hy & _). rewrite Hf in Hf0. inversion Hf0; subst.
  exact Hy.
Qed.

Lemma backward_after_forward (rate : R) (ls : list Layer) :
  forall (x out : matrix) (ls' : list Layer),
    wf x ->
    forward_layers ls x = Some (out, ls') ->
    forall g, shape0 g = shape0 out -> shape1 g = shape1 out ->
    exists g0 ls'',
      backward_layers (rev ls') g rate = Some (g0, ls'') /\
      shape0 g0 = shape0 x /\ shape1 g0 = shape1 x.
Proof.
  induction ls as [|l ls IH]; intros x out ls' Hx Hf g H0 H1; cbn [forward_layers] in Hf.
  - inversion Hf; subst. cbn. eexists _, _. split; [reflexivity|]. auto.
  - destruct (Layer_forward l x) as [[y l1]|] eqn:El; cbn [bind_opt] in Hf;
      [|discriminate].
    destruct (forward_layers ls y) as [[o rest']|] eqn:Er; cbn [bind_opt] in Hf;
      [|discriminate].
    inversion Hf; subst o ls'. clear Hf.
    pose proof (@Layer_forward_wf l l1 x y Hx El) as Hy.
    destruct (IH y out rest' Hy Er g H0 H1) as (g1 & rs & Hb & Hg0 & Hg1).
    destruct (@Layer_backward_after_forward l l1 x y g1 rate Hx El Hg0 Hg1)
      as (g0 & l2 & Hl & Hs0 & Hs1).
    cbn [rev]. rewrite backward_layers_app, Hb. cbn [bind_opt backward_layers].
    rewrite Hl. cbn [bind_opt]. eexists _, _. split; [reflexivity|]. auto.
Qed.

(** [Net.backward] on the layers as a forward pass left them. *)
Lemma Net_backward_after_layers (self : Net) (ls : list Layer) (batch out error : matrix) :
  wf batch -> 0 < shape0 batch ->
  forward_layers (layers self) batch = Some (out, ls) ->
  shape0 error = shape0 out -> shape1 error = shape1 out ->
  exists net2, Net_backward (set_layers self ls) batch error = Some net2.
Proof.
  intros Hx Hm E H0 H1.
  destruct (@backward_after_forward (lr self) (layers self) batch out ls Hx E
              (map_matrix (fun e => (1 / INR (shape0 batch) * e)%R) error) H0 H1)
    as (g0 & ls2 & Hb & _).
  unfold Net_backward. destruct (Nat.eqb_spec (shape0 batch) 0); [lia|].
  cbn [layers set_layers lr]. rewrite Hb. cbn [bind_opt]. eauto.
Qed.

(** X8: after [Net.forward] has run on a batch with at least one row,
    [Net.backward] on the same batch returns for every error matrix that
    has the shape of the output: no shape error can arise inside the
    layers. *)
Theorem Net_backward_after_forward_returns (self net1 : Net) (batch out error : matrix) :
  wf batch -> 0 < shape0 batch ->
  Net_forward self batch = Some (out, net1) ->
  shape0 error = shape0 out -> shape1 error = shape1 out ->
  exists net2,
    Net_backward net1 batch error = Some net2 /\ same_frame net2 self.
Proof.
  intros Hx Hm Hf H0 H1.
  pose proof (@Net_forward_frame self net1 batch out Hf) as Hfr.
  unfold Net_forward in Hf.
  destruct (forward_layers (layers self) batch) as [[o ls]|] eqn:E; cbn [bind_opt] in Hf;
    [|discriminate].
  inversion Hf; subst o net1. clear Hf.
  destruct (@Net_backward_after_layers self ls batch out error Hx Hm E H0 H1)
    as [net2 Hr].
  exists net2. split; [exact Hr|].
  eapply same_frame_trans; [eapply Net_backward_frame; exact Hr|exact Hfr].
Qed.

(** ** Rounding *)

(** [rint] never crosses an integer. *)
Lemma rint_le (y : R) (n : Z) : (y <= IZR n)%R -> (rint y <= n)%Z.
Proof.
  intros Hy. unfold rint.
  destruct (base_Int_part y) as [Hlo Hhi].
  assert (Hf : (Int_part y <= n)%Z) by (apply le_IZR; lra).
  destruct (Rlt_dec (y - IZR (Int_part y)) (1 / 2)) as [|Hge]; [exact Hf|].
  assert (Hne : Int_part y <> n).
  { intros E. rewrite E in Hge. apply Hge. lra. }
  assert (Int_part y + 1 <= n)%Z by lia.
  destruct (Rlt_dec (1 / 2) (y - IZR (Int_part y))); [assumption|].
  destruct (Z.even (Int_part y)); lia.
Qed.

Lemma rint_ge (y : R) (n : Z) : (IZR n <= y)%R -> (n <= rint y)%Z.
Proof.
  intros Hy. unfold rint.
  destruct (base_Int_part y) as [Hlo Hhi].
  assert (Hf : (n <= Int_part y)%Z).
  { assert (n < Int_part y + 1)%Z; [|lia]. apply lt_IZR. rewrite plus_IZR. lra. }
  destruct (Rlt_dec (y - IZR (Int_part y)) (1 / 2)); [exact Hf|].
  destruct (Rlt_dec (1 / 2) (y - IZR (Int_part y))); [lia|].
  destruct (Z.even (Int_part y)); lia.
Qed.

(** Rounding to [d] decimals does not cross an integer. *)
Lemma around_ge (x : R) (d : nat) (lo : Z) :
  (IZR lo <= x)%R -> (IZR lo <= around x d)%R.
Proof.
  intros Hlo. unfold around.
  assert (Hp : (0 < 10 ^ d)%R) by (apply pow_lt; lra).
  assert (Hpz : (10 ^ d)%R = IZR (10 ^ Z.of_nat d)).
  { rewrite <- pow_IZR. reflexivity. }
  assert (H1 : (lo * 10 ^ Z.of_nat d <= rint (x * 10 ^ d))%Z).
  { apply rint_ge. rewrite mult_IZR, <- Hpz. nra. }
  apply IZR_le in H1. rewrite mult_IZR, <- Hpz in H1.
  apply Rmult_le_reg_r with (r := (10 ^ d)%R); [exact Hp|].
  unfold Rdiv. rewrite Rmult_assoc, Rinv_l by lra. lra.
Qed.

Lemma around_le (x : R) (d : nat) (hi : Z) :
  (x <= IZR hi)%R -> (around x d <= IZR hi)%R.
Proof.
  intros Hhi. unfold around.
  assert (Hp : (0 < 10 ^ d)%R) by (apply pow_lt; lra).
  assert (Hpz : (10 ^ d)%R = IZR (10 ^ Z.of_nat d)).
  { rewrite <- pow_IZR. reflexivity. }
  assert (H2 : (rint (x * 10 ^ d) <= hi * 10 ^ Z.of_nat d)%Z).
  { apply rint_le. rewrite mult_IZR, <- Hpz. nra. }
  apply IZR_le in H2. rewrite mult_IZR, <- Hpz in H2.
  apply Rmult_le_reg_r with (r := (10 ^ d)%R); [exact Hp|].
  unfold Rdiv. rewrite Rmult_assoc, Rinv_l by lra. lra.
Qed.

(** ** Accuracy and cost of a batch *)

Lemma argmax_axis1_length (M : matrix) (p : list nat) :
  argmax_axis1 M = Some p -> length p = length (rows M).
Proof.
  unfold argmax_axis1. destruct (shape1 M =? 0); [discriminate|].
  intros H. inversion H. apply length_map.
Qed.

Lemma count_eq_le (p t : list nat) (hits : nat) :
  length p = length t -> count_eq p t = Some hits -> hits <= length p.
Proof.
  intros Hl. unfold count_eq. rewrite Hl, Nat.eqb_refl. intros H. inversion H.
  eapply Nat.le_trans; [apply filter_length_le|].
  rewrite length_combine, Hl. lia.
Qed.

Lemma row_sum_nonneg (l : list R) :
  (forall x, In x l -> (0 <= x)%R) -> (0 <= row_sum l)%R.
Proof.
  unfold row_sum. induction l as [|x l IH]; intros H; cbn; [lra|].
  assert (0 <= x)%R by (apply H; now left).
  assert (0 <= fold_right Rplus 0 l)%R by (apply IH; intros; apply H; now right).
  lra.
Qed.

(** The mean of squares is not negative. *)
Lemma mean_squares_nonneg (M : matrix) :
  (0 <= mean (map_matrix (fun e => (e ^ 2)%R) M))%R.
Proof.
  unfold mean. cbn [map_matrix rows shape0 shape1].
  assert (Hs : (0 <= row_sum (map row_sum (map (map (fun e => (e ^ 2)%R)) (rows M))))%R).
  { apply row_sum_nonneg. intros x Hx. apply in_map_iff in Hx.
    destruct Hx as (r & <- & Hr). apply in_map_iff in Hr. destruct Hr as (r0 & <- & _).
    apply row_sum_nonneg. intros y Hy. apply in_map_iff in Hy.
    destruct Hy as (e & <- & _). apply pow2_ge_0. }
  destruct (Nat.eq_dec (shape0 M * shape1 M) 0) as [E|Hne].
  - rewrite E. cbn [INR]. unfold Rdiv. rewrite Rinv_0. lra.
  - apply Rmult_le_pos; [exact Hs|]. apply Rlt_le, Rinv_0_lt_compat.
    apply lt_0_INR. lia.
Qed.

Section TrainingBounds.

Variable rng : Type.
Variable rng_shuffle : rng -> list nat -> list nat * rng.
Variable clock : nat -> R.

(** The steps of one batch, read back from its result. *)
Lemma train_batch_inv (cycle b : nat) (bt : batch) (s s' : batch_state rng) :
  train_batch clock cycle b bt s = Some s' ->
  exists o n1 e n2 p t hits,
    Net_forward (bs_net s) (fst bt) = Some (o, n1) /\
    broadcast Rminus o (snd bt) = Some e /\
    Net_backward n1 (fst bt) e = Some n2 /\
    argmax_axis1 o = Some p /\
    argmax_axis1 (snd bt) = Some t /\
    count_eq p t = Some hits /\
    shape0 (fst bt) <> 0 /\
    bs_net s' = n2 /\
    bs_cost s' = (bs_cost s + mean (map_matrix (fun x => (x ^ 2)%R) e))%R /\
    bs_acc s' = (bs_acc s + INR hits / INR (shape0 (fst bt)))%R.
Proof.
  unfold train_batch.
  assert (Hgen : forall cs ts (w : world rng),
    ('(output, net1) <- Net_forward (bs_net s) (fst bt) ;;
     error <- broadcast Rminus output (snd bt) ;;
     net2 <- Net_backward net1 (fst bt) error ;;
     p <- argmax_axis1 output ;;
     t <- argmax_axis1 (snd bt) ;;
     hits <- count_eq p t ;;
     if shape0 (fst bt) =? 0 then None
     else
       Some {| bs_net := net2;
               bs_cost := (bs_cost s + mean (map_matrix (fun e => e ^ 2) error))%R;
               bs_acc := (bs_acc s + INR hits / INR (shape0 (fst bt)))%R;
               bs_cycle_start := cs;
               bs_train_start := ts;
               bs_world := w |})%err = Some s' ->
    exists o n1 e n2 p t hits,
      Net_forward (bs_net s) (fst bt) = Some (o, n1) /\
      broadcast Rminus o (snd bt) = Some e /\
      Net_backward n1 (fst bt) e = Some n2 /\
      argmax_axis1 o = Some p /\
      argmax_axis1 (snd bt) = Some t /\
      count_eq p t = Some hits /\
      shape0 (fst bt) <> 0 /\
      bs_net s' = n2 /\
      bs_cost s' = (bs_cost s + mean (map_matrix (fun x => (x ^ 2)%R) e))%R /\
      bs_acc s' = (bs_acc s + INR hits / INR (shape0 (fst bt)))%R).
  { intros cs ts w G.
    destruct (Net_forward (bs_net s) (fst bt)) as [[o n1]|] eqn:E1; cbn [bind_opt] in G;
      [|discriminate].
    destruct (broadcast Rminus o (snd bt)) as [e|] eqn:E2; cbn [bind_opt] in G;
      [|discriminate].
    destruct (Net_backward n1 (fst bt) e) as [n2|] eqn:E3; cbn [bind_opt] in G;
      [|discriminate].
    destruct (argmax_axis1 o) as [p|] eqn:E4; cbn [bind_opt] in G; [|discriminate].
    destruct (argmax_axis1 (snd bt)) as [t|] eqn:E5; cbn [bind_opt] in G;
      [|discriminate].
    destruct (count_eq p t) as [hits|] eqn:E6; cbn [bind_opt] in G; [|discriminate].
    destruct (Nat.eqb_spec (shape0 (fst bt)) 0) as [|Hne]; [discriminate|].
    injection G as G. rewrite <- G. cbn [bs_net bs_cost bs_acc].
    exists o, n1, e, n2, p, t, hits. repeat split; auto. }
  intros H.
  destruct ((cycle =? 0) && (b =? 13)); cbn [time_time] in H; eapply Hgen; exact H.
Qed.

(** On a batch with as many label rows as feature rows, the accuracy
    grows by a share between 0 and 1 and the cost does not decrease. *)
Lemma train_batch_bounds (cycle b : nat) (bt : batch) (s s' : batch_state rng) :
  wf (fst bt) -> wf (snd bt) -> shape0 (snd bt) = shape0 (fst bt) ->
  train_batch clock cycle b bt s = Some s' ->
  (bs_acc s <= bs_acc s' <= bs_acc s + 1)%R /\ (bs_cost s <= bs_cost s')%R.
Proof.
  intros Hx Hy Hxy H.
  destruct (train_batch_inv _ _ _ _ H)
    as (o & n1 & e & n2 & p & t & hits & Hf & He & Hb & Hp & Ht & Hh & Hne & _ & Hc & Ha).
  unfold Net_forward in Hf.
  destruct (forward_layers (layers (bs_net s)) (fst bt)) as [[o' ls]|] eqn:Ef;
    cbn [bind_opt] in Hf; [|discriminate].
  inversion Hf; subst o' n1. clear Hf.
  destruct (@forward_layers_wf (layers (bs_net s)) (fst bt) o ls Hx Ef) as [Ho Ho0].
  assert (Hlp : length p = shape0 (fst bt)).
  { rewrite (argmax_axis1_length _ Hp), (wf_length Ho). exact Ho0. }
  assert (Hlt : length t = shape0 (fst bt)).
  { rewrite (argmax_axis1_length _ Ht), (wf_length Hy). exact Hxy. }
  assert (Hhits : hits <= shape0 (fst bt)).
  { rewrite <- Hlp. apply (@count_eq_le p t hits); [congruence|exact Hh]. }
  assert (Hm : (0 < INR (shape0 (fst bt)))%R) by (apply lt_0_INR; lia).
  assert (Hq : (0 <= INR hits / INR (shape0 (fst bt)) <= 1)%R).
  { split.
    - apply Rmult_le_pos; [apply pos_INR|]. apply Rlt_le, Rinv_0_lt_compat. exact Hm.
    - apply Rmult_le_reg_r with (r := INR (shape0 (fst bt))); [exact Hm|].
      unfold Rdiv. rewrite Rmult_assoc, Rinv_l, Rmult_1_r, Rmult_1_l by lra.
      now apply le_INR. }
  rewrite Ha, Hc. pose proof (mean_squares_nonneg e). split; lra.
Qed.

Lemma train_batches_from_bounds (cycle : nat) (l : list batch) :
  Forall (fun bt => wf (fst bt) /\ wf (snd bt) /\ shape0 (snd bt) = shape0 (fst bt)) l ->
  forall b (s s' : batch_state rng),
    train_batches_from clock cycle b l s = Some s' ->
    (bs_acc s <= bs_acc s' <= bs_acc s + INR (length l))%R /\
    (bs_cost s <= bs_cost s')%R.
Proof.
  induction 1 as [|bt l (Hx & Hy & Hxy) _ IH]; intros b s s' H;
    cbn [train_batches_from] in H.
  - inversion H; subst. cbn [length INR]. split; lra.
  - destruct (train_batch clock cycle b bt s) as [s1|] eqn:E; cbn [bind_opt] in H;
      [|discriminate].
    destruct (@train_batch_bounds cycle b bt s s1 Hx Hy Hxy E) as [Ha Hc].
    destruct (IH _ _ _ H) as [Ha' Hc'].
    change (length (bt :: l)) with (S (length l)). rewrite S_INR.
    pose proof (pos_INR (length l)) as H0. cbv beta in *.
    destruct Ha as [Ha1 Ha2], Ha' as [Ha3 Ha4].
    repeat split; [lra| |lra].
    eapply Rle_trans; [exact Ha4|].
    rewrite (Rplus_comm _ 1), <- Rplus_assoc.
    apply Rplus_le_compat; [exact Ha2|apply Rle_refl].
Qed.

End TrainingBounds.


(** ** The loop over the cycles, again *)

Section CyclesLoopMore.

Variable state : Type.
Variable accs : state -> list R.
Variable body : nat -> state -> option state.

Hypothesis body_appends :
  forall c s s', body c s = Some s' -> exists a, accs s' = accs s ++ [a].

(** A loop that made fewer passes than it was allowed left through the
    [break]: the last accuracy is at least 100. *)
Lemma cycles_loop_stopped (n : nat) :
  forall c s s',
    cycles_loop accs body n c s = Some s' ->
    length (accs s') < length (accs s) + n ->
    (100 <= last (accs s') 0)%R.
Proof.
  induction n as [|n IH]; intros c s s' H Hl; cbn [cycles_loop] in H.
  - inversion H; subst. lia.
  - destruct ((0 <? c) && ge100 (last (accs s) 0%R)) eqn:Et.
    + inversion H; subst. apply andb_prop in Et. now apply ge100_true.
    + destruct (body c s) as [s1|] eqn:Eb; cbn [bind_opt] in H; [|discriminate].
      destruct (@body_appends _ _ _ Eb) as [a Ha].
      apply (IH _ _ _ H). rewrite Ha, length_app. cbn [length]. lia.
Qed.

(** Entered at cycle 0 with at least one pass allowed, the loop makes
    its first pass. *)
Lemma cycles_loop_first (n : nat) (s s' : state) :
  cycles_loop accs body (S n) 0 s = Some s' ->
  exists s1, body 0 s = Some s1 /\ cycles_loop accs body n 1 s1 = Some s'.
Proof.
  cbn [cycles_loop Nat.ltb Nat.leb andb]. intros H.
  destruct (body 0 s) as [s1|]; cbn [bind_opt] in H; [|discriminate].
  now exists s1.
Qed.

(** The loop returns when every pass it can make returns. *)
Lemma cycles_loop_total (P : state -> Prop) (bound : nat) :
  (forall c s, c < bound -> P s -> exists s', body c s = Some s' /\ P s') ->
  forall n c s, c + n <= bound -> P s ->
    exists s', cycles_loop accs body n c s = Some s'.
Proof.
  intros Hbody n. induction n as [|n IH]; intros c s Hc Hs; cbn [cycles_loop].
  - now exists s.
  - destruct ((0 <? c) && ge100 (last (accs s) 0%R)); [now exists s|].
    destruct (Hbody c s) as (s1 & Hb & Hs1); [lia|exact Hs|].
    rewrite Hb. cbn [bind_opt]. apply IH; [lia|exact Hs1].
Qed.

End CyclesLoopMore.

Lemma last_map (A B : Type) (f : A -> B) (l : list A) (d : A) (e : B) :
  l <> [] -> last (map f l) e = f (last l d).
Proof.
  induction l as [|x l IH]; [congruence|]. intros _.
  destruct l as [|y l]; [reflexivity|].
  change (last (map f (x :: y :: l)) e) with (last (map f (y :: l)) e).
  change (last (x :: y :: l) d) with (last (y :: l) d).
  apply IH. discriminate.
Qed.

(** ** [Net.train] as a whole *)

Section TrainingWhole.

Variable rng : Type.
Variable rng_shuffle : rng -> list nat -> list nat * rng.
Variable clock : nat -> R.

(** The steps of one cycle, read back from its result. *)
Lemma train_cycle_inv (B : list (list batch)) (bc cycle : nat)
    (s s' : train_state rng) :
  train_cycle clock B bc cycle s = Some s' ->
  exists (cur : list batch) (b0 b1 : batch_state rng),
    nth_error B cycle = Some cur /\
    bs_net b0 = ts_net s /\ bs_cost b0 = 0%R /\ bs_acc b0 = 0%R /\
    train_batches_from clock cycle 0 cur b0 = Some b1 /\
    ts_net s' = bs_net b1 /\
    ts_costs s' = ts_costs s ++ [(bs_cost b1 / INR bc)%R] /\
    ts_accs s' = ts_accs s ++ [(bs_acc b1 * 100 / INR bc)%R].
Proof.
  unfold train_cycle. intros H.
  destruct (nth_error B cycle) as [cur|]; cbn [bind_opt time_time] in H;
    [|discriminate].
  match type of H with
  | bind_opt (train_batches_from _ _ _ _ ?b) _ = _ =>
      destruct (train_batches_from clock cycle 0 cur b) as [b1|] eqn:E;
        cbn [bind_opt] in H; [|discriminate];
        exists cur, b, b1
  end.
  injection H as H. rewrite <- H. cbn [bs_net bs_cost bs_acc ts_net ts_costs ts_accs].
  repeat split; try reflexivity. exact E.
Qed.

(** What [Net.train] returns, read back from the state in which the
    loop was left. *)
Lemma train_report_inv (s : train_state rng) (res : train_result rng) :
  train_report clock s = Some res ->
  r_net res = ts_net s /\
  r_costs res = map (fun x => around x 5) (ts_costs s) /\
  r_accs res = map (fun x => around x 5) (ts_accs s) /\
  r_times res = map (fun x => around x 2) (ts_times s).
Proof.
  unfold train_report. cbn [time_time]. intros H.
  destruct (nth_error _ _) in H; cbn [bind_opt] in H; [|discriminate].
  destruct (nth_error _ _) in H; cbn [bind_opt] in H; [|discriminate].
  injection H as H. rewrite <- H. cbn. auto.
Qed.

Lemma Net_train_inv (self : Net) (w : world rng) (res : train_result rng) :
  Net_train rng_shuffle clock self w = Some res ->
  exists B bc s0 s,
    train_setup rng_shuffle clock self w = Some ((B, bc), s0) /\
    train_loop clock B bc (cycles self) 0 s0 = Some s /\
    train_report clock s = Some res.
Proof.
  unfold Net_train. intros H.
  destruct (train_setup rng_shuffle clock self w) as [[[B bc] s0]|] eqn:Es;
    cbn [bind_opt] in H; [|discriminate].
  destruct (train_loop clock B bc (cycles self) 0 s0) as [s|] eqn:El;
    cbn [bind_opt] in H; [|discriminate].
  now exists B, bc, s0, s.
Qed.

(** One cycle over valid batches records an accuracy between 0 and 100
    and, in exact arithmetic, a cost that is not negative. *)
Lemma train_cycle_bounds (X Y : matrix) (b n cycle : nat) (s s' : train_state rng) :
  wf X -> wf Y -> shape0 X = shape0 Y ->
  train_cycle clock (repeat (cycle_batches X Y b) n)
    (length (cycle_batches X Y b)) cycle s = Some s' ->
  exists c a,
    ts_costs s' = ts_costs s ++ [c] /\ ts_accs s' = ts_accs s ++ [a] /\
    (0 <= c)%R /\ (0 <= a <= 100)%R.
Proof.
  intros HX HY Hxy H.
  destruct (@train_cycle_inv _ _ _ _ _ H)
    as (cur & b0 & b1 & Hn & _ & Hc0 & Ha0 & Hb & _ & Hc & Ha).
  apply nth_error_In, repeat_spec in Hn. subst cur.
  assert (Hv : Forall (fun bt => wf (fst bt) /\ wf (snd bt) /\
                                 shape0 (snd bt) = shape0 (fst bt))
                 (cycle_batches X Y b)).
  { eapply Forall_impl; [|exact (@cycle_batches_valid X Y b HX HY Hxy)].
    intros bt (H1 & H2 & H3 & _). auto. }
  destruct (@train_batches_from_bounds rng clock cycle _ Hv 0 b0 b1 Hb) as [Hacc Hcost].
  rewrite Ha0 in Hacc. rewrite Hc0 in Hcost.
  set (k := length (cycle_batches X Y b)) in *.
  assert (Hk : 0 < k).
  { unfold k. rewrite cycle_batches_length. lia. }
  assert (HkR : (0 < INR k)%R) by (apply lt_0_INR; exact Hk).
  eexists _, _. split; [exact Hc|]. split; [exact Ha|].
  assert (Hi : (0 < / INR k)%R) by now apply Rinv_0_lt_compat.
  split; [|split].
  - apply Rmult_le_pos; lra.
  - apply Rmult_le_pos; lra.
  - apply Rmult_le_reg_r with (r := INR k); [exact HkR|].
    unfold Rdiv. rewrite Rmult_assoc, Rinv_l by lra. lra.
Qed.

Lemma train_loop_nonempty (B : list (list batch)) (bc n : nat)
    (s0 s : train_state rng) :
  train_loop clock B bc (S n) 0 s0 = Some s -> ts_accs s <> [].
Proof.
  unfold train_loop. intros H.
  apply cycles_loop_first in H. destruct H as (s1 & Hb & Hr).
  destruct (@train_cycle_appends rng clock _ _ _ _ _ Hb) as (c & a & t & _ & Ha & _).
  apply cycles_loop_run in Hr.
  - destruct Hr as (j & ext & _ & _ & He & _). rewrite He, Ha.
    intros E. apply app_eq_nil in E. destruct E as [E _].
    apply app_eq_nil in E. destruct E as [_ E]. discriminate.
  - intros cy s2 s3 Hc.
    destruct (@train_cycle_appends rng clock _ _ _ _ _ Hc) as (c0 & a0 & t0 & _ & Ha0 & _). eauto.
Qed.

(** X9: the accuracies [Net.train] returns are percentages.  With as
    many label rows as feature rows, every accuracy in the history it
    returns lies between 0 and 100, whatever the weights. *)
Theorem Net_train_history_bounds (self : Net) (w : world rng)
    (res : train_result rng) :
  wf (train_x self) -> wf (train_y self) ->
  shape0 (train_x self) = shape0 (train_y self) ->
  Net_train rng_shuffle clock self w = Some res ->
  Forall (fun a => (0 <= a <= 100)%R) (r_accs res).
Proof.
  intros HX HY Hxy H.
  destruct (@Net_train_inv _ _ _ H) as (B & bc & s0 & s & Es & El & Er).
  destruct (@train_setup_inv rng rng_shuffle clock self w B bc s0 Es)
    as (HB & _ & Hbc & _ & Hc0 & Ha0 & _).
  subst B bc.
  assert (Hs : Forall (fun a => (0 <= a <= 100)%R) (ts_accs s) /\
               Forall (fun c => (0 <= c)%R) (ts_costs s)).
  { unfold train_loop in El.
    refine (@cycles_loop_invariant (train_state rng) (@ts_accs rng) _
              (fun st => Forall (fun a => (0 <= a <= 100)%R) (ts_accs st) /\
                         Forall (fun c => (0 <= c)%R) (ts_costs st))
              _ (cycles self) 0 s0 s El _).
    - intros cy s1 s2 Hc [Hs1 Hs2].
      destruct (@train_cycle_bounds _ _ _ _ cy s1 s2 HX HY Hxy Hc)
        as (c & a & Ec & Ea & Hcb & Hab).
      rewrite Ec, Ea. split; apply Forall_app; split; auto.
    - rewrite Hc0, Ha0. split; constructor. }
  destruct (@train_report_inv _ _ Er) as (_ & _ & Hra & _).
  rewrite Hra. destruct Hs as [Hs1 _].
  apply Forall_map. eapply Forall_impl; [|exact Hs1]. cbv beta. intros a [Hlo Hhi].
  split; [apply (@around_ge a 5 0 Hlo)|apply (@around_le a 5 100 Hhi)].
Qed.

(** X10: the three histories [Net.train] returns have the same length,
    between 1 and [cycles]; when it is less than [cycles], training was
    cut short by the accuracy test, and the last accuracy returned is at
    least 100; no accuracy before the last exceeds 100. *)
Theorem Net_train_history_lengths (self : Net) (w : world rng)
    (res : train_result rng) :
  Net_train rng_shuffle clock self w = Some res ->
  exists j,
    1 <= j <= cycles self /\
    length (r_costs res) = j /\ length (r_accs res) = j /\
    length (r_times res) = j /\
    (j < cycles self -> (100 <= last (r_accs res) 0)%R) /\
    (forall i, i + 1 < j -> (nth i (r_accs res) 0 <= 100)%R).
Proof.
  intros H.
  destruct (@Net_train_inv _ _ _ H) as (B & bc & s0 & s & Es & El & Er).
  destruct (@train_setup_inv rng rng_shuffle clock self w B bc s0 Es)
    as (_ & Hcy & _ & _ & Hc0 & Ha0 & Ht0).
  destruct (@train_report_inv _ _ Er) as (_ & Hrc & Hra & Hrt).
  assert (Hne : ts_accs s <> []).
  { destruct (cycles self) as [|n]; [lia|]. eapply train_loop_nonempty. exact El. }
  destruct (@train_loop_run rng clock B bc _ _ _ _ El)
    as (j & ext & Hj & Hl & Hacc & Hcl & Htl & Hlow & _).
  rewrite Ha0 in Hacc. cbn [app] in Hacc.
  rewrite Hc0 in Hcl. rewrite Ht0 in Htl. cbn [length Nat.add] in Hcl, Htl.
  exists j. split.
  { split; [|exact Hj]. destruct j; [|lia].
    destruct ext; [|discriminate]. congruence. }
  rewrite Hrc, Hra, Hrt, !length_map, Hacc. repeat split; try assumption.
  - intros Hlt. rewrite <- Hacc.
    rewrite (@last_map R R (fun x => around x 5) (ts_accs s) 0%R 0%R Hne).
    apply (@around_ge _ 5 100).
    unfold train_loop in El.
    refine (@cycles_loop_stopped (train_state rng) (@ts_accs rng)
              (train_cycle clock B bc) _ (cycles self) 0 s0 s El _).
    + intros cy s1 s2 Hc.
      destruct (@train_cycle_appends rng clock _ _ _ _ _ Hc)
        as (c0 & a0 & t0 & _ & Ea & _). eauto.
    + rewrite Hacc, Ha0, Hl. cbn [length]. lia.
  - intros i Hi.
    assert (E0 : around 0 5 = 0%R).
    { apply Rle_antisym; [apply (@around_le 0 5 0)|apply (@around_ge 0 5 0)]; lra. }
    assert (En : nth i (map (fun x => around x 5) ext) 0%R = around (nth i ext 0%R) 5).
    { rewrite <- E0 at 1. apply (map_nth (fun x => around x 5) ext 0%R i). }
    rewrite En. apply (@around_le _ 5 100). apply Rlt_le, Hlow. exact Hi.
Qed.

End TrainingWhole.


(** ** When [Net.train] returns and when it raises *)

(** Every batch of a cycle has a row when the batch size does not divide
    the number of rows. *)
Lemma cycle_batches_nonempty (X Y : matrix) (b : nat) :
  wf X -> 0 < b -> shape0 X mod b <> 0 ->
  Forall (fun bt => 0 < shape0 (fst bt)) (cycle_batches X Y b).
Proof.
  intros HX Hb Hmod. apply Forall_forall. intros bt Hin.
  apply In_nth_error in Hin. destruct Hin as [i Hi].
  assert (Hlt : i < length (cycle_batches X Y b)).
  { apply (proj1 (nth_error_Some (cycle_batches X Y b) i)). intros E.
    assert (E' : Some bt = None) by (etransitivity; [symmetry; exact Hi|exact E]).
    discriminate E'. }
  rewrite cycle_batches_length in Hlt.
  destruct (Nat.lt_ge_cases i (shape0 X / b - 1)) as [Hreg|Hlast].
  - destruct (@cycle_batches_regular X Y b i HX Hb Hreg) as [Hn Hs].
    assert (E : Some bt = Some (slice X (i * b) ((i + 1) * b),
                                slice Y (i * b) ((i + 1) * b)))
      by (etransitivity; [symmetry; exact Hi|exact Hn]).
    injection E as ->. cbn [fst]. lia.
  - assert (i = shape0 X / b - 1) by lia. subst i.
    destruct (@cycle_batches_last X Y b HX Hb) as [Hn Hs].
    assert (E : Some bt = Some (slice_from X (shape0 X / b * b),
                                slice_from Y (shape0 X / b * b)))
      by (etransitivity; [symmetry; exact Hi|exact Hn]).
    injection E as ->. cbn [fst]. lia.
Qed.

Section TrainingReturns.

Variable rng : Type.
Variable rng_shuffle : rng -> list nat -> list nat * rng.
Variable clock : nat -> R.

(** [blas.random.shuffle] rearranges the array it is given. *)
Hypothesis rng_shuffle_perm :
  forall g l, Permutation l (fst (rng_shuffle g l)).

(** A batch that fits the network is processed without an error. *)
Lemma train_batch_total (cycle b : nat) (bt : batch) (s : batch_state rng) :
  wf (fst bt) -> wf (snd bt) ->
  shape0 (snd bt) = shape0 (fst bt) -> 0 < shape0 (fst bt) ->
  chain_out (map Layer_sig (layers (bs_net s))) (shape1 (fst bt))
  = Some (shape1 (snd bt)) ->
  0 < shape1 (snd bt) ->
  exists s', train_batch clock cycle b bt s = Some s'.
Proof.
  intros Hx Hy Hxy Hm Hch Hc.
  pose proof (@forward_layers_shape (layers (bs_net s)) (fst bt) Hx) as Hf.
  rewrite Hch in Hf. destruct Hf as (out & ls & Hf & Ho & Ho0 & Ho1 & _).
  assert (HF : Net_forward (bs_net s) (fst bt) = Some (out, set_layers (bs_net s) ls)).
  { unfold Net_forward. rewrite Hf. reflexivity. }
  assert (HE : broadcast Rminus out (snd bt)
               = Some (tabulate (shape0 out) (shape1 out)
                         (fun i j => (get out i j - get (snd bt) i j)%R))).
  { apply broadcast_same; congruence. }
  destruct (@Net_backward_after_layers (bs_net s) ls (fst bt) out
              (tabulate (shape0 out) (shape1 out)
                 (fun i j => (get out i j - get (snd bt) i j)%R))
              Hx Hm Hf eq_refl eq_refl) as (net2 & HB).
  assert (HP : argmax_axis1 out = Some (map row_argmax (rows out))).
  { unfold argmax_axis1. destruct (Nat.eqb_spec (shape1 out) 0); [lia|reflexivity]. }
  assert (HT : argmax_axis1 (snd bt) = Some (map row_argmax (rows (snd bt)))).
  { unfold argmax_axis1. destruct (Nat.eqb_spec (shape1 (snd bt)) 0); [lia|reflexivity]. }
  assert (HC : exists hits,
             count_eq (map row_argmax (rows out)) (map row_argmax (rows (snd bt)))
             = Some hits).
  { unfold count_eq. rewrite !length_map, (wf_length Ho), (wf_length Hy), Ho0, Hxy,
      Nat.eqb_refl. eauto. }
  destruct HC as [hits HC].
  destruct (@train_batch_returns rng clock cycle b bt s out _ net2 _ _ _ hits
              HF HE HB HP HT HC) as (s' & Hs' & _); [lia|].
  now exists s'.
Qed.

Lemma train_batches_from_total (cycle c : nat) (l : list batch) :
  Forall (fun bt => wf (fst bt) /\ wf (snd bt) /\
                    shape0 (snd bt) = shape0 (fst bt) /\ 0 < shape0 (fst bt) /\
                    shape1 (snd bt) = c) l ->
  0 < c ->
  forall (n : nat) b (s : batch_state rng),
    Forall (fun bt => shape1 (fst bt) = n) l ->
    chain_out (map Layer_sig (layers (bs_net s))) n = Some c ->
    exists s', train_batches_from clock cycle b l s = Some s'.
Proof.
  intros Hl Hc n. induction Hl as [|bt l (Hx & Hy & Hxy & Hm & Hyc) _ IH];
    intros b s Hn Hch; cbn [train_batches_from].
  - now exists s.
  - inversion Hn as [|? ? Hbn Hrest]; subst.
    destruct (@train_batch_total cycle b bt s Hx Hy Hxy Hm) as [s1 Hs1];
      [congruence|congruence|].
    rewrite Hs1. cbn [bind_opt]. apply IH; [exact Hrest|].
    destruct (@train_batch_frame rng clock cycle b bt s s1 Hs1) as [Hsig _].
    now rewrite Hsig.
Qed.

(** When the data fit the network, the setup and the loop over the
    cycles of [Net.train] raise nothing: what is left is the report on the
    state in which the loop ends, with at least one accuracy recorded. *)
Lemma Net_train_reaches_report (self : Net) (w : world rng) :
  wf (train_x self) -> wf (train_y self) ->
  shape0 (train_x self) = shape0 (train_y self) ->
  chain_out (map Layer_sig (layers self)) (shape1 (train_x self))
  = Some (shape1 (train_y self)) ->
  0 < shape1 (train_y self) ->
  0 < cycles self -> 0 < batch_size self ->
  shape0 (train_x self) mod batch_size self <> 0 ->
  exists s,
    ts_accs s <> [] /\
    Net_train rng_shuffle clock self w = train_report clock s.
Proof.
  intros HX HY Hxy Hch Hc Hcy Hb Hmod.
  set (X := train_x self) in *. set (Y := train_y self) in *.
  set (bsz := batch_size self) in *.
  assert (Hrows : 0 < shape0 X).
  { destruct (shape0 X) as [|k] eqn:E; [|lia].
    exfalso. apply Hmod. apply Nat.Div0.mod_0_l. }
  destruct (@batch_data_returns rng rng_shuffle clock rng_shuffle_perm X Y bsz
              (cycles self) w Hb Hrows) as [w1 Hbd]; [lia|].
  assert (Hlen : 0 < length (cycle_batches X Y bsz)).
  { rewrite cycle_batches_length. lia. }
  assert (Hsetup : exists s0,
             train_setup rng_shuffle clock self w
             = Some ((repeat (cycle_batches X Y bsz) (cycles self),
                      length (cycle_batches X Y bsz)), s0) /\
             ts_net s0 = self).
  { unfold train_setup. fold X Y bsz. rewrite Hbd. cbn [bind_opt].
    destruct (cycles self) as [|n]; [lia|]. cbn [repeat].
    change (nth_error (?a :: ?l) 0) with (Some a). cbn [bind_opt].
    destruct (nth_error (cycle_batches X Y bsz) 0) eqn:E0.
    2:{ apply nth_error_None in E0. lia. }
    cbn [bind_opt time_time]. eexists. split; reflexivity. }
  destruct Hsetup as (s0 & Hs0 & Hn0).
  assert (Hvalid : Forall (fun bt => wf (fst bt) /\ wf (snd bt) /\
                     shape0 (snd bt) = shape0 (fst bt) /\ 0 < shape0 (fst bt) /\
                     shape1 (snd bt) = shape1 Y) (cycle_batches X Y bsz)).
  { pose proof (@cycle_batches_valid X Y bsz HX HY Hxy) as H1.
    pose proof (@cycle_batches_nonempty X Y bsz HX Hb Hmod) as H2.
    rewrite Forall_forall in *. intros bt Hin.
    destruct (H1 bt Hin) as (A1 & A2 & A3 & _ & A5). specialize (H2 bt Hin). auto. }
  assert (Hcols : Forall (fun bt => shape1 (fst bt) = shape1 X) (cycle_batches X Y bsz)).
  { eapply Forall_impl; [|exact (@cycle_batches_valid X Y bsz HX HY Hxy)].
    intros bt (_ & _ & _ & A4 & _). exact A4. }
  assert (Hloop : exists s,
             train_loop clock (repeat (cycle_batches X Y bsz) (cycles self))
               (length (cycle_batches X Y bsz)) (cycles self) 0 s0 = Some s).
  { unfold train_loop.
    refine (@cycles_loop_total (train_state rng) (@ts_accs rng) _
              (fun st => same_frame (ts_net st) self) (cycles self) _
              (cycles self) 0 s0 _ _).
    - intros cy st Hlt Hst.
      assert (Hn : nth_error (repeat (cycle_batches X Y bsz) (cycles self)) cy
                   = Some (cycle_batches X Y bsz)).
      { rewrite nth_error_repeat by exact Hlt. reflexivity. }
      match goal with
      | |- exists s', train_cycle ?c ?B ?k cy st = Some s' /\ _ =>
          assert (Hex : exists s', train_cycle c B k cy st = Some s')
      end.
      { unfold train_cycle. rewrite Hn. cbn [bind_opt time_time].
        match goal with
        | |- exists s', bind_opt (train_batches_from _ _ _ _ ?b0) _ = _ =>
            destruct (@train_batches_from_total cy (shape1 Y) _ Hvalid Hc
                        (shape1 X) 0 b0 Hcols) as [b1 Hb1]
        end.
        - cbn [bs_net]. destruct Hst as [Hsig _]. now rewrite Hsig.
        - rewrite Hb1. cbn [bind_opt]. eauto. }
      destruct Hex as [s' Hs']. exists s'. split; [exact Hs'|].
      eapply same_frame_trans; [|exact Hst].
      eapply train_cycle_frame. exact Hs'.
    - lia.
    - rewrite Hn0. apply same_frame_refl. }
  destruct Hloop as [s Hs].
  assert (Hne : ts_accs s <> []).
  { destruct (cycles self) as [|n] eqn:En; [lia|].
    eapply train_loop_nonempty. exact Hs. }
  exists s. split; [exact Hne|].
  unfold Net_train. rewrite Hs0. cbn [bind_opt]. rewrite Hs. reflexivity.
Qed.

(** X11: [Net.train] returns when the data fit the network: feature and
    label matrices with the same number of rows, layers that chain from
    the feature columns to the label columns, at least one cycle, and a
    positive batch size that does not divide the number of rows. *)
Theorem Net_train_returns (self : Net) (w : world rng) :
  wf (train_x self) -> wf (train_y self) ->
  shape0 (train_x self) = shape0 (train_y self) ->
  chain_out (map Layer_sig (layers self)) (shape1 (train_x self))
  = Some (shape1 (train_y self)) ->
  0 < shape1 (train_y self) ->
  0 < cycles self -> 0 < batch_size self ->
  shape0 (train_x self) mod batch_size self <> 0 ->
  exists res, Net_train rng_shuffle clock self w = Some res.
Proof.
  intros HX HY Hxy Hch Hc Hcy Hb Hmod.
  destruct (@Net_train_reaches_report self w HX HY Hxy Hch Hc Hcy Hb Hmod)
    as (s & Hne & Hrep).
  destruct (@train_report_returns rng clock s Hne) as (res & Hres & _).
  exists res. now rewrite Hrep.
Qed.

End TrainingReturns.

Section TrainingRaises.

Variable rng : Type.
Variable rng_shuffle : rng -> list nat -> list nat * rng.
Variable clock : nat -> R.

(** X12: [Net.train] raises when it is asked for no cycle, when the
    batch size is zero, and whenever the batch size divides the number of
    training rows: the last batch of a cycle is then empty (for a
    dataset without rows [shuffle] raises before any batch is made). *)
Theorem Net_train_raises (self : Net) (w : world rng) :
  wf (train_x self) ->
  cycles self = 0 \/ batch_size self = 0 \/
  shape0 (train_x self) mod batch_size self = 0 ->
  Net_train rng_shuffle clock self w = None.
Proof.
  intros HX Hcase. unfold Net_train.
  destruct (train_setup rng_shuffle clock self w) as [[[B bc] s0]|] eqn:Es;
    cbn [bind_opt]; [|reflexivity].
  destruct (@train_setup_inv rng rng_shuffle clock self w B bc s0 Es) as (HB & Hc & _).
  assert (Hb : 0 < batch_size self).
  { unfold train_setup in Es.
    destruct (batch_data rng_shuffle clock (train_x self) (train_y self)
                (batch_size self) (cycles self) w) as [[L w1]|] eqn:Eb;
      cbn [bind_opt] in Es; [|discriminate].
    destruct (batch_size self) as [|k] eqn:Ek; [|lia].
    unfold batch_data in Eb. cbn [time_time] in Eb.
    destruct (cycles self) as [|n]; [lia|].
    cbn [batch_data_loop] in Eb.
    destruct (shuffle _ _ _ _) as [[[sx sy] w2]|] in Eb; cbn [bind_opt] in Eb;
      discriminate. }
  destruct Hcase as [H0|[H0|Hmod]]; [lia|lia|].
  destruct (cycles self) as [|n]; [lia|]. subst B.
  unfold train_loop. cbn [cycles_loop Nat.ltb Nat.leb andb].
  unfold train_cycle. cbn [repeat].
  change (nth_error (?a :: ?l) 0) with (Some a). cbn [bind_opt time_time].
  unfold cycle_batches at 1.
  rewrite train_batches_from_empty_raises; [reflexivity|].
  cbn [fst]. destruct (@cycle_batches_last (train_x self) (train_y self)
                         (batch_size self) HX Hb) as [_ Hl].
  now rewrite Hl.
Qed.

End TrainingRaises.


(** ** The further properties at concrete inputs *)

(** Training [net0] returns: the first cycle reaches an accuracy of 100
    and the second is not run. *)
Lemma net0_train_returns :
  exists res, Net_train rev_shuffle tick_clock net0 w0 = Some res.
Proof.
  destruct net0_first_cycle as (batches & s0 & s1 & Hsetup & Hcycle & Ha0 & Ha1).
  assert (Hne : ts_accs s1 <> []) by (rewrite Ha1; discriminate).
  destruct (@train_report_returns unit tick_clock s1 Hne) as (res & Hres & _).
  exists res. unfold Net_train. rewrite Hsetup. cbn [bind_opt].
  unfold train_loop. cbn [cycles net0 cycles_loop Nat.ltb Nat.leb andb].
  rewrite Hcycle. cbn [bind_opt]. rewrite Ha1. cbn [last].
  rewrite (proj2 (ge100_true ((0 + 1) * 100 / 1))) by lra.
  cbn [bind_opt]. exact Hres.
Qed.

Lemma Net_forward_returns_exactly_witness :
  wf X1 /\
  exists out self',
    Net_forward net0 X1 = Some (out, self') /\
    wf out /\ shape0 out = shape0 X1 /\ shape1 out = 10 /\
    map Layer_sig (layers self') = map Layer_sig (layers net0) /\
    map Layer_weights (layers self') = map Layer_weights (layers net0).
Proof.
  split; [reflexivity|].
  exact (@Net_forward_returns_exactly net0 X1 eq_refl).
Defined.

Lemma Net_train_keeps_architecture_witness :
  exists res,
    Net_train rev_shuffle tick_clock net0 w0 = Some res /\
    same_frame (r_net res) net0.
Proof.
  destruct net0_train_returns as [res Hres]. exists res. split; [exact Hres|].
  exact (@Net_train_keeps_architecture unit rev_shuffle tick_clock net0 w0 res Hres).
Defined.

Lemma Net_backward_after_forward_returns_witness :
  wf X1 /\ 0 < shape0 X1 /\
  exists out net1,
    Net_forward net0 X1 = Some (out, net1) /\
    exists net2,
      Net_backward net1 X1 out = Some net2 /\ same_frame net2 net0.
Proof.
  split; [reflexivity|]. split; [cbn; lia|].
  eexists _, _. split; [reflexivity|].
  refine (@Net_backward_after_forward_returns net0 _ X1 _ _ eq_refl _ eq_refl
            eq_refl eq_refl).
  cbn. lia.
Defined.

Lemma Net_train_history_bounds_witness :
  wf (train_x net0) /\ wf (train_y net0) /\
  shape0 (train_x net0) = shape0 (train_y net0) /\
  exists res,
    Net_train rev_shuffle tick_clock net0 w0 = Some res /\
    Forall (fun a => (0 <= a <= 100)%R) (r_accs res).
Proof.
  split; [reflexivity|]. split; [reflexivity|]. split; [reflexivity|].
  destruct net0_train_returns as [res Hres]. exists res. split; [exact Hres|].
  exact (@Net_train_history_bounds unit rev_shuffle tick_clock net0 w0 res
           eq_refl eq_refl eq_refl Hres).
Defined.

Lemma Net_train_history_lengths_witness :
  exists res,
    Net_train rev_shuffle tick_clock net0 w0 = Some res /\
    exists j,
      1 <= j <= cycles net0 /\
      length (r_costs res) = j /\ length (r_accs res) = j /\
      length (r_times res) = j /\
      (j < cycles net0 -> (100 <= last (r_accs res) 0)%R) /\
      (forall i, i + 1 < j -> (nth i (r_accs res) 0 <= 100)%R).
Proof.
  destruct net0_train_returns as [res Hres]. exists res. split; [exact Hres|].
  exact (@Net_train_history_lengths unit rev_shuffle tick_clock net0 w0 res Hres).
Defined.

Lemma Net_train_returns_witness :
  wf (train_x net0) /\ wf (train_y net0) /\
  shape0 (train_x net0) = shape0 (train_y net0) /\
  chain_out (map Layer_sig (layers net0)) (shape1 (train_x net0))
  = Some (shape1 (train_y net0)) /\
  0 < shape1 (train_y net0) /\ 0 < cycles net0 /\ 0 < batch_size net0 /\
  shape0 (train_x net0) mod batch_size net0 <> 0 /\
  exists res, Net_train rev_shuffle tick_clock net0 w0 = Some res.
Proof.
  split; [reflexivity|]. split; [reflexivity|]. split; [reflexivity|].
  split; [reflexivity|]. split; [cbn; lia|]. split; [cbn; lia|].
  split; [cbn; lia|]. split; [cbn; lia|].
  apply (@Net_train_returns unit rev_shuffle tick_clock rev_shuffle_perm net0 w0);
    try reflexivity; cbn; lia.
Defined.

Lemma Net_train_raises_witness :
  wf (train_x (set_batch_size net0 1)) /\
  shape0 (train_x (set_batch_size net0 1)) mod batch_size (set_batch_size net0 1) = 0 /\
  Net_train rev_shuffle tick_clock (set_batch_size net0 1) w0 = None.
Proof.
  split; [reflexivity|]. split; [reflexivity|].
  apply (@Net_train_raises unit rev_shuffle tick_clock (set_batch_size net0 1) w0);
    [reflexivity|]. right. right. reflexivity.
Defined.


(** ** [Net.test] *)

(** X13: the accuracy [Net.test] returns lies between 0 and 100 when the
    test set has as many label rows as feature rows. *)
Theorem Net_test_accuracy_bounds (self self' : Net) (acc : R) (output : matrix) :
  wf (test_x self) -> wf (test_y self) ->
  shape0 (test_y self) = shape0 (test_x self) ->
  Net_test self = Some ((acc, output), self') ->
  (0 <= acc <= 100)%R.
Proof.
  intros Hx Hy Hxy. unfold Net_test, Net_forward. intros H.
  destruct (forward_layers (layers self) (test_x self)) as [[o ls]|] eqn:Ef;
    cbn [bind_opt] in H; [|discriminate].
  destruct (argmax_axis1 o) as [p|] eqn:Ep; cbn [bind_opt] in H; [|discriminate].
  destruct (argmax_axis1 (test_y self)) as [t|] eqn:Et; cbn [bind_opt] in H;
    [|discriminate].
  destruct (count_eq p t) as [hits|] eqn:Eh; cbn [bind_opt] in H; [|discriminate].
  destruct (Nat.eqb_spec (shape0 (test_x self)) 0) as [|Hne]; [discriminate|].
  injection H as Ha _ _.
  destruct (@forward_layers_wf (layers self) (test_x self) o ls Hx Ef) as [Ho Ho0].
  assert (Hlp : length p = shape0 (test_x self)).
  { rewrite (argmax_axis1_length _ Ep), (wf_length Ho). exact Ho0. }
  assert (Hlt : length t = shape0 (test_x self)).
  { rewrite (argmax_axis1_length _ Et), (wf_length Hy). exact Hxy. }
  assert (Hhits : hits <= shape0 (test_x self)).
  { rewrite <- Hlp. apply (@count_eq_le p t hits); [congruence|exact Eh]. }
  assert (Hm : (0 < INR (shape0 (test_x self)))%R) by (apply lt_0_INR; lia).
  assert (Hi : (0 < / INR (shape0 (test_x self)))%R) by now apply Rinv_0_lt_compat.
  pose proof (pos_INR hits) as Hh0. apply le_INR in Hhits.
  rewrite <- Ha. split.
  - apply (@around_ge _ 5 0). apply Rmult_le_pos; [lra|lra].
  - apply (@around_le _ 5 100).
    apply Rmult_le_reg_r with (r := INR (shape0 (test_x self))); [exact Hm|].
    unfold Rdiv. rewrite Rmult_assoc, Rinv_l by lra. lra.
Qed.

Lemma Net_test_accuracy_bounds_witness :
  wf (test_x net0) /\ wf (test_y net0) /\
  shape0 (test_y net0) = shape0 (test_x net0) /\
  exists acc output self',
    Net_test net0 = Some ((acc, output), self') /\ (0 <= acc <= 100)%R.
Proof.
  split; [reflexivity|]. split; [reflexivity|]. split; [reflexivity|].
  eexists _, _, _. split; [reflexivity|].
  refine (@Net_test_accuracy_bounds net0 _ _ _ eq_refl eq_refl eq_refl _).
  reflexivity.
Defined.


(** ** The two programs compute the same predictions *)

(** The hidden part of [layers_of_weights]. *)
Lemma layers_of_weights_app (hs : list matrix) (wl : matrix) :
  layers_of_weights (hs ++ [wl])
  = concat (map (fun w =>
                   [LDense {| Dense.weights := w; Dense.input := None;
                              Dense.output := None |};
                    LSoftplus {| Softplus.input := None; Softplus.output := None |}])
                hs)
    ++ [LDense {| Dense.weights := wl; Dense.input := None; Dense.output := None |};
        LSoftmax {| Softmax.input := None; Softmax.output := None |}].
Proof.
  induction hs as [|w hs IH]; [reflexivity|].
  change ((w :: hs) ++ [wl]) with (w :: (hs ++ [wl])).
  cbn [layers_of_weights map concat app].
  destruct (hs ++ [wl]) as [|w' rest] eqn:E.
  - destruct hs; discriminate.
  - rewrite <- IH. reflexivity.
Qed.

(** The loop of [forward] walks through the hidden layers as
    [Net.forward] does: [cur] is the matrix the next layer receives. *)
Lemma Procedural_forward_loop_layers (input : matrix) (hs : list matrix) :
  forall (i : nat) (outs : list (matrix * matrix)) (cur : matrix),
    (if i =? 0 then cur = input else exists Z, last_opt outs = Some (Z, cur)) ->
    match forward_layers
            (concat (map (fun w =>
               [LDense {| Dense.weights := w; Dense.input := None;
                          Dense.output := None |};
                LSoftplus {| Softplus.input := None; Softplus.output := None |}])
               hs)) cur with
    | Some (y, _) =>
        exists outs',
          Procedural.forward_loop input i hs outs = Some outs' /\
          match hs with
          | [] => outs' = outs /\ y = cur
          | _ :: _ => exists Z, last_opt outs' = Some (Z, y)
          end
    | None => Procedural.forward_loop input i hs outs = None
    end.
Proof.
  induction hs as [|w hs IH]; intros i outs cur Hcur.
  - cbn [map concat forward_layers Procedural.forward_loop]. eauto.
  - cbn [map concat app forward_layers Layer_forward Procedural.forward_loop].
    assert (Hd : (if i =? 0 then dot input w
                  else (l <- last_opt outs ;; dot (snd l) w)%err) = dot cur w).
    { destruct (i =? 0); [now subst|]. destruct Hcur as [Z ->]. reflexivity. }
    rewrite Hd. unfold Dense.forward. cbn [Dense.weights].
    destruct (dot cur w) as [Z|]; cbn [bind_opt]; [|reflexivity].
    unfold Softplus.forward. cbn [bind_opt].
    specialize (IH (S i) (outs ++ [(Z, map_matrix (fun x => ln (1 + exp x)) Z)])
                  (map_matrix (fun x => ln (1 + exp x)) Z)).
    cbn [Nat.eqb] in IH.
    assert (Hl : exists Z0, last_opt (outs ++ [(Z, map_matrix (fun x => ln (1 + exp x)) Z)])
                            = Some (Z0, map_matrix (fun x => ln (1 + exp x)) Z)).
    { exists Z. apply last_opt_app. }
    specialize (IH Hl).
    destruct (forward_layers _ (map_matrix (fun x => ln (1 + exp x)) Z))
      as [[y ls]|]; cbn [bind_opt]; [|exact IH].
    destruct IH as (outs' & Hr & Hlast). exists outs'. split; [exact Hr|].
    destruct hs as [|w' hs'].
    + destruct Hlast as [-> ->]. exact Hl.
    + exact Hlast.
Qed.

(** The predictions of [forward] are the output of [Net.forward] on the
    network that holds the same weights. *)
Lemma Procedural_forward_last (x : matrix) (ws : list matrix) :
  2 <= length ws ->
  (outputs <- Procedural.forward x ws ;;
   l <- last_opt outputs ;;
   Some (snd l))%err
  = option_map fst (forward_layers (layers_of_weights ws) x).
Proof.
  intros Hlen.
  destruct (@exists_last _ ws) as (hs & wl & ->); [destruct ws; [cbn in Hlen; lia|discriminate]|].
  assert (Hhs : hs <> []).
  { intros ->. cbn in Hlen. lia. }
  rewrite layers_of_weights_app, forward_layers_app.
  unfold Procedural.forward. rewrite removelast_last.
  pose proof (@Procedural_forward_loop_layers x hs 0 [] x eq_refl) as H.
  destruct (forward_layers _ x) as [[y ls]|]; cbn [bind_opt].
  - destruct H as (outs & Hr & Hlast). rewrite Hr. cbn [bind_opt].
    destruct hs as [|w hs']; [congruence|]. destruct Hlast as [Z Hlast].
    rewrite Hlast. cbn [bind_opt snd]. rewrite last_opt_app. cbn [bind_opt].
    cbn [forward_layers Layer_forward]. unfold Dense.forward. cbn [Dense.weights].
    destruct (dot y wl) as [ZF|]; cbn [bind_opt option_map]; [|reflexivity].
    rewrite (Procedural_softmax_eq {| Softmax.input := None; Softmax.output := None |}).
    destruct (Softmax.forward _ ZF) as [[AF s']|]; cbn [bind_opt option_map fst];
      [|reflexivity].
    rewrite last_opt_app. reflexivity.
  - rewrite H. reflexivity.
Qed.

(** X14: [forward] of the procedural program and [Net.forward] agree.
    With at least two weight matrices, [forward(x, weights)] raises exactly
    when [Net.forward] raises on a network holding the same weights
    (whatever its layers have cached), and otherwise its last activation
    is the matrix [Net.forward] returns. *)
Theorem Procedural_forward_agrees (x : matrix) (ws : list matrix) (self : Net) :
  2 <= length ws ->
  map Layer_reset (layers self) = layers_of_weights ws ->
  (outputs <- Procedural.forward x ws ;;
   l <- last_opt outputs ;;
   Some (snd l))%err
  = option_map fst (Net_forward self x).
Proof.
  intros Hlen Hl. rewrite (@Procedural_forward_last x ws Hlen).
  unfold Net_forward. rewrite <- (forward_layers_reset (layers self)), Hl.
  destruct (forward_layers (layers_of_weights ws) x) as [[o ls]|]; reflexivity.
Qed.

(** X15: [forward] needs a hidden layer: with fewer than two weight
    matrices it raises on every input (the loop leaves [outputs] empty and
    [outputs[-1]] fails), although a network of one [Dense] and one
    [Softmax] layer is accepted by [Net.forward]. *)
Theorem Procedural_forward_needs_hidden_layer (x : matrix) (ws : list matrix) :
  length ws < 2 -> Procedural.forward x ws = None.
Proof.
  intros Hlen. destruct ws as [|w [|w' ws]]; [reflexivity|reflexivity|].
  cbn [length] in Hlen. lia.
Qed.

(** X16: [test] of the procedural program returns the accuracy and the
    predictions that [Net.test] returns for the network holding the same
    weights and the same test set, and raises when [Net.test] raises. *)
Theorem Procedural_test_agrees (x y : matrix) (ws : list matrix) (self : Net) :
  2 <= length ws ->
  map Layer_reset (layers self) = layers_of_weights ws ->
  test_x self = x -> test_y self = y ->
  Procedural.test x y ws = option_map fst (Net_test self).
Proof.
  intros Hlen Hl Hx Hy. pose proof (@Procedural_forward_last x ws Hlen) as H.
  unfold Procedural.test, Net_test, Net_forward.
  rewrite Hx, Hy, <- (forward_layers_reset (layers self)), Hl.
  destruct (Procedural.forward x ws) as [outputs|]; cbn [bind_opt] in H |- *.
  - destruct (last_opt outputs) as [l|]; cbn [bind_opt] in H |- *.
    + destruct (forward_layers (layers_of_weights ws) x) as [[o ls]|];
        cbn [option_map fst] in H; [|discriminate].
      injection H as ->. cbn [bind_opt].
      destruct (argmax_axis1 o) as [p|]; cbn [bind_opt]; [|reflexivity].
      destruct (argmax_axis1 y) as [t|]; cbn [bind_opt]; [|reflexivity].
      destruct (count_eq p t) as [hits|]; cbn [bind_opt]; [|reflexivity].
      destruct (shape0 x =? 0); reflexivity.
    + destruct (forward_layers (layers_of_weights ws) x) as [[o ls]|];
        cbn [option_map fst] in H; [discriminate|]. reflexivity.
  - destruct (forward_layers (layers_of_weights ws) x) as [[o ls]|];
      cbn [option_map fst] in H; [discriminate|]. reflexivity.
Qed.


Lemma Procedural_forward_agrees_witness :
  2 <= length ws0 /\ map Layer_reset (layers net0) = layers_of_weights ws0 /\
  (outputs <- Procedural.forward X1 ws0 ;;
   l <- last_opt outputs ;;
   Some (snd l))%err
  = option_map fst (Net_forward net0 X1).
Proof.
  split; [cbn; lia|]. split; [reflexivity|].
  apply (@Procedural_forward_agrees X1 ws0 net0); [cbn; lia|reflexivity].
Defined.

Lemma Procedural_forward_needs_hidden_layer_witness :
  length [zeros 1 10] < 2 /\ Procedural.forward X1 [zeros 1 10] = None.
Proof.
  split; [cbn; lia|].
  apply (@Procedural_forward_needs_hidden_layer X1 [zeros 1 10]). cbn [length]. lia.
Defined.

Lemma Procedural_test_agrees_witness :
  2 <= length ws0 /\ map Layer_reset (layers net0) = layers_of_weights ws0 /\
  test_x net0 = X1 /\ test_y net0 = Y1 /\
  Procedural.test X1 Y1 ws0 = option_map fst (Net_test net0).
Proof.
  split; [cbn; lia|]. split; [reflexivity|]. split; [reflexivity|].
  split; [reflexivity|].
  apply (@Procedural_test_agrees X1 Y1 ws0 net0); first [reflexivity|cbn; lia].
Defined.

(** ** Building the network object *)

Lemma chain_out_init_sigs (sizes : list nat) :
  forall n, chain_out (init_sigs n sizes) n = Some 10.
Proof.
  induction sizes as [|h rest IH]; intros n; cbn [init_sigs chain_out].
  - rewrite Nat.eqb_refl. reflexivity.
  - rewrite Nat.eqb_refl. apply IH.
Qed.

Lemma nth_error_last (A : Type) (l : list A) (d : A) :
  l <> [] -> nth_error l (length l - 1) = Some (last l d).
Proof.
  intros Hne. destruct (@exists_last _ l Hne) as (l' & x & ->).
  rewrite length_app, last_last. cbn [length].
  rewrite nth_error_app2 by lia.
  replace (length l' + 1 - 1 - length l') with 0 by lia. reflexivity.
Qed.

Section InitFacts.

Variable rng : Type.
Variable rng_randn : rng -> nat -> nat -> matrix * rng.

(** [Dense([w0, w1])] raises exactly on a zero [w0]. *)
Lemma Dense_init_zero (w1 : nat) (w : world rng) :
  Dense_init rng_randn 0 w1 w = None.
Proof.
  unfold Dense_init. destruct (rng_randn (gen w) 0 w1). reflexivity.
Qed.

Lemma Dense_init_returns (w0 w1 : nat) (w : world rng) :
  0 < w0 ->
  exists d w',
    Dense_init rng_randn w0 w1 w = Some (d, w') /\
    Dense.weights d
    = map_matrix (fun x => (x * sqrt (2 / INR w0))%R) (fst (rng_randn (gen w) w0 w1)) /\
    Dense.input d = None /\ Dense.output d = None.
Proof.
  intros Hw. unfold Dense_init. destruct (rng_randn (gen w) w0 w1) as [m g].
  destruct (Nat.eqb_spec w0 0); [lia|]. eexists _, _. split; [reflexivity|].
  cbn. auto.
Qed.

(** The loop of [init_layers], entered after the widths [pre] have been
    used: it raises when there is no width at all, when the width that
    feeds the next layer is zero, or when a width still to come is. *)
Lemma init_layers_loop_raises (n : nat) (post : list nat) :
  forall (pre : list nat) (init : list Layer) (w : world rng),
    pre ++ post = [] \/ last pre n = 0 \/ In 0 post ->
    init_layers_loop rng_randn n (pre ++ post) (length post + 1) (length pre) init w
    = None.
Proof.
  induction post as [|h rest IH]; intros pre init w Hcase.
  - rewrite app_nil_r in *. cbn [length Nat.add init_layers_loop].
    rewrite Nat.ltb_irrefl.
    destruct pre as [|p pre'].
    + reflexivity.
    + unfold last_opt. rewrite (@nth_error_last _ (p :: pre') n) by discriminate.
      cbn [bind_opt].
      destruct Hcase as [H|[H|H]]; [discriminate| |contradiction].
      rewrite H, Dense_init_zero. reflexivity.
  - cbn [length Nat.add init_layers_loop].
    assert (Hlt : (length pre <? length (pre ++ h :: rest)) = true).
    { apply Nat.ltb_lt. rewrite length_app. cbn [length]. lia. }
    rewrite Hlt.
    assert (Hn : nth_error (pre ++ h :: rest) (length pre) = Some h).
    { rewrite nth_error_app2 by lia. rewrite Nat.sub_diag. reflexivity. }
    rewrite Hn. cbn [bind_opt].
    assert (Hin : (if length pre =? 0 then Some n
                   else nth_error (pre ++ h :: rest) (length pre - 1))
                  = Some (last pre n)).
    { destruct pre as [|p pre']; [reflexivity|].
      replace (length (p :: pre') =? 0) with false by reflexivity.
      rewrite nth_error_app1 by (cbn [length]; lia).
      apply nth_error_last. discriminate. }
    rewrite Hin. cbn [bind_opt].
    destruct (Nat.eq_dec (last pre n) 0) as [E|Hne].
    + rewrite E, Dense_init_zero. reflexivity.
    + destruct (@Dense_init_returns (last pre n) h w) as (d & w1 & Hd & _); [lia|].
      rewrite Hd. cbn [bind_opt].
      specialize (IH (pre ++ [h])
                    (init ++ [LDense d;
                              LSoftplus {| Softplus.input := None;
                                           Softplus.output := None |}]) w1).
      rewrite <- app_assoc, length_app in IH. cbn [app length] in IH.
      replace (length pre + 1) with (S (length pre)) in IH by lia.
      replace (length rest + 1) with (S (length rest)) in IH by lia.
      cbn [init_layers_loop] in IH |- *.
      replace (length rest + 1) with (S (length rest)) by lia.
      cbn [init_layers_loop]. apply IH.
      rewrite last_last.
      destruct Hcase as [H|[H|[H|H]]].
      * destruct pre; discriminate.
      * lia.
      * now right; left.
      * now right; right.
Qed.

(** Otherwise the loop appends the layers that [init_sigs] describes,
    all without cached matrices. *)
Lemma init_layers_loop_returns (n : nat) (post : list nat) :
  forall (pre : list nat) (init : list Layer) (w : world rng),
    pre ++ post <> [] -> 0 < last pre n -> Forall (fun h => 0 < h) post ->
    exists ls w',
      init_layers_loop rng_randn n (pre ++ post) (length post + 1) (length pre) init w
      = Some (init ++ ls, w') /\
      ticks w' = ticks w /\
      map Layer_reset ls = ls /\
      (exists ls0 d s, ls = ls0 ++ [LDense d; LSoftmax s]) /\
      ((forall g r c, shape0 (fst (rng_randn g r c)) = r /\
                      shape1 (fst (rng_randn g r c)) = c) ->
       map Layer_sig ls = init_sigs (last pre n) post).
Proof.
  induction post as [|h rest IH]; intros pre init w Hne Hprev Hpos.
  - rewrite app_nil_r in *. cbn [length Nat.add init_layers_loop].
    rewrite Nat.ltb_irrefl.
    unfold last_opt. rewrite (@nth_error_last _ pre n) by exact Hne.
    cbn [bind_opt].
    destruct (@Dense_init_returns (last pre n) 10 w Hprev) as (d & w1 & Hd & Hw & Hi & Ho).
    rewrite Hd. cbn [bind_opt].
    eexists _, _. split; [reflexivity|]. split.
    { unfold Dense_init in Hd. destruct (rng_randn (gen w) (last pre n) 10).
      destruct (last pre n =? 0); [discriminate|]. now inversion Hd. }
    split.
    { cbn [map Layer_reset]. destruct d as [dw di do]. cbn in Hi, Ho. subst.
      reflexivity. }
    split; [now exists [], d, {| Softmax.input := None; Softmax.output := None |}|].
    intros Hshape. cbn [map Layer_sig init_sigs]. rewrite Hw.
    cbn [map_matrix shape0 shape1].
    destruct (Hshape (gen w) (last pre n) 10) as [-> ->]. reflexivity.
  - cbn [length Nat.add init_layers_loop].
    assert (Hlt : (length pre <? length (pre ++ h :: rest)) = true).
    { apply Nat.ltb_lt. rewrite length_app. cbn [length]. lia. }
    rewrite Hlt.
    assert (Hn : nth_error (pre ++ h :: rest) (length pre) = Some h).
    { rewrite nth_error_app2 by lia. rewrite Nat.sub_diag. reflexivity. }
    rewrite Hn. cbn [bind_opt].
    assert (Hin : (if length pre =? 0 then Some n
                   else nth_error (pre ++ h :: rest) (length pre - 1))
                  = Some (last pre n)).
    { destruct pre as [|p pre']; [reflexivity|].
      replace (length (p :: pre') =? 0) with false by reflexivity.
      rewrite nth_error_app1 by (cbn [length]; lia).
      apply nth_error_last. discriminate. }
    rewrite Hin. cbn [bind_opt].
    destruct (@Dense_init_returns (last pre n) h w Hprev) as (d & w1 & Hd & Hw & Hi & Ho).
    rewrite Hd. cbn [bind_opt].
    inversion Hpos as [|? ? Hh Hrest]; subst.
    specialize (IH (pre ++ [h])
                  (init ++ [LDense d;
                            LSoftplus {| Softplus.input := None;
                                         Softplus.output := None |}]) w1).
    rewrite <- app_assoc, length_app, last_last in IH. cbn [app length] in IH.
    replace (length pre + 1) with (S (length pre)) in IH by lia.
    destruct IH as (ls & w' & Hr & Ht & Hfresh & (ls0 & d0 & s0 & Hend) & Hsig);
      [destruct pre; discriminate|exact Hh|exact Hrest|].
    replace (length rest + 1) with (S (length rest)) in Hr |- * by lia.
    rewrite Hr.
    exists (LDense d :: LSoftplus {| Softplus.input := None; Softplus.output := None |}
              :: ls), w'.
    split; [now rewrite <- app_assoc|]. split.
    { rewrite Ht. unfold Dense_init in Hd. destruct (rng_randn (gen w) (last pre n) h).
      destruct (last pre n =? 0); [discriminate|]. now inversion Hd. }
    split.
    { cbn [map Layer_reset]. rewrite Hfresh. destruct d as [dw di do].
      cbn in Hi, Ho. subst. reflexivity. }
    split.
    { exists (LDense d :: LSoftplus {| Softplus.input := None; Softplus.output := None |}
                :: ls0), d0, s0.
      rewrite Hend. reflexivity. }
    intros Hshape. cbn [map Layer_sig init_sigs]. rewrite (Hsig Hshape), Hw.
    cbn [map_matrix shape0 shape1].
    destruct (Hshape (gen w) (last pre n) h) as [-> ->]. reflexivity.
Qed.

End InitFacts.


Section InitTheorems.

Variable rng : Type.
Variable rng_shuffle : rng -> list nat -> list nat * rng.
Variable rng_randn : rng -> nat -> nat -> matrix * rng.
Variable clock : nat -> R.

(** What [Net(...)] returns when the widths are usable. *)
Lemma Net_init_returns (X Y x y : matrix) (sizes : list nat) (cy : nat) (rate : R)
    (b : nat) (w : world rng) :
  sizes <> [] -> 0 < shape1 X -> Forall (fun h => 0 < h) sizes ->
  exists ls w',
    Net_init rng_randn X Y x y sizes cy rate b w
    = Some ({| train_x := X; train_y := Y; test_x := x; test_y := y;
               layers := ls; cycles := cy; lr := rate; batch_size := b |}, w') /\
    ticks w' = ticks w /\
    map Layer_reset ls = ls /\
    (exists ls0 d s, ls = ls0 ++ [LDense d; LSoftmax s]) /\
    ((forall g r c, shape0 (fst (rng_randn g r c)) = r /\
                    shape1 (fst (rng_randn g r c)) = c) ->
     map Layer_sig ls = init_sigs (shape1 X) sizes).
Proof.
  intros Hne Hn Hpos.
  destruct (@init_layers_loop_returns rng rng_randn (shape1 X) sizes [] [] w
              Hne Hn Hpos) as (ls & w' & Hr & Ht & Hfresh & Hend & Hsig).
  exists ls, w'. unfold Net_init, init_layers.
  cbn [app length] in Hr. rewrite Hr. cbn [bind_opt]. auto.
Qed.

(** X17: [Net(...)] raises when no hidden width is given ([layers[-1]]
    on an empty list), when the training matrix has no column, and when a
    hidden width is zero (the scale [2.0/w0] of a [Dense] layer). *)
Theorem Net_init_raises (X Y x y : matrix) (sizes : list nat) (cy : nat) (rate : R)
    (b : nat) (w : world rng) :
  sizes = [] \/ shape1 X = 0 \/ In 0 sizes ->
  Net_init rng_randn X Y x y sizes cy rate b w = None.
Proof.
  intros Hcase. unfold Net_init, init_layers.
  pose proof (@init_layers_loop_raises rng rng_randn (shape1 X) sizes [] [] w) as H.
  cbn [app length last] in H. rewrite H; [reflexivity|]. exact Hcase.
Qed.

(** X18: with at least one hidden width, all widths positive and a
    training matrix with columns, [Net(...)] returns a network that stores
    its arguments and whose layers are [Dense], [Softplus], ..., [Dense],
    [Softmax], the weights chaining from the columns of the training
    matrix through the hidden widths to 10 classes. *)
Theorem Net_init_builds_chain (X Y x y : matrix) (sizes : list nat) (cy : nat)
    (rate : R) (b : nat) (w : world rng) :
  (forall g r c, shape0 (fst (rng_randn g r c)) = r /\
                 shape1 (fst (rng_randn g r c)) = c) ->
  sizes <> [] -> 0 < shape1 X -> Forall (fun h => 0 < h) sizes ->
  exists net w',
    Net_init rng_randn X Y x y sizes cy rate b w = Some (net, w') /\
    train_x net = X /\ train_y net = Y /\ test_x net = x /\ test_y net = y /\
    cycles net = cy /\ lr net = rate /\ batch_size net = b /\
    map Layer_sig (layers net) = init_sigs (shape1 X) sizes /\
    length (layers net) = 2 * (length sizes + 1) /\
    chain_out (map Layer_sig (layers net)) (shape1 X) = Some 10.
Proof.
  intros Hshape Hne Hn Hpos.
  destruct (@Net_init_returns X Y x y sizes cy rate b w Hne Hn Hpos)
    as (ls & w' & Hr & _ & _ & _ & Hsig).
  specialize (Hsig Hshape).
  eexists _, _. split; [exact Hr|]. cbn [train_x train_y test_x test_y cycles lr
                                         batch_size layers].
  repeat split; try reflexivity.
  - exact Hsig.
  - rewrite <- (length_map Layer_sig), Hsig. clear.
    generalize (shape1 X). induction sizes as [|h rest IH]; intros n; [reflexivity|].
    cbn [init_sigs length]. rewrite IH. lia.
  - rewrite Hsig. apply chain_out_init_sigs.
Qed.

(** X19: on a network as [Net(...)] returns it, [Net.backward] raises
    whatever the batch and the error: no layer has a cached input before
    the first [Net.forward]. *)
Theorem Net_backward_before_forward_raises (X Y x y : matrix) (sizes : list nat)
    (cy : nat) (rate : R) (b : nat) (w w' : world rng) (net : Net)
    (batch error : matrix) :
  Net_init rng_randn X Y x y sizes cy rate b w = Some (net, w') ->
  Net_backward net batch error = None.
Proof.
  intros Hinit.
  assert (Hne : sizes <> []).
  { intros E. rewrite (@Net_init_raises X Y x y sizes cy rate b w) in Hinit;
      [discriminate|now left]. }
  assert (Hn : 0 < shape1 X).
  { destruct (Nat.eq_dec (shape1 X) 0) as [E|]; [|lia].
    rewrite (@Net_init_raises X Y x y sizes cy rate b w) in Hinit;
      [discriminate|now right; left]. }
  assert (Hpos : Forall (fun h => 0 < h) sizes).
  { apply Forall_forall. intros h Hin. destruct (Nat.eq_dec h 0) as [E|]; [|lia].
    subst h. rewrite (@Net_init_raises X Y x y sizes cy rate b w) in Hinit;
      [discriminate|now right; right]. }
  destruct (@Net_init_returns X Y x y sizes cy rate b w Hne Hn Hpos)
    as (ls & w1 & Hr & _ & Hfresh & (ls0 & d & s & Hend) & _).
  rewrite Hr in Hinit. injection Hinit as <- _.
  unfold Net_backward. cbn [layers lr].
  destruct (shape0 batch =? 0); [reflexivity|].
  subst ls. rewrite rev_app_distr. cbn [rev app backward_layers Layer_backward].
  unfold Softmax.backward. cbn [bind_opt].
  assert (Hd : Dense.input d = None).
  { apply (f_equal (@rev Layer)) in Hfresh.
    rewrite map_app, !rev_app_distr in Hfresh.
    cbn [map rev app Layer_reset] in Hfresh.
    injection Hfresh as _ E _. rewrite <- E. reflexivity. }
  unfold Dense.backward. rewrite Hd. reflexivity.
Qed.

End InitTheorems.


Section InitAndTrain.

Variable rng : Type.
Variable rng_shuffle : rng -> list nat -> list nat * rng.
Variable rng_randn : rng -> nat -> nat -> matrix * rng.
Variable clock : nat -> R.

(** X20: a network built by [Net(...)] can be trained at once.  With
    usable widths, labels in 10 columns, as many label rows as feature
    rows, at least one cycle and a batch size that does not divide the
    number of rows, [Net(...)] followed by [Net.train] returns. *)
Theorem Net_init_then_train_returns (X Y x y : matrix) (sizes : list nat) (cy : nat)
    (rate : R) (b : nat) (w : world rng) :
  (forall g r c, shape0 (fst (rng_randn g r c)) = r /\
                 shape1 (fst (rng_randn g r c)) = c) ->
  (forall g l, Permutation l (fst (rng_shuffle g l))) ->
  wf X -> wf Y -> shape0 X = shape0 Y -> shape1 Y = 10 ->
  sizes <> [] -> 0 < shape1 X -> Forall (fun h => 0 < h) sizes ->
  0 < cy -> 0 < b -> shape0 X mod b <> 0 ->
  exists net w' res,
    Net_init rng_randn X Y x y sizes cy rate b w = Some (net, w') /\
    Net_train rng_shuffle clock net w' = Some res.
Proof.
  intros Hshape Hperm HX HY Hxy Hy10 Hne Hn Hpos Hcy Hb Hmod.
  destruct (@Net_init_returns rng rng_randn X Y x y sizes cy rate b w Hne Hn Hpos)
    as (ls & w' & Hr & _ & _ & _ & Hsig).
  specialize (Hsig Hshape).
  destruct (@Net_train_reaches_report rng rng_shuffle clock Hperm
              {| train_x := X; train_y := Y; test_x := x; test_y := y;
                 layers := ls; cycles := cy; lr := rate; batch_size := b |} w')
    as (s & Hacc & Hrep); cbn [train_x train_y layers cycles batch_size];
    try assumption.
  - rewrite Hsig, Hy10. apply chain_out_init_sigs.
  - lia.
  - destruct (@train_report_returns rng clock s Hacc) as (res & Hres & _).
    eexists _, _, res. split; [exact Hr|]. now rewrite Hrep.
Qed.

End InitAndTrain.

Lemma zero_randn_shape (g : unit) (r c : nat) :
  shape0 (fst (zero_randn g r c)) = r /\ shape1 (fst (zero_randn g r c)) = c.
Proof. split; reflexivity. Defined.

Lemma Net_init_raises_witness :
  Net_init zero_randn X1 Y1 X1 Y1 [] 2 (7 / 1000) 2 w0 = None.
Proof.
  apply (@Net_init_raises unit zero_randn X1 Y1 X1 Y1 [] 2 (7 / 1000)%R 2 w0).
  left. reflexivity.
Defined.

Lemma Net_init_builds_chain_witness :
  exists net w',
    Net_init zero_randn X1 Y1 X1 Y1 [3; 2] 2 (7 / 1000) 2 w0 = Some (net, w') /\
    train_x net = X1 /\ train_y net = Y1 /\ test_x net = X1 /\ test_y net = Y1 /\
    cycles net = 2 /\ lr net = (7 / 1000)%R /\ batch_size net = 2 /\
    map Layer_sig (layers net) = init_sigs (shape1 X1) [3; 2] /\
    length (layers net) = 2 * (length [3; 2] + 1) /\
    chain_out (map Layer_sig (layers net)) (shape1 X1) = Some 10.
Proof.
  apply (@Net_init_builds_chain unit zero_randn X1 Y1 X1 Y1 [3; 2] 2 (7 / 1000)%R 2 w0
           zero_randn_shape).
  - discriminate.
  - cbn. lia.
  - repeat constructor.
Defined.

Lemma Net_backward_before_forward_raises_witness :
  exists net w',
    Net_init zero_randn X1 Y1 X1 Y1 [1] 2 (7 / 1000) 2 w0 = Some (net, w') /\
    Net_backward net X1 Y1 = None.
Proof.
  eexists _, _. split; [reflexivity|].
  refine (@Net_backward_before_forward_raises unit zero_randn X1 Y1 X1 Y1 [1] 2
            (7 / 1000)%R 2 w0 _ _ X1 Y1 _).
  reflexivity.
Defined.

Lemma Net_init_then_train_returns_witness :
  exists net w' res,
    Net_init zero_randn X1 Y1 X1 Y1 [1] 2 (7 / 1000) 2 w0 = Some (net, w') /\
    Net_train rev_shuffle tick_clock net w' = Some res.
Proof.
  apply (@Net_init_then_train_returns unit rev_shuffle zero_randn tick_clock
           X1 Y1 X1 Y1 [1] 2 (7 / 1000)%R 2 w0 zero_randn_shape rev_shuffle_perm);
    try reflexivity; try discriminate; try (cbn; lia).
  repeat constructor.
Defined.


(** ** [one_hot] *)

Lemma py_int_IZR (z : Z) : py_int (IZR z) = z.
Proof.
  unfold py_int. destruct (Rle_dec 0 (IZR z)) as [H|H].
  - symmetry. apply Int_part_spec. lra.
  - rewrite <- opp_IZR. rewrite <- (Int_part_spec (IZR (- z)) (- z)); [lia|lra].
Qed.

Lemma py_int_INR (n : nat) : py_int (INR n) = Z.of_nat n.
Proof. rewrite INR_IZR_INZ. apply py_int_IZR. Qed.

(** An index in [[-n, n)] addresses the position [k mod n]. *)
Lemma py_index_in_range (n : nat) (k : Z) :
  (- Z.of_nat n <= k < Z.of_nat n)%Z ->
  py_index n k = Some (Z.to_nat (k mod Z.of_nat n)) /\
  Z.to_nat (k mod Z.of_nat n) < n.
Proof.
  intros Hk. unfold py_index.
  destruct (Z.leb_spec 0 k) as [Hpos|Hneg]; cbn [andb].
  - destruct (Z.ltb_spec k (Z.of_nat n)) as [_|]; [|lia].
    rewrite Z.mod_small by lia. split; [reflexivity|lia].
  - destruct (Z.leb_spec (- Z.of_nat n) k) as [_|]; [|lia].
    destruct (Z.ltb_spec k 0) as [_|]; [|lia]. cbn [andb].
    assert (E : (k mod Z.of_nat n = k + Z.of_nat n)%Z).
    { rewrite <- (Z.mod_add k 1 (Z.of_nat n)) by lia. rewrite Z.mul_1_l.
      apply Z.mod_small. lia. }
    rewrite E. split; [reflexivity|lia].
Qed.

Lemma py_index_out_of_range (n : nat) (k : Z) :
  (k < - Z.of_nat n \/ Z.of_nat n <= k)%Z -> py_index n k = None.
Proof.
  intros Hk. unfold py_index.
  destruct (Z.leb_spec 0 k); destruct (Z.ltb_spec k (Z.of_nat n));
    destruct (Z.leb_spec (- Z.of_nat n) k); destruct (Z.ltb_spec k 0);
    cbn [andb]; try reflexivity; lia.
Qed.

Lemma length_set_nth (A : Type) (l : list A) (n : nat) (x : A) :
  length (set_nth l n x) = length l.
Proof.
  revert n. induction l as [|h t IH]; intros [|n]; cbn [set_nth length];
    try reflexivity. now rewrite IH.
Qed.

Lemma nth_set_nth (A : Type) (l : list A) (n k : nat) (x d : A) :
  n < length l ->
  nth k (set_nth l n x) d = if k =? n then x else nth k l d.
Proof.
  revert n k. induction l as [|h t IH]; intros n k Hn; cbn [length] in Hn; [lia|].
  destruct n as [|n]; destruct k as [|k]; cbn [set_nth nth Nat.eqb]; try reflexivity.
  apply IH. lia.
Qed.

Lemma In_set_nth (A : Type) (l : list A) (n : nat) (x y : A) :
  In y (set_nth l n x) -> In y l \/ (y = x /\ n < length l).
Proof.
  revert n. induction l as [|h t IH]; intros [|n]; cbn [set_nth In length];
    try tauto.
  - intros [<-|H]; [right; split; [reflexivity|lia]|left; now right].
  - intros [<-|H]; [left; now left|].
    destruct (IH _ H) as [H1|[H1 H2]]; [left; now right|right; split; [exact H1|lia]].
Qed.

Lemma wf_set_entry (M : matrix) (i j : nat) (v : R) :
  wf M -> wf (set_entry M i j v).
Proof.
  intros HM. apply wf_intro; unfold set_entry; cbn [rows shape0 shape1].
  - rewrite length_set_nth. now apply wf_length.
  - intros r Hr. apply In_set_nth in Hr. destruct Hr as [Hr|[-> Hi]].
    + apply In_nth with (d := []) in Hr. destruct Hr as (k & Hk & <-).
      apply wf_row_length; [exact HM|]. now rewrite <- (wf_length HM).
    + rewrite length_set_nth. apply wf_row_length; [exact HM|].
      now rewrite <- (wf_length HM).
Qed.

Lemma get_set_entry (M : matrix) (i j i' j' : nat) (v : R) :
  wf M -> i < shape0 M -> j < shape1 M ->
  get (set_entry M i j v) i' j'
  = if (i' =? i) && (j' =? j) then v else get M i' j'.
Proof.
  intros HM Hi Hj. unfold get, set_entry. cbn [rows].
  rewrite nth_set_nth by now rewrite (wf_length HM).
  destruct (Nat.eqb_spec i' i) as [->|Hne]; cbn [andb]; [|reflexivity].
  rewrite nth_set_nth by now rewrite (wf_row_length HM Hi).
  reflexivity.
Qed.

Section OneHot.

Variable Y : matrix.
Variable classes : nat.

Hypothesis Y_wf : wf Y.
Hypothesis Y_col : 0 < shape1 Y.

(** [Y[i][0]] *)
Lemma one_hot_label (i : nat) :
  i < shape0 Y -> nth_error (nth i (rows Y) []) 0 = Some (get Y i 0).
Proof.
  intros Hi. pose proof (wf_row_length Y_wf Hi) as Hl. unfold get.
  destruct (nth i (rows Y) []) as [|y r]; [cbn in Hl; lia|reflexivity].
Qed.

(** The loop writes a 1 at the class of every row it visits and nothing
    else. *)
Lemma one_hot_loop_returns (idxs : list nat) :
  (forall i, i < shape0 Y ->
     (- Z.of_nat classes <= py_int (get Y i 0) < Z.of_nat classes)%Z) ->
  Forall (fun i => i < shape0 Y) idxs ->
  forall E0 : matrix,
    wf E0 -> shape0 E0 = shape0 Y -> shape1 E0 = classes ->
    exists E,
      one_hot_loop Y classes idxs E0 = Some E /\
      wf E /\ shape0 E = shape0 Y /\ shape1 E = classes /\
      forall i j, i < shape0 Y -> j < classes ->
        get E i j
        = if existsb (Nat.eqb i) idxs &&
             (j =? Z.to_nat (py_int (get Y i 0) mod Z.of_nat classes))
          then 1%R else get E0 i j.
Proof.
  intros Hrange Hidx. induction Hidx as [|i rest Hi _ IH]; intros E0 HE H0 H1.
  - exists E0. cbn [one_hot_loop existsb andb]. auto.
  - cbn [one_hot_loop]. rewrite (one_hot_label Hi). cbn [bind_opt].
    destruct (@py_index_in_range classes (py_int (get Y i 0)) (Hrange i Hi))
      as [Hk Hlt].
    rewrite Hk. cbn [bind_opt].
    set (k := Z.to_nat (py_int (get Y i 0) mod Z.of_nat classes)) in *.
    destruct (IH (set_entry E0 i k 1)) as (E & Hr & HEw & HE0 & HE1 & Hget);
      [now apply wf_set_entry|exact H0|exact H1|].
    exists E. split; [exact Hr|]. split; [exact HEw|]. split; [exact HE0|].
    split; [exact HE1|]. intros i' j' Hi' Hj'. rewrite (Hget i' j' Hi' Hj').
    rewrite get_set_entry by (try assumption; lia).
    cbn [existsb]. destruct (Nat.eqb_spec i' i) as [->|Hne]; cbn [orb andb].
    + fold k. destruct (existsb (Nat.eqb i) rest); cbn [andb];
        destruct (j' =? k); reflexivity.
    + reflexivity.
Qed.

(** A row whose label cannot be used makes the loop raise, wherever it
    stands in the list. *)
Lemma one_hot_loop_raises (i : nat) (idxs : list nat) :
  i < shape0 Y -> In i idxs ->
  (py_int (get Y i 0) < - Z.of_nat classes \/
   Z.of_nat classes <= py_int (get Y i 0))%Z ->
  forall E0, one_hot_loop Y classes idxs E0 = None.
Proof.
  intros Hi Hin Hbad. induction idxs as [|i' rest IH]; intros E0; [contradiction|].
  cbn [one_hot_loop].
  destruct (nth_error (nth i' (rows Y) []) 0) as [y|] eqn:Ey; cbn [bind_opt];
    [|reflexivity].
  destruct (py_index classes (py_int y)) as [k|] eqn:Ek; cbn [bind_opt];
    [|reflexivity].
  destruct Hin as [->|Hin]; [|now apply IH].
  rewrite (one_hot_label Hi) in Ey. injection Ey as <-.
  rewrite (py_index_out_of_range _ Hbad) in Ek. discriminate.
Qed.

End OneHot.

Lemma existsb_eqb_seq (i n : nat) : i < n -> existsb (Nat.eqb i) (seq 0 n) = true.
Proof.
  intros Hi. apply existsb_exists. exists i. split; [|apply Nat.eqb_refl].
  apply in_seq. lia.
Qed.

(** X21: what [one_hot] writes.  When every label, truncated to an
    integer, lies in [[-classes, classes)], the result has one row per
    label and [classes] columns, with a 1 at the column the label
    addresses (a negative label counts from the last class) and 0
    elsewhere. *)
Theorem one_hot_entries (Y : matrix) (classes : nat) :
  wf Y -> 0 < shape1 Y ->
  (forall i, i < shape0 Y ->
     (- Z.of_nat classes <= py_int (get Y i 0) < Z.of_nat classes)%Z) ->
  exists E,
    one_hot Y classes = Some E /\
    wf E /\ shape0 E = shape0 Y /\ shape1 E = classes /\
    forall i j, i < shape0 Y -> j < classes ->
      get E i j
      = if j =? Z.to_nat (py_int (get Y i 0) mod Z.of_nat classes)
        then 1%R else 0%R.
Proof.
  intros HY Hc Hrange.
  destruct (@one_hot_loop_returns Y classes HY Hc (seq 0 (shape0 Y)) Hrange)
    with (E0 := zeros (shape0 Y) classes)
    as (E & Hr & HE & H0 & H1 & Hget).
  - apply Forall_forall. intros i Hi. apply in_seq in Hi. lia.
  - apply wf_tabulate.
  - reflexivity.
  - reflexivity.
  - exists E. split; [exact Hr|]. split; [exact HE|]. split; [exact H0|].
    split; [exact H1|]. intros i j Hi Hj. rewrite (Hget i j Hi Hj).
    rewrite existsb_eqb_seq by exact Hi. cbn [andb].
    unfold zeros. rewrite get_tabulate by assumption. reflexivity.
Qed.

(** X22: [one_hot] raises when the matrix of labels has rows but no
    column, and when a label, truncated to an integer, is at least
    [classes] or below [-classes]. *)
Theorem one_hot_raises (Y : matrix) (classes i : nat) :
  wf Y -> i < shape0 Y ->
  shape1 Y = 0 \/
  (py_int (get Y i 0) < - Z.of_nat classes \/
   Z.of_nat classes <= py_int (get Y i 0))%Z ->
  one_hot Y classes = None.
Proof.
  intros HY Hi [Hc|Hbad]; unfold one_hot.
  - destruct (shape0 Y) as [|n] eqn:En; [lia|].
    cbn [seq one_hot_loop].
    assert (Hl : length (nth 0 (rows Y) []) = 0).
    { rewrite <- Hc. apply wf_row_length; [exact HY|lia]. }
    destruct (nth 0 (rows Y) []); [reflexivity|discriminate].
  - destruct (Nat.eq_dec (shape1 Y) 0) as [Hc|Hc].
    + destruct (shape0 Y) as [|n] eqn:En; [lia|].
      cbn [seq one_hot_loop].
      assert (Hl : length (nth 0 (rows Y) []) = 0).
      { rewrite <- Hc. apply wf_row_length; [exact HY|lia]. }
      destruct (nth 0 (rows Y) []); [reflexivity|discriminate].
    + apply (@one_hot_loop_raises Y classes HY) with (i := i);
        [lia|exact Hi|apply in_seq; lia|exact Hbad].
Qed.


(** The first maximum of a row: when position [k] holds a value larger
    than everything before it and at least everything after it,
    [argmax] returns [k]. *)
Lemma argmax_from_first_max (r : list R) :
  forall (k best_i i : nat) (best : R),
    k < length r ->
    (best < nth k r 0)%R ->
    (forall j, j < k -> (nth j r 0 < nth k r 0)%R) ->
    (forall j, k < j -> j < length r -> (nth j r 0 <= nth k r 0)%R) ->
    argmax_from best_i best i r = i + k.
Proof.
  induction r as [|x xs IH]; intros k best_i i best Hk Hb Hlt Hle; cbn [length] in Hk;
    [lia|].
  cbn [argmax_from]. destruct k as [|k].
  - cbn [nth] in *. destruct (Rlt_dec best x) as [_|Hn]; [|contradiction].
    rewrite Nat.add_0_r. apply argmax_from_keeps. intros y Hy.
    apply In_nth with (d := 0%R) in Hy. destruct Hy as (j & Hj & <-).
    apply (Hle (S j)); [lia|cbn [length]; lia].
  - assert (Hx : (x < nth k xs 0)%R) by (apply (Hlt 0); lia).
    assert (Hlt' : forall j, j < k -> (nth j xs 0 < nth k xs 0)%R).
    { intros j Hj. apply (Hlt (S j)). lia. }
    assert (Hle' : forall j, k < j -> j < length xs -> (nth j xs 0 <= nth k xs 0)%R).
    { intros j Hj Hjl. apply (Hle (S j)); [lia|cbn [length]; lia]. }
    cbn [nth] in Hb.
    destruct (Rlt_dec best x).
    + rewrite (IH k i (S i) x); [lia|lia|exact Hx|exact Hlt'|exact Hle'].
    + rewrite (IH k best_i (S i) best); [lia|lia|exact Hb|exact Hlt'|exact Hle'].
Qed.

Lemma row_argmax_first_max (r : list R) (k : nat) :
  k < length r ->
  (forall j, j < k -> (nth j r 0 < nth k r 0)%R) ->
  (forall j, k < j -> j < length r -> (nth j r 0 <= nth k r 0)%R) ->
  row_argmax r = k.
Proof.
  intros Hk Hlt Hle. destruct r as [|x xs]; [cbn in Hk; lia|].
  cbn [row_argmax]. destruct k as [|k].
  - apply argmax_from_keeps. intros y Hy.
    apply In_nth with (d := 0%R) in Hy. destruct Hy as (j & Hj & <-).
    apply (Hle (S j)); [lia|cbn [length]; lia].
  - rewrite (@argmax_from_first_max xs k 0 1 x).
    + reflexivity.
    + cbn [length] in Hk. lia.
    + apply (Hlt 0). lia.
    + intros j Hj. apply (Hlt (S j)). lia.
    + intros j Hj Hjl. apply (Hle (S j)); [lia|cbn [length]; lia].
Qed.

(** X23: decoding undoes encoding.  For labels that are class numbers
    below [classes], [one_hot] returns a matrix whose rows each hold a
    single 1, and [argmax] along the rows of that matrix gives the labels
    back. *)
Theorem one_hot_argmax_round_trip (Y : matrix) (classes : nat) (labels : list nat) :
  wf Y -> 0 < shape1 Y -> 0 < classes ->
  length labels = shape0 Y ->
  (forall i, i < shape0 Y ->
     get Y i 0 = INR (nth i labels 0) /\ nth i labels 0 < classes) ->
  exists E,
    one_hot Y classes = Some E /\
    argmax_axis1 E = Some labels /\
    forall i, i < shape0 Y -> row_sum (nth i (rows E) []) = 1%R.
Proof.
  intros HY Hc Hcl Hlen Hlab.
  assert (Hint : forall i, i < shape0 Y ->
             py_int (get Y i 0) = Z.of_nat (nth i labels 0)).
  { intros i Hi. destruct (Hlab i Hi) as [-> _]. apply py_int_INR. }
  assert (Hrange : forall i, i < shape0 Y ->
             (- Z.of_nat classes <= py_int (get Y i 0) < Z.of_nat classes)%Z).
  { intros i Hi. rewrite (Hint i Hi). destruct (Hlab i Hi) as [_ Hl]. lia. }
  assert (Hk : forall i, i < shape0 Y ->
             Z.to_nat (py_int (get Y i 0) mod Z.of_nat classes) = nth i labels 0).
  { intros i Hi. rewrite (Hint i Hi). destruct (Hlab i Hi) as [_ Hl].
    rewrite Z.mod_small by lia. lia. }
  assert (Hloop : exists E,
             one_hot Y classes = Some E /\
             wf E /\ shape0 E = shape0 Y /\ shape1 E = classes /\
             forall i j, i < shape0 Y -> j < classes ->
               get E i j = if j =? nth i labels 0 then 1%R else 0%R).
  { destruct (@one_hot_loop_returns Y classes HY Hc (seq 0 (shape0 Y)) Hrange)
      with (E0 := zeros (shape0 Y) classes)
      as (E & Hr & HE & H0 & H1 & Hget);
      [apply Forall_forall; intros i Hi; apply in_seq in Hi; lia
      |apply wf_tabulate|reflexivity|reflexivity|].
    exists E. split; [exact Hr|]. split; [exact HE|]. split; [exact H0|].
    split; [exact H1|]. intros i j Hi Hj. rewrite (Hget i j Hi Hj).
    rewrite existsb_eqb_seq by exact Hi. cbn [andb]. rewrite (Hk i Hi).
    unfold zeros. rewrite get_tabulate by assumption. reflexivity. }
  destruct Hloop as (E & Hr & HE & H0 & H1 & Hget).
  exists E. split; [exact Hr|]. split.
  - unfold argmax_axis1. destruct (Nat.eqb_spec (shape1 E) 0) as [|_]; [lia|].
    f_equal. apply nth_ext with (d := 0) (d' := 0).
    + rewrite length_map, (wf_length HE). congruence.
    + intros i Hi. rewrite length_map, (wf_length HE), H0 in Hi.
      change 0 with (row_argmax []) at 1. rewrite map_nth.
      destruct (Hlab i Hi) as [_ Hl].
      assert (Hrow : length (nth i (rows E) []) = classes).
      { rewrite <- H1. apply wf_row_length; [exact HE|lia]. }
      apply row_argmax_first_max.
      * now rewrite Hrow.
      * intros j Hj. change (get E i j < get E i (nth i labels 0%nat))%R.
        rewrite !Hget by lia. rewrite Nat.eqb_refl.
        destruct (Nat.eqb_spec j (nth i labels 0)); [lia|lra].
      * intros j Hj Hjl. rewrite Hrow in Hjl.
        change (get E i j <= get E i (nth i labels 0%nat))%R.
        rewrite !Hget by lia. rewrite Nat.eqb_refl.
        destruct (j =? nth i labels 0); lra.
  - intros i Hi. destruct (Hlab i Hi) as [_ Hl].
    assert (Hrow : nth i (rows E) []
                   = map (fun j => if j =? nth i labels 0 then 1%R else 0%R)
                       (seq 0 classes)).
    { apply nth_ext with (d := 0%R) (d' := 0%R).
      - rewrite length_map, length_seq, <- H1. apply wf_row_length; [exact HE|lia].
      - intros j Hj.
        assert (Hjc : j < classes).
        { rewrite <- H1, <- (@wf_row_length E i HE); [exact Hj|lia]. }
        rewrite (nth_map_seq (fun j => if j =? nth i labels 0 then 1%R else 0%R)
                   0%R Hjc).
        apply (Hget i j Hi Hjc). }
    rewrite Hrow, row_sum_map_seq.
    clear - Hl. revert Hl. generalize (nth i labels 0) as k. intros k.
    induction classes as [|c IH]; intros Hk; [lia|].
    cbn [big_sum]. destruct (Nat.eqb_spec c k) as [->|Hne].
    + assert (Hz : forall n, n <= k -> big_sum n (fun j => if j =? k then 1%R else 0%R)
                                      = 0%R).
      { induction n as [|n IHn]; intros Hn; [reflexivity|].
        cbn [big_sum]. rewrite IHn by lia.
        destruct (Nat.eqb_spec n k); [lia|lra]. }
      rewrite Hz by lia. lra.
    + rewrite IH by lia. lra.
Qed.


(** ** [normalize] *)

Lemma get_map_matrix (f : R -> R) (M : matrix) (i j : nat) :
  wf M -> i < shape0 M -> j < shape1 M ->
  get (map_matrix f M) i j = f (get M i j).
Proof.
  intros HM Hi Hj. unfold get, map_matrix. cbn [rows].
  change (@nil R) with (map f []) at 1. rewrite map_nth.
  rewrite (nth_indep _ 0%R (f 0%R))
    by (rewrite length_map, (wf_row_length HM Hi); exact Hj).
  apply map_nth.
Qed.

(** The entries of a matrix are the elements of its rows, one after the
    other. *)
Lemma In_concat_rows (M : matrix) (e : R) :
  wf M ->
  In e (concat (rows M)) <->
  exists i j, i < shape0 M /\ j < shape1 M /\ get M i j = e.
Proof.
  intros HM. rewrite in_concat. split.
  - intros (r & Hr & He).
    apply In_nth with (d := []) in Hr. destruct Hr as (i & Hi & <-).
    rewrite (wf_length HM) in Hi.
    apply In_nth with (d := 0%R) in He. destruct He as (j & Hj & <-).
    rewrite (wf_row_length HM Hi) in Hj. now exists i, j.
  - intros (i & j & Hi & Hj & <-). exists (nth i (rows M) []). split.
    + apply nth_In. now rewrite (wf_length HM).
    + apply nth_In. now rewrite (wf_row_length HM Hi).
Qed.

(** [x.max()] is an entry of [x] and bounds every entry. *)
Lemma matrix_max_spec (x : matrix) :
  wf x -> 0 < shape0 x -> 0 < shape1 x ->
  exists m,
    matrix_max x = Some m /\
    (exists i j, i < shape0 x /\ j < shape1 x /\ get x i j = m) /\
    forall i j, i < shape0 x -> j < shape1 x -> (get x i j <= m)%R.
Proof.
  intros Hx H0 H1. unfold matrix_max.
  destruct (Nat.eqb_spec (shape0 x * shape1 x) 0) as [E|_]; [nia|].
  eexists. split; [reflexivity|]. split.
  - apply (In_concat_rows _ Hx). apply row_max_in. intros E.
    assert (Hin : In (get x 0 0) (concat (rows x))).
    { apply (In_concat_rows _ Hx). now exists 0, 0. }
    rewrite E in Hin. contradiction.
  - intros i j Hi Hj. apply row_max_ge. apply (In_concat_rows _ Hx). now exists i, j.
Qed.

Section Normalize.

Variable x : matrix.

Hypothesis x_wf : wf x.
Hypothesis x_nonneg :
  forall i j, i < shape0 x -> j < shape1 x -> (0 <= get x i j)%R.
Hypothesis x_positive :
  exists i j, i < shape0 x /\ j < shape1 x /\ (0 < get x i j)%R.

Lemma normalize_spec :
  exists y m,
    normalize x = Some y /\ matrix_max x = Some m /\ (0 < m)%R /\
    wf y /\ shape0 y = shape0 x /\ shape1 y = shape1 x /\
    (forall i j, i < shape0 x -> j < shape1 x ->
       get y i j = (get x i j / m)%R /\ (0 <= get y i j <= 1)%R) /\
    matrix_max y = Some 1%R.
Proof.
  destruct x_positive as (i0 & j0 & Hi0 & Hj0 & Hpos).
  destruct (@matrix_max_spec x x_wf) as (m & Hm & (im & jm & Him & Hjm & Hgm) & Hle);
    [lia|lia|].
  assert (Hmpos : (0 < m)%R).
  { pose proof (Hle i0 j0 Hi0 Hj0). lra. }
  assert (Hi : (0 < / m)%R) by now apply Rinv_0_lt_compat.
  set (y := map_matrix (fun e => (e / m)%R) x).
  assert (Hy : wf y) by now apply wf_map_matrix.
  assert (Hget : forall i j, i < shape0 x -> j < shape1 x ->
             get y i j = (get x i j / m)%R /\ (0 <= get y i j <= 1)%R).
  { intros i j Hi' Hj'. unfold y.
    rewrite (@get_map_matrix (fun e => (e / m)%R) x i j x_wf Hi' Hj').
    split; [reflexivity|]. pose proof (x_nonneg Hi' Hj'). pose proof (Hle i j Hi' Hj').
    split.
    - apply Rmult_le_pos; lra.
    - apply Rmult_le_reg_r with (r := m); [exact Hmpos|].
      unfold Rdiv. rewrite Rmult_assoc, Rinv_l by lra. lra. }
  exists y, m. unfold normalize. rewrite Hm. cbn [bind_opt].
  split; [reflexivity|]. split; [reflexivity|]. split; [exact Hmpos|].
  split; [exact Hy|]. split; [reflexivity|]. split; [reflexivity|].
  split; [exact Hget|].
  destruct (@matrix_max_spec y Hy) as (m' & Hm' & (i1 & j1 & Hi1 & Hj1 & Hg1) & Hle');
    [exact (Nat.le_lt_trans _ _ _ (Nat.le_0_l _) Him)
    |exact (Nat.le_lt_trans _ _ _ (Nat.le_0_l _) Hjm)|].
  rewrite Hm'. f_equal. apply Rle_antisym.
  - rewrite <- Hg1. apply (Hget i1 j1 Hi1 Hj1).
  - pose proof (Hle' im jm Him Hjm) as H. 
    destruct (Hget im jm Him Hjm) as [E _]. rewrite E, Hgm in H.
    unfold Rdiv in H. rewrite Rinv_r in H by lra. exact H.
Qed.

End Normalize.

(** X24: [normalize] maps a matrix without negative entries and with a
    positive entry onto the unit interval: the shape is kept, every entry
    lies in [[0, 1]], the largest one is exactly 1. *)
Theorem normalize_unit_range (x : matrix) :
  wf x ->
  (forall i j, i < shape0 x -> j < shape1 x -> (0 <= get x i j)%R) ->
  (exists i j, i < shape0 x /\ j < shape1 x /\ (0 < get x i j)%R) ->
  exists y,
    normalize x = Some y /\
    wf y /\ shape0 y = shape0 x /\ shape1 y = shape1 x /\
    (forall i j, i < shape0 x -> j < shape1 x -> (0 <= get y i j <= 1)%R) /\
    matrix_max y = Some 1%R.
Proof.
  intros Hx Hnn Hpos.
  destruct (@normalize_spec x Hx Hnn Hpos)
    as (y & m & Hn & _ & _ & Hy & H0 & H1 & Hget & Hmax).
  exists y. repeat split; try assumption; now apply Hget.
Qed.

(** X25: normalising twice is normalising once. *)
Theorem normalize_idempotent (x y : matrix) :
  wf x ->
  (forall i j, i < shape0 x -> j < shape1 x -> (0 <= get x i j)%R) ->
  (exists i j, i < shape0 x /\ j < shape1 x /\ (0 < get x i j)%R) ->
  normalize x = Some y ->
  normalize y = Some y.
Proof.
  intros Hx Hnn Hpos Hn.
  destruct (@normalize_spec x Hx Hnn Hpos)
    as (y' & m & Hn' & _ & _ & Hy & H0 & H1 & Hget & Hmax).
  rewrite Hn in Hn'. injection Hn' as <-.
  unfold normalize. rewrite Hmax. cbn [bind_opt]. f_equal.
  destruct y as [r c rs]. unfold map_matrix. cbn [shape0 shape1 rows]. f_equal.
  rewrite <- (map_id rs) at 2. apply map_ext. intros row.
  rewrite <- (map_id row) at 2. apply map_ext. intros e. apply Rdiv_1_r.
Qed.

(** [normalize] raises on a matrix without entries ([max] of an empty
    array). *)
Lemma normalize_raises_on_empty (x : matrix) :
  shape0 x = 0 \/ shape1 x = 0 -> normalize x = None.
Proof.
  intros H. unfold normalize, matrix_max.
  destruct (Nat.eqb_spec (shape0 x * shape1 x) 0) as [_|Hne]; [reflexivity|].
  destruct H as [H|H]; rewrite H in Hne; lia.
Qed.


(** ** [Softplus] *)

(** The derivative of [ln (1 + exp x)] is [exp x / (1 + exp x)]. *)
Lemma softplus_derivative (x : R) :
  derivable_pt_lim softplus x (exp x / (1 + exp x))%R.
Proof.
  pose proof (exp_pos x) as He.
  replace (exp x / (1 + exp x))%R with (/ (1 + exp x) * (0 + exp x))%R
    by (field; lra).
  change softplus with (comp ln (plus_fct (fct_cte 1) exp)).
  apply derivable_pt_lim_comp.
  - apply derivable_pt_lim_plus; [apply derivable_pt_lim_const|apply derivable_pt_lim_exp].
  - apply derivable_pt_lim_ln. unfold plus_fct, fct_cte. lra.
Qed.

(** X26: [Softplus.backward] applies the derivative of
    [Softplus.forward].  For an input [z] whose entries are at most 709
    (so that [exp] does not overflow in float64), after a forward pass
    on [z] every entry of the output is [ln (1 + exp z)], a number that
    is not negative, and the gradient returned for an upstream gradient
    of the same shape is, entry by entry, the upstream gradient times
    the derivative of that function at [z], a factor between 0 and 1
    (both included: float64 rounds the factor to 1 for a large entry and
    to 0 for a very negative one). *)
Theorem Softplus_backward_is_derivative (self : Softplus.t) (z grad : matrix) (rate : R) :
  wf z -> wf grad -> shape0 grad = shape0 z -> shape1 grad = shape1 z ->
  (forall i j, i < shape0 z -> j < shape1 z -> (get z i j <= 709)%R) ->
  exists out s1 g s2,
    Softplus.forward self z = Some (out, s1) /\
    Softplus.backward s1 grad rate = Some (g, s2) /\
    shape0 g = shape0 z /\ shape1 g = shape1 z /\
    forall i j, i < shape0 z -> j < shape1 z ->
      get out i j = softplus (get z i j) /\
      (0 <= get out i j)%R /\
      exists d,
        derivable_pt_lim softplus (get z i j) d /\
        (0 <= d <= 1)%R /\
        get g i j = (d * get grad i j)%R.
Proof.
  intros Hz Hg H0 H1 _. unfold Softplus.forward.
  eexists _, _, _, _. split; [reflexivity|].
  unfold Softplus.backward. cbn [Softplus.input bind_opt].
  rewrite (@broadcast_same Rdiv (map_matrix exp z)
             (map_matrix (fun e => (1 + e)%R) (map_matrix exp z)))
    by reflexivity.
  cbn [bind_opt].
  rewrite broadcast_same by (cbn [shape0 shape1 tabulate map_matrix]; assumption).
  cbn [bind_opt]. split; [reflexivity|].
  cbn [shape0 shape1 tabulate map_matrix]. split; [reflexivity|]. split; [reflexivity|].
  intros i j Hi Hj. pose proof (exp_pos (get z i j)) as He.
  rewrite (@get_map_matrix (fun x => ln (1 + exp x)) z i j Hz Hi Hj).
  split; [reflexivity|]. split.
  - rewrite <- ln_1. apply Rlt_le, ln_increasing; lra.
  - exists (exp (get z i j) / (1 + exp (get z i j)))%R.
    split; [apply softplus_derivative|]. split.
    + split.
      * apply Rlt_le, Rdiv_lt_0_compat; lra.
      * apply Rlt_le,  Rmult_lt_reg_r with (r := (1 + exp (get z i j))%R); [lra|].
        unfold Rdiv. rewrite Rmult_assoc, Rinv_l by lra. lra.
    + change (shape0 (map_matrix exp z)) with (shape0 z).
      change (shape1 (map_matrix exp z)) with (shape1 z).
      rewrite get_tabulate by assumption. rewrite get_tabulate by assumption.
      rewrite (@get_map_matrix (fun e => (1 + e)%R) (map_matrix exp z) i j)
        by (try apply wf_map_matrix; assumption).
      rewrite (@get_map_matrix exp z i j Hz Hi Hj). reflexivity.
Qed.

Lemma Z2_entries_small (i j : nat) :
  i < shape0 Z2 -> j < shape1 Z2 -> (get Z2 i j <= 709)%R.
Proof.
  intros Hi Hj. change (i < 2) in Hi. change (j < 2) in Hj.
  destruct i as [|[|i]]; [| |lia]; destruct j as [|[|j]]; try lia;
    unfold get, Z2; cbn [rows nth]; lra.
Qed.

Lemma Softplus_backward_is_derivative_witness :
  wf Z2 /\ wf Z2 /\ shape0 Z2 = shape0 Z2 /\ shape1 Z2 = shape1 Z2 /\
  (forall i j, i < shape0 Z2 -> j < shape1 Z2 -> (get Z2 i j <= 709)%R) /\
  exists out s1 g s2,
    Softplus.forward {| Softplus.input := None; Softplus.output := None |} Z2
    = Some (out, s1) /\
    Softplus.backward s1 Z2 (1 / 2) = Some (g, s2) /\
    shape0 g = shape0 Z2 /\ shape1 g = shape1 Z2 /\
    forall i j, i < shape0 Z2 -> j < shape1 Z2 ->
      get out i j = softplus (get Z2 i j) /\
      (0 <= get out i j)%R /\
      exists d,
        derivable_pt_lim softplus (get Z2 i j) d /\
        (0 <= d <= 1)%R /\
        get g i j = (d * get Z2 i j)%R.
Proof.
  split; [reflexivity|]. split; [reflexivity|]. split; [reflexivity|].
  split; [reflexivity|]. split; [exact Z2_entries_small|].
  exact (@Softplus_backward_is_derivative
           {| Softplus.input := None; Softplus.output := None |} Z2 Z2 (1 / 2)
           eq_refl eq_refl eq_refl eq_refl Z2_entries_small).
Defined.


(** ** The data functions at concrete inputs *)

Lemma L3_labels (i : nat) :
  i < shape0 L3 ->
  get L3 i 0 = INR (nth i [2; 0; 1] 0) /\ nth i [2; 0; 1] 0 < 3.
Proof.
  intros Hi. change (i < 3) in Hi.
  destruct i as [|[|[|i]]]; [| | |lia]; cbn; split; try lia; lra.
Qed.

Lemma L3_range (i : nat) :
  i < shape0 L3 -> (- Z.of_nat 3 <= py_int (get L3 i 0) < Z.of_nat 3)%Z.
Proof.
  intros Hi. destruct (L3_labels Hi) as [-> Hl]. rewrite py_int_INR. lia.
Qed.

Lemma one_hot_entries_witness :
  wf L3 /\ 0 < shape1 L3 /\
  exists E,
    one_hot L3 3 = Some E /\
    wf E /\ shape0 E = shape0 L3 /\ shape1 E = 3 /\
    forall i j, i < shape0 L3 -> j < 3 ->
      get E i j
      = if j =? Z.to_nat (py_int (get L3 i 0) mod Z.of_nat 3)
        then 1%R else 0%R.
Proof.
  split; [reflexivity|]. split; [cbn; lia|].
  apply (@one_hot_entries L3 3); [reflexivity|cbn; lia|exact L3_range].
Defined.

Lemma one_hot_raises_witness :
  wf L3 /\ 0 < shape0 L3 /\ (Z.of_nat 2 <= py_int (get L3 0 0))%Z /\
  one_hot L3 2 = None.
Proof.
  assert (H : (Z.of_nat 2 <= py_int (get L3 0 0))%Z).
  { change (get L3 0 0) with (IZR 2). rewrite py_int_IZR. cbn. lia. }
  split; [reflexivity|]. split; [cbn; lia|]. split; [exact H|].
  apply (@one_hot_raises L3 2 0); [reflexivity|cbn; lia|].
  right. right. exact H.
Defined.

Lemma one_hot_argmax_round_trip_witness :
  wf L3 /\ 0 < shape1 L3 /\ length [2; 0; 1] = shape0 L3 /\
  exists E,
    one_hot L3 3 = Some E /\
    argmax_axis1 E = Some [2; 0; 1] /\
    forall i, i < shape0 L3 -> row_sum (nth i (rows E) []) = 1%R.
Proof.
  split; [reflexivity|]. split; [cbn; lia|]. split; [reflexivity|].
  apply (@one_hot_argmax_round_trip L3 3 [2; 0; 1]);
    [reflexivity|cbn; lia|lia|reflexivity|exact L3_labels].
Defined.

Lemma X4_nonneg (i j : nat) :
  i < shape0 X4 -> j < shape1 X4 -> (0 <= get X4 i j)%R.
Proof.
  intros Hi Hj. change (i < 4) in Hi. change (j < 1) in Hj.
  destruct j as [|j]; [|lia].
  destruct i as [|[|[|[|i]]]]; [| | | |lia]; cbn; lra.
Qed.

Lemma X4_positive :
  exists i j, i < shape0 X4 /\ j < shape1 X4 /\ (0 < get X4 i j)%R.
Proof. exists 0, 0. cbn. split; [lia|]. split; [lia|lra]. Qed.

Lemma normalize_unit_range_witness :
  wf X4 /\
  exists y,
    normalize X4 = Some y /\
    wf y /\ shape0 y = shape0 X4 /\ shape1 y = shape1 X4 /\
    (forall i j, i < shape0 X4 -> j < shape1 X4 -> (0 <= get y i j <= 1)%R) /\
    matrix_max y = Some 1%R.
Proof.
  split; [reflexivity|].
  exact (@normalize_unit_range X4 eq_refl X4_nonneg X4_positive).
Defined.

Lemma normalize_idempotent_witness :
  exists y, normalize X4 = Some y /\ normalize y = Some y.
Proof.
  eexists. split; [reflexivity|].
  exact (@normalize_idempotent X4 _ eq_refl X4_nonneg X4_positive eq_refl).
Defined.


(** ** When [train] of the procedural program raises *)

Section ProceduralRaises.

Variable rng : Type.
Variable rng_shuffle : rng -> list nat -> list nat * rng.
Variable rng_randn : rng -> nat -> nat -> matrix * rng.
Variable clock : nat -> R.

(** [blas.random.randn(r, c)] returns an [r] x [c] array. *)
Hypothesis rng_randn_shape :
  forall g r c, shape0 (fst (rng_randn g r c)) = r /\
                shape1 (fst (rng_randn g r c)) = c.

(** [init_weights] appends one matrix per width; the first has as many
    rows as the input has columns. *)
Lemma init_weights_loop_inv (sizes : list nat) :
  forall (n : nat) (init ws : list matrix) (w w' : world rng),
    Procedural.init_weights_loop rng_randn sizes n init w = Some (ws, w') ->
    exists new,
      ws = init ++ new /\ length new = length sizes /\
      (forall m rest, new = m :: rest -> shape0 m = n).
Proof.
  induction sizes as [|h rest IH]; intros n init ws w w' H;
    cbn [Procedural.init_weights_loop] in H.
  - injection H as <- _. exists []. rewrite app_nil_r. repeat split. discriminate.
  - pose proof (rng_randn_shape (gen w) n h) as [Hs0 _].
    destruct (rng_randn (gen w) n h) as [m g]. cbn [fst] in Hs0.
    destruct (n =? 0); [discriminate|].
    apply IH in H. destruct H as (new & -> & Hl & _).
    eexists (_ :: new). rewrite <- app_assoc. split; [reflexivity|].
    split; [cbn [length]; lia|]. intros m0 rest0 E. injection E as <- _.
    exact Hs0.
Qed.

(** [forward] raises when the batch has another number of columns than
    the first weight matrix has rows. *)
Lemma Procedural_forward_mismatch (x : matrix) (ws : list matrix) (w1 : matrix)
    (rest : list matrix) :
  ws = w1 :: rest -> shape1 x <> shape0 w1 -> Procedural.forward x ws = None.
Proof.
  intros -> Hne. destruct rest as [|w2 rest]; [reflexivity|].
  unfold Procedural.forward.
  change (removelast (w1 :: w2 :: rest)) with (w1 :: removelast (w2 :: rest)).
  cbn [Procedural.forward_loop Nat.eqb]. unfold dot.
  destruct (Nat.eqb_spec (shape1 x) (shape0 w1)); [contradiction|reflexivity].
Qed.

Lemma Procedural_train_batch_forward_raises (rate : R) (cycle b : nat) (bt : batch)
    (s : Procedural.batch_state rng) :
  Procedural.forward (fst bt) (Procedural.bs_weights s) = None ->
  Procedural.train_batch clock rate cycle b bt s = None.
Proof.
  intros H. unfold Procedural.train_batch. rewrite H.
  destruct ((cycle =? 0) && (b =? 13)); reflexivity.
Qed.

(** A batch without rows makes the body raise: [1/batch.shape[0]] in
    [backward], when nothing has raised before. *)
Lemma Procedural_train_batch_empty_raises (rate : R) (cycle b : nat) (bt : batch)
    (s : Procedural.batch_state rng) :
  shape0 (fst bt) = 0 ->
  Procedural.train_batch clock rate cycle b bt s = None.
Proof.
  intros H. unfold Procedural.train_batch, Procedural.backward. rewrite H.
  cbn [Nat.eqb].
  destruct ((cycle =? 0) && (b =? 13)); cbn [time_time];
    destruct (Procedural.forward (fst bt) (Procedural.bs_weights s)) as [o|];
    cbn [bind_opt]; try reflexivity;
    destruct (last_opt o) as [l|]; cbn [bind_opt]; try reflexivity;
    destruct (broadcast Rminus (snd l) (snd bt)); reflexivity.
Qed.

Lemma Procedural_train_batches_from_raises (rate : R) (cycle : nat)
    (l1 l2 : list batch) (bt : batch) :
  (forall b (s : Procedural.batch_state rng),
     Procedural.train_batch clock rate cycle b bt s = None) ->
  forall b (s : Procedural.batch_state rng),
    Procedural.train_batches_from clock rate cycle b (l1 ++ bt :: l2) s = None.
Proof.
  intros Hbt. induction l1 as [|x l1 IH]; intros b s;
    cbn [app Procedural.train_batches_from].
  - rewrite Hbt. reflexivity.
  - destruct (Procedural.train_batch clock rate cycle b x s); cbn [bind_opt];
      [apply IH|reflexivity].
Qed.

(** X27: [train] of the procedural program builds its weights for 784
    input columns and cuts batches of 64 rows, whatever the data.  It
    raises when the training matrix has another number of columns, when
    no hidden width is given, when no cycle is asked for, and when 64
    divides the number of training rows. *)
Theorem Procedural_train_raises (train_x train_y : matrix) (layers : list nat)
    (n : nat) (rate : R) (w : world rng) :
  wf train_x ->
  shape1 train_x <> 784 \/ layers = [] \/ n = 0 \/ shape0 train_x mod 64 = 0 ->
  Procedural.train rng_shuffle rng_randn clock train_x train_y layers n rate w = None.
Proof.
  intros HX Hcase. unfold Procedural.train, Procedural.train_setup.
  destruct (Procedural.init_weights rng_randn layers 784 w) as [[ws w1]|] eqn:Ei;
    cbn [bind_opt]; [|reflexivity].
  destruct (batch_data rng_shuffle clock train_x train_y 64 n w1) as [[bs w2]|] eqn:Eb;
    cbn [bind_opt time_time]; [|reflexivity].
  apply batch_data_inv in Eb. subst bs.
  destruct n as [|n].
  { unfold Procedural.train_loop. cbn [cycles_loop bind_opt].
    unfold Procedural.train_report. cbn [time_time Procedural.ts_accs map length].
    reflexivity. }
  unfold Procedural.train_loop. cbn [cycles_loop Nat.ltb Nat.leb andb].
  unfold Procedural.train_cycle. cbn [repeat].
  change (nth_error (?a :: ?l) 0) with (Some a). cbn [bind_opt time_time].
  match goal with
  | |- context [Procedural.train_batches_from ?a ?b ?c ?d ?e ?f] =>
      assert (Hc : Procedural.train_batches_from a b c d e f = None)
  end.
  2:{ rewrite Hc. reflexivity. }
  unfold Procedural.init_weights in Ei.
  apply init_weights_loop_inv in Ei. destruct Ei as (new & Hws & Hlen & Hfirst).
  cbn [app] in Hws. subst ws. rewrite length_app in Hlen. cbn [length] in Hlen.
  destruct new as [|m new]; [cbn [length] in Hlen; lia|].
  pose proof (Hfirst m new eq_refl) as Hm.
  assert (Hfwd : (shape1 train_x <> 784 \/ layers = []) ->
                 forall bt : batch, shape1 (fst bt) = shape1 train_x ->
                   forall b (s : Procedural.batch_state rng),
                     Procedural.bs_weights s = m :: new ->
                     Procedural.train_batch clock rate 0 b bt s = None).
  { intros Hc bt Hbt b s Hs. apply Procedural_train_batch_forward_raises.
    rewrite Hs. destruct Hc as [Hc|Hc].
    - apply (@Procedural_forward_mismatch (fst bt) (m :: new) m new eq_refl).
      rewrite Hbt, Hm. exact Hc.
    - subst layers. cbn [length] in Hlen.
      destruct new as [|m' new']; [reflexivity|cbn [length] in Hlen; lia]. }
  destruct Hcase as [Hc|[Hc|[Hc|Hc]]]; [| |discriminate|].
  - unfold cycle_batches.
    destruct (seq 0 (shape0 train_x / 64 - 1)) as [|i0 rest0]; cbn [map app
      Procedural.train_batches_from].
    + rewrite Hfwd; [reflexivity|now left|reflexivity|reflexivity].
    + rewrite Hfwd; [reflexivity|now left|reflexivity|reflexivity].
  - unfold cycle_batches.
    destruct (seq 0 (shape0 train_x / 64 - 1)) as [|i0 rest0]; cbn [map app
      Procedural.train_batches_from].
    + rewrite Hfwd; [reflexivity|now right|reflexivity|reflexivity].
    + rewrite Hfwd; [reflexivity|now right|reflexivity|reflexivity].
  - unfold cycle_batches. apply Procedural_train_batches_from_raises.
    intros b s. apply Procedural_train_batch_empty_raises. cbn [fst].
    destruct (@cycle_batches_last train_x train_y 64 HX) as [_ Hl]; [lia|].
    now rewrite Hl.
Qed.

End ProceduralRaises.

Lemma Procedural_train_raises_witness :
  wf X4 /\ shape1 X4 <> 784 /\
  Procedural.train rev_shuffle zero_randn tick_clock X4 Y4 [128; 64] 13 (7 / 1000) w0
  = None.
Proof.
  split; [reflexivity|]. split; [cbn; lia|].
  apply (@Procedural_train_raises unit rev_shuffle zero_randn tick_clock
           zero_randn_shape X4 Y4 [128; 64] 13 (7 / 1000)%R w0); [reflexivity|].
  left. cbn. lia.
Defined.


(** ** [init_weights] of the procedural program *)

Section ProceduralInit.

Variable rng : Type.
Variable rng_randn : rng -> nat -> nat -> matrix * rng.

Hypothesis rng_randn_shape :
  forall g r c, shape0 (fst (rng_randn g r c)) = r /\
                shape1 (fst (rng_randn g r c)) = c.

Lemma init_weights_loop_raises (sizes : list nat) :
  forall (n : nat) (init : list matrix) (w : world rng),
    sizes <> [] -> In 0 (n :: removelast sizes) ->
    Procedural.init_weights_loop rng_randn sizes n init w = None.
Proof.
  induction sizes as [|h rest IH]; intros n init w Hne Hin; [congruence|].
  cbn [Procedural.init_weights_loop].
  destruct (rng_randn (gen w) n h) as [m g].
  destruct (Nat.eqb_spec n 0) as [|Hn]; [reflexivity|].
  destruct rest as [|h' rest'].
  - cbn [removelast In] in Hin. destruct Hin as [Hin|[]]. lia.
  - apply IH; [discriminate|].
    change (removelast (h :: h' :: rest')) with (h :: removelast (h' :: rest')) in Hin.
    destruct Hin as [Hin|Hin]; [lia|exact Hin].
Qed.

Lemma init_weights_loop_returns (sizes : list nat) :
  forall (n : nat) (init : list matrix) (w : world rng),
    ~ In 0 (n :: removelast sizes) ->
    exists new w',
      Procedural.init_weights_loop rng_randn sizes n init w = Some (init ++ new, w') /\
      map (fun m => (shape0 m, shape1 m)) new = weight_shapes n sizes /\
      ticks w' = ticks w.
Proof.
  induction sizes as [|h rest IH]; intros n init w Hnin;
    cbn [Procedural.init_weights_loop weight_shapes].
  - exists [], w. rewrite app_nil_r. auto.
  - pose proof (rng_randn_shape (gen w) n h) as [Hs0 Hs1].
    destruct (rng_randn (gen w) n h) as [m g]. cbn [fst] in Hs0, Hs1.
    destruct (Nat.eqb_spec n 0) as [E|Hn]; [exfalso; apply Hnin; now left|].
    destruct rest as [|h' rest'].
    + cbn [Procedural.init_weights_loop weight_shapes].
      eexists [_], _. split; [reflexivity|]. split; [|reflexivity].
      cbn [map map_matrix shape0 shape1]. now rewrite Hs0, Hs1.
    + destruct (IH h (init ++ [map_matrix (fun x => (x * sqrt (2 / INR n))%R) m])
                  {| gen := g; ticks := ticks w |}) as (new & w' & Hr & Hsh & Ht).
      { intros Hin. apply Hnin. right.
        change (removelast (h :: h' :: rest')) with (h :: removelast (h' :: rest')).
        exact Hin. }
      rewrite Hr. eexists (_ :: new), w'. rewrite <- app_assoc. split; [reflexivity|].
      split; [|exact Ht]. cbn [map map_matrix shape0 shape1]. rewrite Hs0, Hs1, Hsh.
      reflexivity.
Qed.

(** X28: [init_weights(layers, n)] raises exactly when [n] or a hidden
    width is zero; otherwise it returns one matrix per hidden width and
    one more, whose shapes chain from [n] through the hidden widths to 10. *)
Theorem Procedural_init_weights_shapes (layers : list nat) (n : nat) (w : world rng) :
  (In 0 (n :: layers) -> Procedural.init_weights rng_randn layers n w = None) /\
  (~ In 0 (n :: layers) ->
   exists ws w',
     Procedural.init_weights rng_randn layers n w = Some (ws, w') /\
     map (fun m => (shape0 m, shape1 m)) ws = weight_shapes n (layers ++ [10]) /\
     length ws = length layers + 1).
Proof.
  unfold Procedural.init_weights. split.
  - intros Hin. apply init_weights_loop_raises.
    + destruct layers; discriminate.
    + now rewrite removelast_last.
  - intros Hnin.
    destruct (@init_weights_loop_returns (layers ++ [10]) n [] w) as (new & w' & Hr & Hsh & _).
    + now rewrite removelast_last.
    + cbn [app] in Hr. exists new, w'. split; [exact Hr|]. split; [exact Hsh|].
      rewrite <- (length_map (fun m => (shape0 m, shape1 m))), Hsh.
      clear. revert n. induction layers as [|h rest IH]; intros n; [reflexivity|].
      cbn [app weight_shapes length]. now rewrite IH.
Qed.

End ProceduralInit.


Lemma Procedural_init_weights_shapes_witness :
  exists ws w',
    Procedural.init_weights zero_randn [128; 64] 784 w0 = Some (ws, w') /\
    map (fun m => (shape0 m, shape1 m)) ws = [(784, 128); (128, 64); (64, 10)] /\
    length ws = 3.
Proof.
  apply (proj2 (@Procedural_init_weights_shapes unit zero_randn zero_randn_shape
                  [128; 64] 784 w0)).
  intros [H|[H|[H|[]]]]; discriminate.
Defined.


(** ** The two programs make the same training step *)

Lemma layers_of_weights_cons (w : matrix) (rest : list matrix) :
  layers_of_weights (w :: rest)
  = LDense {| Dense.weights := w; Dense.input := None; Dense.output := None |}
      :: tail_layers rest.
Proof.
  revert w. induction rest as [|w' rest IH]; intros w; [reflexivity|].
  change (layers_of_weights (w :: w' :: rest))
    with (LDense {| Dense.weights := w; Dense.input := None; Dense.output := None |}
            :: LSoftplus {| Softplus.input := None; Softplus.output := None |}
            :: layers_of_weights (w' :: rest)).
  rewrite IH. reflexivity.
Qed.

Lemma pairs_of_app (l1 l2 : list Layer) :
  pairs_of (l1 ++ l2) = pairs_of l1 ++ pairs_of l2.
Proof. apply flat_map_app. Qed.

Lemma weights_of_app (l1 l2 : list Layer) :
  weights_of (l1 ++ l2) = weights_of l1 ++ weights_of l2.
Proof. apply flat_map_app. Qed.

(** The loop of [forward] stores, for every hidden layer, the matrices
    that the [Softplus] layers of the network cache. *)
Lemma Procedural_forward_loop_caches (input : matrix) (hs : list matrix) :
  forall (i : nat) (outs : list (matrix * matrix)) (cur y : matrix) (ls : list Layer),
    (if i =? 0 then cur = input else exists Z, last_opt outs = Some (Z, cur)) ->
    forward_layers
      (concat (map (fun w =>
         [LDense {| Dense.weights := w; Dense.input := None; Dense.output := None |};
          LSoftplus {| Softplus.input := None; Softplus.output := None |}]) hs)) cur
    = Some (y, ls) ->
    Procedural.forward_loop input i hs outs = Some (outs ++ pairs_of ls) /\
    (hs <> [] -> exists Z, last_opt (outs ++ pairs_of ls) = Some (Z, y)).
Proof.
  induction hs as [|w hs IH]; intros i outs cur y ls Hcur Hf.
  - cbn [map concat forward_layers] in Hf. injection Hf as <- <-.
    cbn [Procedural.forward_loop pairs_of flat_map]. rewrite app_nil_r.
    split; [reflexivity|congruence].
  - cbn [map concat app forward_layers Layer_forward] in Hf.
    cbn [Procedural.forward_loop].
    assert (Hd : (if i =? 0 then dot input w
                  else (l <- last_opt outs ;; dot (snd l) w)%err) = dot cur w).
    { destruct (i =? 0); [now subst|]. destruct Hcur as [Z ->]. reflexivity. }
    rewrite Hd. unfold Dense.forward in Hf. cbn [Dense.weights] in Hf.
    destruct (dot cur w) as [Z|]; cbn [bind_opt] in Hf |- *; [|discriminate].
    unfold Softplus.forward in Hf. cbn [bind_opt] in Hf.
    destruct (forward_layers _ (map_matrix (fun x => ln (1 + exp x)) Z))
      as [[y' ls']|] eqn:Er; cbn [bind_opt] in Hf; [|discriminate].
    injection Hf as <- <-.
    destruct (IH (S i) (outs ++ [(Z, map_matrix (fun x => ln (1 + exp x)) Z)])
                (map_matrix (fun x => ln (1 + exp x)) Z) y' ls') as [Hr Hlast].
    { cbn [Nat.eqb]. exists Z. apply last_opt_app. }
    { exact Er. }
    assert (Hp : outs ++ pairs_of
                   (LDense {| Dense.weights := w; Dense.input := Some cur;
                              Dense.output := Some Z |}
                    :: LSoftplus {| Softplus.input := Some Z;
                                    Softplus.output :=
                                      Some (map_matrix (fun x => ln (1 + exp x)) Z) |}
                    :: ls')
                 = (outs ++ [(Z, map_matrix (fun x => ln (1 + exp x)) Z)])
                   ++ pairs_of ls').
    { unfold pairs_of. cbn [flat_map Softplus.input Softplus.output app].
      now rewrite <- app_assoc. }
    rewrite Hp. split; [exact Hr|]. intros _.
    destruct hs as [|w' hs'].
    + cbn [map concat forward_layers] in Er. injection Er as <- <-.
      cbn [pairs_of flat_map]. rewrite app_nil_r. exists Z. apply last_opt_app.
    + apply Hlast. discriminate.
Qed.

(** All but the last entry of what [forward] returns is what the
    [Softplus] layers hold after [Net.forward]. *)
Lemma Procedural_forward_caches (x : matrix) (ws : list matrix)
    (outputs : list (matrix * matrix)) (out : matrix) (ls : list Layer) :
  2 <= length ws ->
  Procedural.forward x ws = Some outputs ->
  forward_layers (layers_of_weights ws) x = Some (out, ls) ->
  removelast outputs = pairs_of ls.
Proof.
  intros Hlen Hp Hf.
  destruct (@exists_last _ ws) as (hs & wl & ->);
    [destruct ws; [cbn in Hlen; lia|discriminate]|].
  assert (Hhs : hs <> []) by (intros ->; cbn in Hlen; lia).
  rewrite layers_of_weights_app, forward_layers_app in Hf.
  destruct (forward_layers _ x) as [[y lh]|] eqn:Eh; cbn [bind_opt] in Hf;
    [|discriminate].
  destruct (@Procedural_forward_loop_caches x hs 0 [] x y lh eq_refl Eh) as [Hr _].
  cbn [app] in Hr.
  unfold Procedural.forward in Hp. rewrite removelast_last, Hr in Hp.
  cbn [bind_opt] in Hp.
  destruct (last_opt (pairs_of lh)) as [l|]; cbn [bind_opt] in Hp; [|discriminate].
  rewrite last_opt_app in Hp. cbn [bind_opt] in Hp.
  destruct (dot (snd l) wl) as [ZF|]; cbn [bind_opt] in Hp; [|discriminate].
  destruct (Procedural.softmax ZF) as [AF|]; cbn [bind_opt] in Hp; [|discriminate].
  injection Hp as <-. rewrite removelast_last.
  cbn [forward_layers Layer_forward] in Hf. unfold Dense.forward in Hf.
  cbn [Dense.weights] in Hf.
  destruct (dot y wl) as [ZF'|]; cbn [bind_opt] in Hf; [|discriminate].
  destruct (Softmax.forward _ ZF') as [[AF' s']|]; cbn [bind_opt] in Hf; [|discriminate].
  injection Hf as _ <-. rewrite pairs_of_app.
  cbn [pairs_of flat_map]. now rewrite app_nil_r.
Qed.


Lemma set_nth_app (A : Type) (pre t : list A) (x y : A) :
  set_nth (pre ++ x :: t) (length pre) y = pre ++ y :: t.
Proof.
  induction pre as [|p pre IH]; [reflexivity|].
  cbn [app length set_nth]. now rewrite IH.
Qed.

Lemma Procedural_backward_loop_app (rate : R) (l1 l2 : list (matrix * matrix)) :
  forall (i : nat) (g : matrix) (ws : list matrix),
    Procedural.backward_loop (l1 ++ l2) i g ws rate
    = ('(g1, ws1) <- Procedural.backward_loop l1 i g ws rate ;;
       Procedural.backward_loop l2 (i + length l1) g1 ws1 rate)%err.
Proof.
  induction l1 as [|l l1 IH]; intros i g ws; cbn [app Procedural.backward_loop length].
  - cbn [bind_opt]. now rewrite Nat.add_0_r.
  - repeat match goal with
           | |- bind_opt ?c _ = bind_opt (bind_opt ?c _) _ =>
               destruct c; cbn [bind_opt]; [|reflexivity]
           end.
    rewrite IH. now rewrite Nat.add_succ_comm.
Qed.

(** One stage of the backward pass: a [Dense] layer and the [Softplus]
    layer below it in [Net.backward] are one pass of the loop of
    [backward].  [tl] is what [Net.forward] left of the layers above the
    first [Dense] layer; [pre] are the weight matrices below. *)
Lemma backward_stages (rate : R) (ws : list matrix) :
  forall (Z out : matrix) (tl : list Layer),
    forward_layers (tail_layers ws) Z = Some (out, tl) ->
    length (pairs_of tl) = length ws /\
    forall (g g' : matrix) (tl2 : list Layer) (pre : list matrix),
      backward_layers (rev tl) g rate = Some (g', tl2) ->
      length (weights_of (rev tl2)) = length ws /\
      map Layer_reset (rev tl2) = tail_layers (weights_of (rev tl2)) /\
      Procedural.backward_loop (rev (pairs_of tl)) 0 g (pre ++ ws) rate
      = Some (g', pre ++ weights_of (rev tl2)).
Proof.
  induction ws as [|W ws IH]; intros Z out tl Hf.
  - cbn [tail_layers forward_layers Layer_forward] in Hf.
    destruct (Softmax.forward _ Z) as [[y s']|]; cbn [bind_opt] in Hf; [|discriminate].
    injection Hf as _ <-. split; [reflexivity|].
    intros g g' tl2 pre Hb. cbn [rev app backward_layers Layer_backward] in Hb.
    unfold Softmax.backward in Hb. cbn [bind_opt] in Hb. injection Hb as <- <-.
    split; [reflexivity|]. split; [reflexivity|]. cbn. reflexivity.
  - cbn [tail_layers forward_layers Layer_forward] in Hf.
    unfold Softplus.forward, Dense.forward in Hf. cbn [bind_opt Dense.weights] in Hf.
    set (A := map_matrix (fun x => ln (1 + exp x)) Z) in *.
    destruct (dot A W) as [Z1|]; cbn [bind_opt] in Hf; [|discriminate].
    destruct (forward_layers (tail_layers ws) Z1) as [[out1 tl1]|] eqn:E1;
      cbn [bind_opt] in Hf; [|discriminate].
    injection Hf as _ <-.
    destruct (IH Z1 out1 tl1 E1) as [Hlen IHb].
    assert (Hp : forall tl1,
               pairs_of (LSoftplus {| Softplus.input := Some Z; Softplus.output := Some A |}
                         :: LDense {| Dense.weights := W; Dense.input := Some A;
                                      Dense.output := Some Z1 |} :: tl1)
               = (Z, A) :: pairs_of tl1) by reflexivity.
    rewrite Hp. split; [cbn [length]; now rewrite Hlen|].
    intros g g' tl2 pre Hb.
    cbn [rev] in Hb. rewrite <- app_assoc in Hb. cbn [app] in Hb.
    rewrite backward_layers_app in Hb.
    destruct (backward_layers (rev tl1) g rate) as [[g1 tl1b]|] eqn:Eb1;
      cbn [bind_opt] in Hb; [|discriminate].
    destruct (IHb g g1 tl1b (pre ++ [W]) Eb1) as (Hlw & Hreset & Hloop).
    cbn [backward_layers Layer_backward] in Hb.
    unfold Dense.backward in Hb. cbn [Dense.input Dense.weights Dense.output bind_opt] in Hb.
    destruct (dot (transpose g1) A) as [dW0|] eqn:EdW; cbn [bind_opt] in Hb;
      [|discriminate].
    destruct (dot g1 (transpose W)) as [dZ|] eqn:EdZ; cbn [bind_opt] in Hb;
      [|discriminate].
    destruct (isub W (map_matrix (fun x => (x * rate)%R) (transpose dW0))) as [W'|] eqn:EW;
      cbn [bind_opt] in Hb; [|discriminate].
    unfold Softplus.backward in Hb. cbn [Softplus.input bind_opt] in Hb.
    destruct (broadcast Rdiv (map_matrix exp Z)
                (map_matrix (fun e => (1 + e)%R) (map_matrix exp Z))) as [q|] eqn:Eq;
      cbn [bind_opt] in Hb; [|discriminate].
    destruct (broadcast Rmult q dZ) as [dA|] eqn:EdA; cbn [bind_opt] in Hb;
      [|discriminate].
    injection Hb as <- <-.
    rewrite rev_app_distr. cbn [rev app]. 
    assert (Hw : forall l,
               weights_of (LSoftplus {| Softplus.input := Some Z; Softplus.output := Some A |}
                           :: LDense {| Dense.weights := W'; Dense.input := Some A;
                                        Dense.output := Some Z1 |} :: l)
               = W' :: weights_of l) by reflexivity.
    rewrite Hw. split; [cbn [length]; now rewrite Hlw|].
    split; [cbn [map Layer_reset tail_layers Dense.weights]; now rewrite Hreset|].
    cbn [rev]. rewrite Procedural_backward_loop_app.
    replace (pre ++ W :: ws) with ((pre ++ [W]) ++ ws) by now rewrite <- app_assoc.
    rewrite Hloop. cbn [bind_opt Procedural.backward_loop fst snd].
    rewrite EdW. cbn [bind_opt].
    assert (Hn : neg_index ((pre ++ [W]) ++ weights_of (rev tl1b))
                   (0 + length (rev (pairs_of tl1))) = Some (length pre)).
    { unfold neg_index. rewrite length_rev, Hlen, !length_app, Hlw. cbn [length Nat.add].
      destruct (Nat.leb_spec (length ws + 1) (length pre + 1 + length ws)) as [_|]; [|lia].
      f_equal. lia. }
    rewrite Hn. cbn [bind_opt].
    rewrite <- app_assoc. cbn [app].
    rewrite nth_error_app2 by lia. rewrite Nat.sub_diag. cbn [nth_error bind_opt].
    rewrite EdZ. cbn [bind_opt]. rewrite EW. cbn [bind_opt].
    rewrite Eq. cbn [bind_opt]. rewrite EdA. cbn [bind_opt].
    rewrite set_nth_app. reflexivity.
Qed.


(** The backward passes of the two programs, on the layers as the
    forward pass left them. *)
Lemma Procedural_backward_layers (rate : R) (x error out g : matrix) (ws : list matrix)
    (outputs : list (matrix * matrix)) (ls1 ls2 : list Layer) :
  2 <= length ws ->
  Procedural.forward x ws = Some outputs ->
  forward_layers (layers_of_weights ws) x = Some (out, ls1) ->
  shape0 x <> 0 ->
  backward_layers (rev ls1)
    (map_matrix (fun e => (1 / INR (shape0 x) * e)%R) error) rate = Some (g, ls2) ->
  Procedural.backward x error ws outputs rate = Some (weights_of (rev ls2)) /\
  map Layer_reset (rev ls2) = layers_of_weights (weights_of (rev ls2)) /\
  length (weights_of (rev ls2)) = length ws.
Proof.
  intros Hlen Hp Hf Hm Hb.
  pose proof (@Procedural_forward_caches x ws outputs out ls1 Hlen Hp Hf) as Hpairs.
  destruct ws as [|W0 ws]; [cbn in Hlen; lia|].
  rewrite layers_of_weights_cons in Hf.
  cbn [forward_layers Layer_forward] in Hf. unfold Dense.forward in Hf.
  cbn [Dense.weights] in Hf.
  destruct (dot x W0) as [Z0|]; cbn [bind_opt] in Hf; [|discriminate].
  destruct (forward_layers (tail_layers ws) Z0) as [[out' tl]|] eqn:Et;
    cbn [bind_opt] in Hf; [|discriminate].
  injection Hf as _ <-.
  destruct (@backward_stages rate ws Z0 out' tl Et) as [_ Hst].
  cbn [rev] in Hb. rewrite backward_layers_app in Hb.
  destruct (backward_layers (rev tl) _ rate) as [[g1 tl2]|] eqn:Eb;
    cbn [bind_opt] in Hb; [|discriminate].
  destruct (Hst _ g1 tl2 [W0] Eb) as (Hlw & Hreset & Hloop).
  cbn [backward_layers Layer_backward] in Hb. unfold Dense.backward in Hb.
  cbn [Dense.input Dense.weights Dense.output bind_opt] in Hb.
  destruct (dot (transpose g1) x) as [dW0|] eqn:EdW; cbn [bind_opt] in Hb;
    [|discriminate].
  destruct (dot g1 (transpose W0)) as [dZ|]; cbn [bind_opt] in Hb; [|discriminate].
  destruct (isub W0 (map_matrix (fun v => (v * rate)%R) (transpose dW0))) as [W0'|] eqn:EW;
    cbn [bind_opt] in Hb; [|discriminate].
  injection Hb as _ <-.
  rewrite rev_app_distr. cbn [rev app].
  assert (Hw : forall d l, weights_of (LDense d :: l) = Dense.weights d :: weights_of l)
    by reflexivity.
  rewrite Hw. cbn [Dense.weights]. split; [|split].
  - unfold Procedural.backward. destruct (Nat.eqb_spec (shape0 x) 0); [contradiction|].
    rewrite Hpairs.
    assert (Hpt : pairs_of (LDense {| Dense.weights := W0; Dense.input := Some x;
                                      Dense.output := Some Z0 |} :: tl)
                  = pairs_of tl) by reflexivity.
    rewrite Hpt. change (W0 :: ws) with ([W0] ++ ws). rewrite Hloop.
    cbn [bind_opt app nth_error]. rewrite EdW. cbn [bind_opt]. rewrite EW.
    cbn [bind_opt set_nth]. reflexivity.
  - rewrite layers_of_weights_cons. cbn [map Layer_reset Dense.weights].
    now rewrite Hreset.
  - cbn [length]. now rewrite Hlw.
Qed.

(** X29: [backward] of the procedural program and [Net.backward] make
    the same update.  After the forward passes of the two programs on the
    same batch with the same weights, whenever [Net.backward] returns,
    [backward] returns too, and its weight matrices are the weights of the
    [Dense] layers of the network, in order. *)
Theorem Procedural_backward_agrees (x error out : matrix) (ws : list matrix)
    (outputs : list (matrix * matrix)) (self net1 net2 : Net) :
  2 <= length ws ->
  map Layer_reset (layers self) = layers_of_weights ws ->
  Procedural.forward x ws = Some outputs ->
  Net_forward self x = Some (out, net1) ->
  Net_backward net1 x error = Some net2 ->
  Procedural.backward x error ws outputs (lr self) = Some (weights_of (layers net2)) /\
  length (weights_of (layers net2)) = length ws.
Proof.
  intros Hlen Hreset Hp Hf Hb.
  unfold Net_forward in Hf. rewrite <- forward_layers_reset, Hreset in Hf.
  destruct (forward_layers (layers_of_weights ws) x) as [[o ls1]|] eqn:Ef;
    cbn [bind_opt] in Hf; [|discriminate].
  injection Hf as -> <-.
  unfold Net_backward in Hb. cbn [layers set_layers lr] in Hb.
  destruct (Nat.eqb_spec (shape0 x) 0) as [|Hm]; [discriminate|].
  destruct (backward_layers (rev ls1) _ (lr self)) as [[g ls2]|] eqn:Eb;
    cbn [bind_opt] in Hb; [|discriminate].
  injection Hb as <-. cbn [layers set_layers].
  destruct (@Procedural_backward_layers (lr self) x error out g ws outputs ls1 ls2
              Hlen Hp Ef Hm Eb) as (H1 & _ & H3).
  split; assumption.
Qed.


Lemma weights_of_cons (l : Layer) (t : list Layer) :
  weights_of (l :: t)
  = match Layer_weights l with Some w => [w] | None => [] end ++ weights_of t.
Proof. reflexivity. Qed.

Lemma weights_of_reset (ls : list Layer) :
  weights_of (map Layer_reset ls) = weights_of ls.
Proof.
  induction ls as [|l ls IH]; [reflexivity|].
  cbn [map]. rewrite !weights_of_cons, IH. f_equal. destruct l; reflexivity.
Qed.

Lemma weights_of_tail_layers (ws : list matrix) : weights_of (tail_layers ws) = ws.
Proof.
  induction ws as [|w ws IH]; [reflexivity|].
  cbn [tail_layers]. rewrite !weights_of_cons, IH. reflexivity.
Qed.

Lemma weights_of_layers_of_weights (ws : list matrix) :
  weights_of (layers_of_weights ws) = ws.
Proof.
  destruct ws as [|w ws]; [reflexivity|]. rewrite layers_of_weights_cons.
  rewrite weights_of_cons, weights_of_tail_layers. reflexivity.
Qed.

Section TwinPrograms.

Variable rng : Type.
Variable clock : nat -> R.

(** States that stand for each other hold the same weights. *)
Lemma twin_state_weights (ps : Procedural.batch_state rng) (s : batch_state rng) :
  twin_state ps s -> Procedural.bs_weights ps = weights_of (layers (bs_net s)).
Proof.
  intros (_ & Hreset & _).
  now rewrite <- weights_of_reset, Hreset, weights_of_layers_of_weights.
Qed.

(** One batch: whenever the body of the loop of [Net.train] completes,
    so does the body of the loop of [train], and the states they reach
    stand for each other again. *)
Lemma Procedural_train_batch_twin (cycle b : nat) (bt : batch)
    (ps : Procedural.batch_state rng) (s s' : batch_state rng) :
  twin_state ps s ->
  train_batch clock cycle b bt s = Some s' ->
  exists ps',
    Procedural.train_batch clock (lr (bs_net s)) cycle b bt ps = Some ps' /\
    twin_state ps' s' /\
    lr (bs_net s') = lr (bs_net s).
Proof.
  intros (Hlen & Hreset & Hc & Ha & Hcs & Hts & Hw) H.
  unfold train_batch in H. unfold Procedural.train_batch.
  rewrite Hc, Ha, Hcs, Hts, Hw.
  set (e := if (cycle =? 0) && (b =? 13)
            then
              let '(c, w1) := time_time clock (bs_world s) in
              let '(t, w2) := time_time clock w1 in (c, t, w2)
            else (bs_cycle_start s, bs_train_start s, bs_world s)) in *.
  destruct e as [[cs ts] w].
  destruct (Net_forward (bs_net s) (fst bt)) as [[o n1]|] eqn:Ef; cbn [bind_opt] in H;
    [|discriminate].
  destruct (broadcast Rminus o (snd bt)) as [err|] eqn:Ee; cbn [bind_opt] in H;
    [|discriminate].
  destruct (Net_backward n1 (fst bt) err) as [n2|] eqn:Eb; cbn [bind_opt] in H;
    [|discriminate].
  destruct (argmax_axis1 o) as [p|] eqn:Ep; cbn [bind_opt] in H; [|discriminate].
  destruct (argmax_axis1 (snd bt)) as [t|] eqn:Et; cbn [bind_opt] in H; [|discriminate].
  destruct (count_eq p t) as [hits|] eqn:Eh; cbn [bind_opt] in H; [|discriminate].
  destruct (Nat.eqb_spec (shape0 (fst bt)) 0) as [|Hm]; [discriminate|].
  injection H as <-.
  unfold Net_forward in Ef. rewrite <- forward_layers_reset, Hreset in Ef.
  destruct (forward_layers (layers_of_weights (Procedural.bs_weights ps)) (fst bt))
    as [[o' ls1]|] eqn:Efl; cbn [bind_opt] in Ef; [|discriminate].
  injection Ef as -> <-.
  pose proof (@Procedural_forward_last (fst bt) (Procedural.bs_weights ps) Hlen) as Hlast.
  rewrite Efl in Hlast. cbn [option_map fst] in Hlast.
  destruct (Procedural.forward (fst bt) (Procedural.bs_weights ps)) as [outputs|] eqn:Epf;
    cbn [bind_opt] in Hlast |- *; [|discriminate].
  destruct (last_opt outputs) as [l|]; cbn [bind_opt] in Hlast |- *; [|discriminate].
  injection Hlast as ->. rewrite Ee. cbn [bind_opt].
  unfold Net_backward in Eb. cbn [layers set_layers lr] in Eb.
  destruct (Nat.eqb_spec (shape0 (fst bt)) 0) as [|_]; [contradiction|].
  destruct (backward_layers (rev ls1) _ (lr (bs_net s))) as [[g ls2]|] eqn:Ebl;
    cbn [bind_opt] in Eb; [|discriminate].
  injection Eb as <-.
  destruct (@Procedural_backward_layers (lr (bs_net s)) (fst bt) err o g
              (Procedural.bs_weights ps) outputs ls1 ls2 Hlen Epf Efl Hm Ebl)
    as (Hback & Hres & Hl2).
  rewrite Hback. cbn [bind_opt]. rewrite Ep. cbn [bind_opt]. rewrite Eh.
  cbn [bind_opt].
  eexists. split; [reflexivity|]. split; [|reflexivity].
  unfold twin_state.
  cbn [Procedural.bs_weights Procedural.bs_cost Procedural.bs_acc
       Procedural.bs_cycle_start Procedural.bs_train_start Procedural.bs_world
       bs_net bs_cost bs_acc bs_cycle_start bs_train_start bs_world layers set_layers].
  split; [now rewrite Hl2|]. split; [exact Hres|]. repeat split; reflexivity.
Qed.

(** X30: the two programs train alike.  Started from states that stand
    for each other (the same weights, cost and accuracy), whenever the
    loop over the batches of a cycle in [Net.train] completes, the loop in
    [train] completes too, with the same weights in the [Dense] layers,
    the same accumulated cost and the same accumulated accuracy. *)
Theorem Procedural_train_batches_agree (cycle : nat) (l : list batch) :
  forall (b : nat) (ps : Procedural.batch_state rng) (s s' : batch_state rng),
    twin_state ps s ->
    train_batches_from clock cycle b l s = Some s' ->
    exists ps',
      Procedural.train_batches_from clock (lr (bs_net s)) cycle b l ps = Some ps' /\
      Procedural.bs_weights ps' = weights_of (layers (bs_net s')) /\
      Procedural.bs_cost ps' = bs_cost s' /\
      Procedural.bs_acc ps' = bs_acc s' /\
      twin_state ps' s'.
Proof.
  induction l as [|bt l IH]; intros b ps s s' Htw H; cbn [train_batches_from] in H;
    cbn [Procedural.train_batches_from].
  - injection H as <-. exists ps. split; [reflexivity|].
    split; [now apply twin_state_weights|].
    pose proof Htw as (_ & _ & Hc & Ha & _). auto.
  - destruct (train_batch clock cycle b bt s) as [s1|] eqn:E; cbn [bind_opt] in H;
      [|discriminate].
    destruct (@Procedural_train_batch_twin cycle b bt ps s s1 Htw E)
      as (ps1 & Hp1 & Htw1 & Hlr).
    rewrite Hp1. cbn [bind_opt]. rewrite <- Hlr. apply (IH (S b) ps1 s1 s' Htw1 H).
Qed.

End TwinPrograms.


Lemma twin_state_start : twin_state pbs0 bs0.
Proof.
  unfold twin_state. split; [cbn; lia|]. repeat split; reflexivity.
Qed.

Lemma Procedural_train_batches_agree_witness :
  exists s' ps',
    train_batches_from tick_clock 0 0 [(X1, Y1)] bs0 = Some s' /\
    Procedural.train_batches_from tick_clock (lr (bs_net bs0)) 0 0 [(X1, Y1)] pbs0
    = Some ps' /\
    Procedural.bs_weights ps' = weights_of (layers (bs_net s')) /\
    Procedural.bs_cost ps' = bs_cost s' /\
    Procedural.bs_acc ps' = bs_acc s' /\
    twin_state ps' s'.
Proof.
  destruct (@net0_first_batch bs0 eq_refl) as (s' & Hs' & _).
  assert (H : train_batches_from tick_clock 0 0 [(X1, Y1)] bs0 = Some s').
  { cbn [train_batches_from]. rewrite Hs'. reflexivity. }
  destruct (@Procedural_train_batches_agree unit tick_clock 0 [(X1, Y1)] 0 pbs0 bs0 s'
              twin_state_start H) as (ps' & Hp & Hrest).
  exists s', ps'. split; [exact H|]. split; [exact Hp|exact Hrest].
Defined.

Lemma Procedural_backward_agrees_witness :
  exists outputs out net1 error net2,
    Procedural.forward X1 ws0 = Some outputs /\
    Net_forward net0 X1 = Some (out, net1) /\
    broadcast Rminus out Y1 = Some error /\
    Net_backward net1 X1 error = Some net2 /\
    Procedural.backward X1 error ws0 outputs (lr net0)
    = Some (weights_of (layers net2)) /\
    length (weights_of (layers net2)) = length ws0.
Proof.
  destruct (@net0_first_batch bs0 eq_refl) as (s' & Hs' & _).
  destruct (@train_batch_inv unit tick_clock 0 0 (X1, Y1) bs0 s' Hs')
    as (o & n1 & e & n2 & p & t & hits & Hf & He & Hb & _).
  cbn [fst snd bs_net bs0] in Hf, He, Hb.
  assert (Hlen : 2 <= length ws0) by (cbn; lia).
  destruct (Procedural.forward X1 ws0) as [outputs|] eqn:Ep.
  2:{ pose proof (@Procedural_forward_last X1 ws0 Hlen) as Hl. rewrite Ep in Hl.
      unfold Net_forward in Hf.
      change (layers net0) with (layers_of_weights ws0) in Hf.
      destruct (forward_layers (layers_of_weights ws0) X1) as [[o' l']|];
        cbn [bind_opt option_map] in Hf, Hl; discriminate. }
  exists outputs, o, n1, e, n2.
  split; [reflexivity|]. split; [exact Hf|]. split; [exact He|]. split; [exact Hb|].
  exact (@Procedural_backward_agrees X1 e o ws0 outputs net0 n1 n2
           Hlen eq_refl Ep Hf Hb).
Defined.
